(** * A verified model of the Telegram to-do bot ([bot.py])

    The development follows the layout of [bot.py]: text and Unicode
    helpers, the parsing functions, the task table and its SQL statements,
    the ordering and completion functions, the formatting functions and the
    message handlers.  Python [str] values are lists of Unicode code points,
    Python [int] values are [Z], the SQLite table is the list of its rows in
    rowid order, and the functions that touch the database or the clock live
    in a small state-and-exception monad. *)

From Stdlib Require Import String Ascii.
From Stdlib Require Import ZArith NArith List Bool Lia.
From Stdlib Require Import Permutation Sorted.
From Stdlib Require Decimal DecimalPos.
Import ListNotations.

Local Open Scope Z_scope.

(* ================================================================== *)
(** * Python strings *)
(* ================================================================== *)

(** A Python [str] is a sequence of code points. *)
Definition char := N.
Definition str := list char.

(** String literals of the source are written as UTF-8 literals and decoded
    to code points once, at definition time. *)
Fixpoint utf8_decode (bs : list N) : str :=
  match bs with
  | [] => []
  | b0 :: r0 =>
      if (b0 <? 0x80)%N then b0 :: utf8_decode r0
      else match r0 with
      | [] => [b0]
      | b1 :: r1 =>
          if (b0 <? 0xE0)%N
          then ((b0 - 0xC0) * 64 + (b1 - 0x80))%N :: utf8_decode r1
          else match r1 with
          | [] => [b0; b1]
          | b2 :: r2 =>
              if (b0 <? 0xF0)%N
              then ((b0 - 0xE0) * 4096 + (b1 - 0x80) * 64 + (b2 - 0x80))%N
                     :: utf8_decode r2
              else match r2 with
              | [] => [b0; b1; b2]
              | b3 :: r3 =>
                  ((b0 - 0xF0) * 262144 + (b1 - 0x80) * 4096
                   + (b2 - 0x80) * 64 + (b3 - 0x80))%N :: utf8_decode r3
              end
          end
      end
  end.

Definition lit (s : string) : str :=
  utf8_decode (List.map N_of_ascii (list_ascii_of_string s)).

Definition SPACE : char := 32%N.
Definition NEWLINE : char := 10%N.

(** [str.isspace] on one code point; the same set is used by [str.strip],
    [str.split] without argument and the [\s] class of [re] on [str]
    patterns. *)
Definition is_space (c : char) : bool :=
  ((9 <=? c) && (c <=? 13) || (28 <=? c) && (c <=? 32)
   || (c =? 0x85) || (c =? 0xA0) || (c =? 0x1680)
   || (0x2000 <=? c) && (c <=? 0x200A)
   || (c =? 0x2028) || (c =? 0x2029) || (c =? 0x202F)
   || (c =? 0x205F) || (c =? 0x3000))%N.

(** First code point of every run of ten Unicode decimal digits (general
    category Nd, Unicode 14.0): the [\d] class of [re] on [str] patterns,
    and the digits [int] accepts. *)
Definition decimal_zeros : list N :=
  [ 0x30; 0x660; 0x6f0; 0x7c0; 0x966; 0x9e6; 0xa66; 0xae6; 0xb66; 0xbe6;
    0xc66; 0xce6; 0xd66; 0xde6; 0xe50; 0xed0; 0xf20; 0x1040; 0x1090;
    0x17e0; 0x1810; 0x1946; 0x19d0; 0x1a80; 0x1a90; 0x1b50; 0x1bb0;
    0x1c40; 0x1c50; 0xa620; 0xa8d0; 0xa900; 0xa9d0; 0xa9f0; 0xaa50;
    0xabf0; 0xff10; 0x104a0; 0x10d30; 0x11066; 0x110f0; 0x11136; 0x111d0;
    0x112f0; 0x11450; 0x114d0; 0x11650; 0x116c0; 0x11730; 0x118e0;
    0x11950; 0x11c50; 0x11d50; 0x11da0; 0x16a60; 0x16ac0; 0x16b50;
    0x1d7ce; 0x1d7d8; 0x1d7e2; 0x1d7ec; 0x1d7f6; 0x1e140; 0x1e2f0;
    0x1e950; 0x1fbf0 ]%N.

(** [unicodedata.decimal]: the value of a decimal digit, [None] for every
    other code point. *)
Definition decimal_value (c : char) : option Z :=
  match find (fun z => (z <=? c) && (c <? z + 10))%N decimal_zeros with
  | Some z => Some (Z.of_N (c - z))
  | None => None
  end.

Definition is_decimal (c : char) : bool :=
  match decimal_value c with Some _ => true | None => false end.

(** Python compares strings lexicographically by code point. *)
Fixpoint str_compare (a b : str) : comparison :=
  match a, b with
  | [], [] => Eq
  | [], _ :: _ => Lt
  | _ :: _, [] => Gt
  | x :: a', y :: b' =>
      match N.compare x y with
      | Eq => str_compare a' b'
      | c => c
      end
  end.

Definition str_eqb (a b : str) : bool :=
  match str_compare a b with Eq => true | _ => false end.

Definition str_ltb (a b : str) : bool :=
  match str_compare a b with Lt => true | _ => false end.

(** [s.lstrip()], [s.rstrip()] and [s.strip()]. *)
Fixpoint lstrip (s : str) : str :=
  match s with
  | [] => []
  | c :: r => if is_space c then lstrip r else s
  end.

Definition rstrip (s : str) : str := rev (lstrip (rev s)).

Definition strip (s : str) : str := rstrip (lstrip s).

(** [s.split()]: the maximal runs of non-whitespace, in order.  [cur] is the
    token being read, reversed. *)
Fixpoint split_from (cur : str) (s : str) : list str :=
  match s with
  | [] => match cur with [] => [] | _ => [rev cur] end
  | c :: r =>
      if is_space c
      then match cur with
           | [] => split_from [] r
           | _ => rev cur :: split_from [] r
           end
      else split_from (c :: cur) r
  end.

Definition split (s : str) : list str := split_from [] s.

(** [sep.join(parts)]. *)
Fixpoint join (sep : str) (parts : list str) : str :=
  match parts with
  | [] => []
  | [p] => p
  | p :: rest => p ++ sep ++ join sep rest
  end.

(** [words[:-1]] and [words[-1]]. *)
Definition but_last (words : list str) : list str := removelast words.
Definition last_word (words : list str) : str := last words [].

(** [str(n)] for a Python [int]. *)
Fixpoint uint_chars (u : Decimal.uint) : str :=
  match u with
  | Decimal.Nil => []
  | Decimal.D0 u => 48%N :: uint_chars u
  | Decimal.D1 u => 49%N :: uint_chars u
  | Decimal.D2 u => 50%N :: uint_chars u
  | Decimal.D3 u => 51%N :: uint_chars u
  | Decimal.D4 u => 52%N :: uint_chars u
  | Decimal.D5 u => 53%N :: uint_chars u
  | Decimal.D6 u => 54%N :: uint_chars u
  | Decimal.D7 u => 55%N :: uint_chars u
  | Decimal.D8 u => 56%N :: uint_chars u
  | Decimal.D9 u => 57%N :: uint_chars u
  end.

Definition str_of_int (z : Z) : str :=
  match z with
  | Z0 => [48%N]
  | Zpos p => uint_chars (Pos.to_uint p)
  | Zneg p => 45%N :: uint_chars (Pos.to_uint p)
  end.

(** [html.escape(s)] with its default [quote=True]. *)
Definition escape_char (c : char) : str :=
  if (c =? 38)%N then lit "&amp;"
  else if (c =? 60)%N then lit "&lt;"
  else if (c =? 62)%N then lit "&gt;"
  else if (c =? 34)%N then lit "&quot;"
  else if (c =? 39)%N then lit "&#x27;"
  else [c].

Definition html_escape (s : str) : str := flat_map escape_char s.

(* ================================================================== *)
(** * Constants of the module *)
(* ================================================================== *)

Definition URGENT : str := Eval vm_compute in lit "דחוף".
Definition TODAY : str := Eval vm_compute in lit "היום".
Definition TOMORROW : str := Eval vm_compute in lit "מחר".
Definition GENERAL : str := Eval vm_compute in lit "כללי".

Definition SECTION_ORDER : list str := [URGENT; TODAY; TOMORROW; GENERAL].

(** [SECTION_PRIORITY = {name: i for i, name in enumerate(SECTION_ORDER)}],
    kept as the association list the comprehension builds. *)
Fixpoint enumerate_from {A} (start : Z) (l : list A) : list (Z * A) :=
  match l with
  | [] => []
  | x :: r => (start, x) :: enumerate_from (start + 1) r
  end.

Definition SECTION_PRIORITY : list (str * Z) :=
  List.map (fun p => (snd p, fst p)) (enumerate_from 0 SECTION_ORDER).

(** [d.get(k, default)] and [k in d] on such a dictionary. *)
Fixpoint dict_get {V} (d : list (str * V)) (k : str) (default : V) : V :=
  match d with
  | [] => default
  | (k', v) :: r => if str_eqb k k' then v else dict_get r k default
  end.

Definition dict_mem {V} (d : list (str * V)) (k : str) : bool :=
  existsb (fun p => str_eqb k (fst p)) d.

(* ================================================================== *)
(** * Parsing *)
(* ================================================================== *)

(** [re.sub(r"\s+", " ", s)]: every maximal run of whitespace becomes one
    space.  [in_run] tells that the previous code point was whitespace. *)
Fixpoint sub_spaces (in_run : bool) (s : str) : str :=
  match s with
  | [] => []
  | c :: r =>
      if is_space c
      then if in_run then sub_spaces true r else SPACE :: sub_spaces true r
      else c :: sub_spaces false r
  end.

Definition normalize_text (s : str) : str := sub_spaces false (strip s).

Definition parse_section_from_text (raw : str) : str * str :=
  let text := strip raw in
  match text with
  | [] => (GENERAL, [])
  | _ =>
      let words := split text in
      let last := strip (last_word words) in
      if dict_mem SECTION_PRIORITY last
      then
        let section := last in
        let task_text := strip (join [SPACE] (but_last words)) in
        match task_text with
        | [] => (section, [])
        | _ => (section, task_text)
        end
      else (GENERAL, text)
  end.

Definition LIST_COMMANDS : list str :=
  Eval vm_compute in
    [lit "רשימה"; lit "הצג רשימה"; lit "תראה רשימה";
     lit "תציג רשימה"].

Definition is_list_command (text : str) : bool :=
  existsb (str_eqb text) LIST_COMMANDS.

(** The two alternatives of the first group of the pattern of
    [parse_done_command], in the order the pattern tries them. *)
Definition DONE_VERBS : list str :=
  Eval vm_compute in [lit "סיים"; lit "סיימתי"].

(** [s.startswith(p)], returning the rest of [s]. *)
Fixpoint strip_prefix (p s : str) : option str :=
  match p, s with
  | [], _ => Some s
  | _ :: _, [] => None
  | x :: p', y :: s' => if (x =? y)%N then strip_prefix p' s' else None
  end.

(** The greedy run [\s*] or [\d*]: the longest prefix in the class and the
    rest. *)
Fixpoint span (cls : char -> bool) (s : str) : str * str :=
  match s with
  | [] => ([], [])
  | c :: r =>
      if cls c then let (a, b) := span cls r in (c :: a, b) else ([], s)
  end.

(** What follows the verb: [\s+(\d+)\s*$].  The classes [\s] and [\d] are
    disjoint and [\s*$] needs the rest to be whitespace only, so the greedy
    runs are the only way to match.  Returns group 2. *)
Definition match_done_tail (s : str) : option str :=
  let (ws, s1) := span is_space s in
  match ws with
  | [] => None
  | _ =>
      let (ds, s2) := span is_decimal s1 in
      match ds with
      | [] => None
      | _ =>
          let (_, s3) := span is_space s2 in
          match s3 with
          | [] => Some ds
          | _ => None
          end
      end
  end.

(** [re.match] on the whole pattern: the alternatives of group 1 are tried
    in order, the next one when the rest of the pattern fails. *)
Fixpoint match_done (verbs : list str) (text : str) : option str :=
  match verbs with
  | [] => None
  | v :: vs =>
      match strip_prefix v text with
      | Some rest =>
          match match_done_tail rest with
          | Some g => Some g
          | None => match_done vs text
          end
      | None => match_done vs text
      end
  end.

(** [int(s)] on a string of decimal digits. *)
Definition int_of_digits (ds : str) : Z :=
  fold_left
    (fun acc c => acc * 10 + match decimal_value c with Some d => d | None => 0 end)
    ds 0.

Definition parse_done_command (text : str) : option Z :=
  match match_done DONE_VERBS text with
  | None => None
  | Some g2 => Some (int_of_digits g2)
  end.

(* ================================================================== *)
(** * Dates and times *)
(* ================================================================== *)

(** A [datetime] in the zone [TZ], which every datetime of the module
    carries: the proleptic Gregorian ordinal of its date
    ([date.toordinal()]) and its wall-clock fields.  A [timedelta] is its
    length in microseconds. *)
Record datetime := mk_datetime {
  ordinal : Z;
  hour : Z;
  minute : Z;
  second : Z;
  microsecond : Z;
  fold : bool
}.

Definition timedelta := Z.

Definition US_PER_SECOND : Z := 1000000.
Definition US_PER_DAY : Z := 86400 * US_PER_SECOND.
Definition MAXORDINAL : Z := 3652059.

Definition timedelta_of (days seconds : Z) : timedelta :=
  days * US_PER_DAY + seconds * US_PER_SECOND.

Definition valid_datetime (d : datetime) : Prop :=
  1 <= ordinal d <= MAXORDINAL /\ 0 <= hour d < 24 /\ 0 <= minute d < 60
  /\ 0 <= second d < 60 /\ 0 <= microsecond d < US_PER_SECOND.

(** The wall-clock time elapsed since the start of ordinal 0. *)
Definition wall_us (d : datetime) : Z :=
  ordinal d * US_PER_DAY
  + (hour d * 3600 + minute d * 60 + second d) * US_PER_SECOND
  + microsecond d.

Inductive exn := ValueError | OverflowError.

Inductive result (A : Type) :=
| Ok (a : A)
| Raise (e : exn).
Arguments Ok {A} a.
Arguments Raise {A} e.

(** [d + delta]: arithmetic on the wall clock, [OverflowError] outside the
    supported dates.  The result has [fold = 0]. *)
Definition datetime_add (d : datetime) (delta : timedelta) : result datetime :=
  let total := wall_us d + delta in
  let days := total / US_PER_DAY in
  let us := total mod US_PER_DAY in
  let secs := us / US_PER_SECOND in
  if (0 <? days) && (days <=? MAXORDINAL)
  then Ok (mk_datetime days (secs / 3600) (secs mod 3600 / 60) (secs mod 60)
             (us mod US_PER_SECOND) false)
  else Raise OverflowError.

(** [a - b] for two datetimes with the same [tzinfo]: the difference of the
    wall clocks. *)
Definition datetime_diff (a b : datetime) : timedelta := wall_us a - wall_us b.

(** [d.replace(hour=0, minute=0, second=0, microsecond=0)]. *)
Definition replace_midnight (d : datetime) : datetime :=
  mk_datetime (ordinal d) 0 0 0 0 (fold d).

(** [date.fromordinal(n)] as (year, month, day), after CPython's
    [_ord2ymd]. *)
Definition DAYS_IN_MONTH : list Z := [-1; 31; 28; 31; 30; 31; 30; 31; 31; 30; 31; 30; 31].
Definition DAYS_BEFORE_MONTH : list Z :=
  [-1; 0; 31; 59; 90; 120; 151; 181; 212; 243; 273; 304; 334].

Definition ord2ymd (n0 : Z) : Z * Z * Z :=
  let n := n0 - 1 in
  let n400 := n / 146097 in
  let n := n mod 146097 in
  let year := n400 * 400 + 1 in
  let n100 := n / 36524 in
  let n := n mod 36524 in
  let n4 := n / 1461 in
  let n := n mod 1461 in
  let n1 := n / 365 in
  let n := n mod 365 in
  let year := year + n100 * 100 + n4 * 4 + n1 in
  if (n1 =? 4) || (n100 =? 4) then (year - 1, 12, 31)
  else
    let leapyear := (n1 =? 3) && (negb (n4 =? 24) || (n100 =? 3)) in
    let month := Z.shiftr (n + 50) 5 in
    let preceding :=
      nth (Z.to_nat month) DAYS_BEFORE_MONTH 0
      + (if (2 <? month) && leapyear then 1 else 0) in
    if n <? preceding
    then
      let month := month - 1 in
      let preceding :=
        preceding - (nth (Z.to_nat month) DAYS_IN_MONTH 0
                     + (if (month =? 2) && leapyear then 1 else 0)) in
      (year, month, n - preceding + 1)
    else (year, month, n - preceding + 1).

(** [rjust] with zeros, as the [%d], [%m] and [%Y] directives pad. *)
Definition zero_pad (width : nat) (s : str) : str :=
  repeat 48%N (width - length s) ++ s.

(** [d.strftime("%d/%m/%Y")], the year on four digits at least. *)
Definition strftime_dmy (d : datetime) : str :=
  let '(y, m, dd) := ord2ymd (ordinal d) in
  zero_pad 2 (str_of_int dd) ++ lit "/" ++ zero_pad 2 (str_of_int m)
  ++ lit "/" ++ zero_pad 4 (str_of_int y).

(* ================================================================== *)
(** * The runtime the module calls into *)
(* ================================================================== *)

(** Library functions whose result depends on the time-zone database or on
    SQLite's date parser. *)
Class Runtime := {
  (** [d.isoformat()] for a datetime in [TZ] *)
  isoformat : datetime -> str;
  (** [datetime.fromisoformat(s).astimezone(TZ)], [None] when
      [fromisoformat] raises [ValueError] *)
  fromisoformat_tz : str -> option datetime;
  (** the SQL function [datetime(s)], [None] for SQL [NULL] *)
  sqlite_datetime : str -> option str
}.

(* ================================================================== *)
(** * The task table and the world *)
(* ================================================================== *)

(** A row of [tasks].  [done] is the INTEGER column that holds 0 or 1. *)
Record Task := mk_task {
  task_id : Z;
  chat_id : Z;
  section : str;
  text : str;
  created_at : str;
  done : bool;
  done_at : option str
}.

(** What the functions of the module read and write: the rows of [tasks] in
    rowid order, the AUTOINCREMENT counter of the table, and the clock, given
    by its successive readings. *)
Record World := mk_world {
  tasks : list Task;
  sqlite_seq : Z;
  clock : nat -> datetime;
  ticks : nat
}.

(** Computations that read and write the world and may raise. *)
Definition M (A : Type) : Type := World -> result A * World.

Definition ret {A} (a : A) : M A := fun w => (Ok a, w).

Definition raise {A} (e : exn) : M A := fun w => (Raise e, w).

Definition bind {A B} (c : M A) (k : A -> M B) : M B :=
  fun w =>
    match c w with
    | (Ok a, w') => k a w'
    | (Raise e, w') => (Raise e, w')
    end.

Notation "x <- c ;; k" := (bind c (fun x => k))
  (at level 61, c at next level, right associativity).

Definition lift_result {A} (r : result A) : M A :=
  match r with Ok a => ret a | Raise e => raise e end.

(** [datetime.now(TZ)]: the next reading of the clock. *)
Definition now : M datetime :=
  fun w => (Ok (clock w (ticks w)),
            mk_world (tasks w) (sqlite_seq w) (clock w) (S (ticks w))).

(** [sorted(l, key=key)]: a stable sort that compares keys with [<]. *)
Fixpoint insert_sorted {A K} (ltb : K -> K -> bool) (key : A -> K)
    (x : A) (l : list A) : list A :=
  match l with
  | [] => [x]
  | y :: r =>
      if ltb (key y) (key x) then y :: insert_sorted ltb key x r
      else x :: l
  end.

Definition sorted {A K} (ltb : K -> K -> bool) (key : A -> K) (l : list A)
  : list A :=
  fold_right (insert_sorted ltb key) [] l.

(** ** SQL statements *)

(** [INSERT INTO tasks(chat_id, section, text, created_at, done)
    VALUES(?, ?, ?, ?, 0)]; returns [cur.lastrowid]. *)
Definition sql_insert (chat : Z) (sec body created : str) : M Z :=
  fun w =>
    let top := fold_right Z.max (sqlite_seq w) (List.map task_id (tasks w)) in
    let new_id := top + 1 in
    (Ok new_id,
     mk_world (tasks w ++ [mk_task new_id chat sec body created false None])
       new_id (clock w) (ticks w)).

(** [SELECT id, section, text, created_at FROM tasks
    WHERE chat_id=? AND done=0]. *)
Definition open_row := (Z * str * str * str)%type.

Definition sql_select_open (chat : Z) : M (list open_row) :=
  fun w =>
    (Ok (List.map (fun t => (task_id t, section t, text t, created_at t))
           (filter (fun t => (chat_id t =? chat) && negb (done t)) (tasks w))),
     w).

(** [UPDATE tasks SET done=1, done_at=? WHERE chat_id=? AND id=? AND done=0];
    returns [cur.rowcount]. *)
Definition update_matches (chat tid : Z) (t : Task) : bool :=
  (chat_id t =? chat) && (task_id t =? tid) && negb (done t).

Definition sql_update_done (stamp : str) (chat tid : Z) : M Z :=
  fun w =>
    (Ok (Z.of_nat (length (filter (update_matches chat tid) (tasks w)))),
     mk_world
       (List.map (fun t =>
          if update_matches chat tid t
          then mk_task (task_id t) (chat_id t) (section t) (text t)
                 (created_at t) true (Some stamp)
          else t) (tasks w))
       (sqlite_seq w) (clock w) (ticks w)).

(** SQL comparisons: a [NULL] operand makes the condition fail. *)
Definition sql_ge (a b : option str) : bool :=
  match a, b with
  | Some x, Some y => negb (str_ltb x y)
  | _, _ => false
  end.

Definition sql_lt (a b : option str) : bool :=
  match a, b with
  | Some x, Some y => str_ltb x y
  | _, _ => false
  end.

(** The order of [ORDER BY ... ASC]: [NULL] first, then text order. *)
Definition sql_order_ltb (a b : option str) : bool :=
  match a, b with
  | None, Some _ => true
  | Some x, Some y => str_ltb x y
  | _, None => false
  end.

Definition done_row := (Z * str * str * option str)%type.

Section WithRuntime.
Context `{RT : Runtime}.

Definition sql_datetime (s : option str) : option str :=
  match s with Some x => sqlite_datetime x | None => None end.

(** [SELECT id, section, text, done_at FROM tasks
    WHERE chat_id=? AND done=1 AND done_at IS NOT NULL
      AND datetime(done_at) >= datetime(?) AND datetime(done_at) < datetime(?)
    ORDER BY datetime(done_at) ASC]. *)
Definition in_range (chat : Z) (start_iso end_iso : str) (t : Task) : bool :=
  (chat_id t =? chat) && done t
  && (match done_at t with Some _ => true | None => false end)
  && sql_ge (sql_datetime (done_at t)) (sqlite_datetime start_iso)
  && sql_lt (sql_datetime (done_at t)) (sqlite_datetime end_iso).

Definition sql_select_done_in_range (chat : Z) (start_iso end_iso : str)
  : M (list done_row) :=
  fun w =>
    (Ok (List.map (fun t => (task_id t, section t, text t, done_at t))
           (sorted sql_order_ltb (fun t => sql_datetime (done_at t))
              (filter (in_range chat start_iso end_iso) (tasks w)))),
     w).

(* ================================================================== *)
(** * Task operations *)
(* ================================================================== *)

Definition add_task (chat : Z) (sec body : str) : M Z :=
  t <- now ;;
  sql_insert chat sec (strip body) (isoformat t).

Definition get_open_tasks (chat : Z) : M (list open_row) :=
  sql_select_open chat.

(** The sort key of [ordered_open_tasks_with_numbers] and the order of
    Python tuples on it. *)
Definition sort_key := (Z * str * Z)%type.

Definition key (r : open_row) : sort_key :=
  let '(_id, sec, _text, created) := r in
  let pr := dict_get SECTION_PRIORITY sec 999 in
  (pr, created, _id).

Definition key_compare (a b : sort_key) : comparison :=
  let '(pa, ca, ia) := a in
  let '(pb, cb, ib) := b in
  match Z.compare pa pb with
  | Eq => match str_compare ca cb with
          | Eq => Z.compare ia ib
          | c => c
          end
  | c => c
  end.

Definition key_ltb (a b : sort_key) : bool :=
  match key_compare a b with Lt => true | _ => false end.

(** (display_no, id, section, text, created_at) *)
Definition numbered_row := (Z * Z * str * str * str)%type.

Definition number_row (p : Z * open_row) : numbered_row :=
  let '(idx, (_id, sec, body, created)) := p in (idx, _id, sec, body, created).

Definition display_no_of (x : numbered_row) : Z :=
  let '(n, _, _, _, _) := x in n.

Definition ordered_open_tasks_with_numbers (chat : Z) : M (list numbered_row) :=
  rows <- get_open_tasks chat ;;
  let rows_sorted := sorted key_ltb key rows in
  ret (List.map number_row (enumerate_from 1 rows_sorted)).

(** The second half of [mark_done_by_display_number]: the conditional
    update of the resolved task, which the specification calls [mark_done]. *)
Definition mark_done (chat tid : Z) : M bool :=
  t <- now ;;
  rowcount <- sql_update_done (isoformat t) chat tid ;;
  ret (0 <? rowcount).

Definition mark_done_by_display_number (chat display_no : Z) : M bool :=
  numbered <- ordered_open_tasks_with_numbers chat ;;
  match find (fun x => display_no_of x =? display_no) numbered with
  | None => ret false
  | Some (_, tid, _, _, _) => mark_done chat tid
  end.

Definition is_older_than_week (created_at_iso : str) : M bool :=
  match fromisoformat_tz created_at_iso with
  | None => raise ValueError
  | Some dt =>
      t <- now ;;
      ret (timedelta_of 7 0 <=? datetime_diff t dt)
  end.

Definition get_tasks_done_in_range (chat : Z) (start_ end_ : datetime)
  : M (list done_row) :=
  sql_select_done_in_range chat (isoformat start_) (isoformat end_).

(* ================================================================== *)
(** * Formatting *)
(* ================================================================== *)

Definition RULE : str := lit "━━━━━━━━━━━━━━━━━━━━".

Definition header (title : str) : str :=
  let safe := html_escape title in
  RULE ++ [NEWLINE] ++ lit "<b>" ++ safe ++ lit "</b>" ++ [NEWLINE] ++ RULE.

Definition SECTION_LINES : list (str * str) :=
  [ (URGENT, lit "━━━━━━━━━ דחוף ━━━━━━━━━");
    (TODAY, lit "━━━━━━━━━ היום ━━━━━━━━━");
    (TOMORROW, lit "━━━━━━━━━ מחר ━━━━━━━━━");
    (GENERAL, lit "━━━━━━━━━ כללי ━━━━━━━━━") ].

Definition section_title (name : str) : str :=
  [NEWLINE] ++ lit "<b>" ++ dict_get SECTION_LINES name name ++ lit "</b>".

Definition NOTHING_OPEN : str := lit "✅ <b>אין משימות פתוחות כרגע.</b>".
Definition OPEN_TITLE : str := lit "🧾 רשימת משימות פתוחות".
Definition RED : str := lit "🔴 ".
Definition BULLET : str := lit "• ".
Definition EMPTY_SECTION : str := lit "• (אין)".

(** [groups.setdefault(k, []).append(item)] on a dictionary of lists, which
    keeps its keys in insertion order. *)
Fixpoint dict_append (d : list (str * list str)) (k : str) (item : str)
  : list (str * list str) :=
  match d with
  | [] => [(k, [item])]
  | (k', items) :: r =>
      if str_eqb k k' then (k', items ++ [item]) :: r
      else (k', items) :: dict_append r k item
  end.

Definition item_text (red : str) (display_no : Z) (body : str) : str :=
  red ++ lit "<b>" ++ str_of_int display_no ++ lit "</b> — " ++ html_escape body.

(** The first loop of [format_open_tasks_message]. *)
Fixpoint group_items (numbered : list numbered_row)
    (groups : list (str * list str)) : M (list (str * list str)) :=
  match numbered with
  | [] => ret groups
  | (display_no, _, sec, body, created) :: rest =>
      old <- is_older_than_week created ;;
      let red := if old then RED else [] in
      group_items rest (dict_append groups sec (item_text red display_no body))
  end.

(** The body of its second loop. *)
Definition section_lines (groups : list (str * list str)) (lines : list str)
    (sec : str) : list str :=
  let lines := lines ++ [section_title sec] in
  match dict_get groups sec [] with
  | [] => lines ++ [EMPTY_SECTION]
  | items => lines ++ List.map (fun it => BULLET ++ it) items
  end.

Definition format_open_tasks_message (chat : Z) : M str :=
  numbered <- ordered_open_tasks_with_numbers chat ;;
  match numbered with
  | [] => ret NOTHING_OPEN
  | _ =>
      groups <- group_items numbered (List.map (fun s => (s, [])) SECTION_ORDER) ;;
      let lines := [header OPEN_TITLE] in
      let lines := fold_left (section_lines groups) SECTION_ORDER lines in
      ret (join [NEWLINE] lines)
  end.

Definition SUMMARY_TITLE : str := lit "📅 סיכום משימות — ".

Definition count_line (count : Z) : str :=
  if 0 <? count
  then [NEWLINE] ++ lit "🔥 <b>סיימת היום " ++ str_of_int count
       ++ lit " משימות</b>" ++ [NEWLINE]
  else [NEWLINE] ++ lit "😅 <b>סיימת היום 0 משימות יא אפס</b>" ++ [NEWLINE].

Definition done_line (r : done_row) : str :=
  let '(_, _, body, _) := r in BULLET ++ html_escape body.

Definition format_done_summary_for_range (chat : Z) (start_ end_ : datetime)
  : M str :=
  rows <- get_tasks_done_in_range chat start_ end_ ;;
  let day_label := strftime_dmy start_ in
  let count := Z.of_nat (List.length rows) in
  let lines := [header (SUMMARY_TITLE ++ day_label)] in
  let lines := lines ++ [count_line count] in
  if count =? 0 then ret (join [NEWLINE] lines)
  else
    let lines := fold_left (fun ls r => ls ++ [done_line r]) rows lines in
    ret (join [NEWLINE] lines).

(* ================================================================== *)
(** * Scheduled jobs and handlers *)
(* ================================================================== *)

(** Each job and handler returns the text it sends to the chat. *)
Definition send_open_tasks (chat : Z) : M str :=
  format_open_tasks_message chat.

Definition send_midnight_done_summary (chat : Z) : M str :=
  t <- now ;;
  ref <- lift_result (datetime_add t (- timedelta_of 0 1)) ;;
  let day_start := replace_midnight ref in
  day_end <- lift_result (datetime_add day_start (timedelta_of 1 0)) ;;
  format_done_summary_for_range chat day_start day_end.

Definition MARKED_DONE : str := lit "סומן כבוצע ✅".
Definition NOT_FOUND : str := lit "לא מצאתי מספר כזה ברשימה.".
Definition USAGE : str :=
  lit "רשום משימה, לדוגמה:" ++ [NEWLINE]
  ++ lit "• <b>להאכיל את ליצי דחוף</b>" ++ [NEWLINE]
  ++ lit "• <b>לשתות מים מחר</b>" ++ [NEWLINE]
  ++ lit "• <b>ללכת לים</b>".

Definition on_text (chat : Z) (message_text : str) : M str :=
  let text := normalize_text message_text in
  if is_list_command text then format_open_tasks_message chat
  else
    match parse_done_command text with
    | Some done_no =>
        ok <- mark_done_by_display_number chat done_no ;;
        ret (if ok : bool then MARKED_DONE else NOT_FOUND)
    | None =>
        let (sec, task_text) := parse_section_from_text text in
        match task_text with
        | [] => ret USAGE
        | _ =>
            _ <- add_task chat sec task_text ;;
            ret (lit "נוסף ✅ <b>" ++ html_escape sec ++ lit "</b>")
        end
    end.

End WithRuntime.

(* ================================================================== *)
(** * A runtime with a constant offset *)
(* ================================================================== *)

(** The runtime of a zone that is at +02:00 throughout, on which the
    functions of the module can be run. *)
Module FixedOffset.

Definition is_leap (y : Z) : bool :=
  (y mod 4 =? 0) && (negb (y mod 100 =? 0) || (y mod 400 =? 0)).

(** [date(y, m, d).toordinal()], after CPython's [_ymd2ord]. *)
Definition ymd2ord (y m d : Z) : Z :=
  let y1 := y - 1 in
  y1 * 365 + y1 / 4 - y1 / 100 + y1 / 400
  + nth (Z.to_nat m) DAYS_BEFORE_MONTH 0
  + (if (2 <? m) && is_leap y then 1 else 0) + d.

Definition two (z : Z) : str := zero_pad 2 (str_of_int z).

Definition date_time_text (sep : str) (d : datetime) : str :=
  let '(y, m, dd) := ord2ymd (ordinal d) in
  zero_pad 4 (str_of_int y) ++ lit "-" ++ two m ++ lit "-" ++ two dd ++ sep
  ++ two (hour d) ++ lit ":" ++ two (minute d) ++ lit ":" ++ two (second d).

Definition iso (d : datetime) : str :=
  date_time_text (lit "T") d
  ++ (if microsecond d =? 0 then []
      else lit "." ++ zero_pad 6 (str_of_int (microsecond d)))
  ++ lit "+02:00".

(** The number written in ASCII digits at [pos], [len] digits long. *)
Definition field (s : str) (pos len : nat) : option Z :=
  let ds := firstn len (skipn pos s) in
  if (length ds =? len)%nat && forallb (fun c => (48 <=? c) && (c <=? 57))%N ds
  then Some (int_of_digits ds) else None.

(** Reads back what [iso] writes. *)
Definition parse (s : str) : option datetime :=
  match field s 0 4, field s 5 2, field s 8 2,
        field s 11 2, field s 14 2, field s 17 2 with
  | Some y, Some m, Some dd, Some hh, Some mm, Some ss =>
      let us :=
        match skipn 19 s with
        | 46%N :: _ => match field s 20 6 with Some u => u | None => 0 end
        | _ => 0
        end in
      let d := mk_datetime (ymd2ord y m dd) hh mm ss us false in
      if str_eqb (iso d) s then Some d else None
  | _, _, _, _, _, _ => None
  end.

(** SQLite's [datetime()]: the UTC time, to the second. *)
Definition utc_text (s : str) : option str :=
  match parse s with
  | Some d =>
      match datetime_add d (- timedelta_of 0 7200) with
      | Ok u => Some (date_time_text (lit " ") u)
      | Raise _ => None
      end
  | None => None
  end.

Definition runtime : Runtime := Build_Runtime iso parse utc_text.

(** A clock that starts on 2024-01-01 at 09:00:00 and advances by one hour
    at every reading. *)
Definition hourly (n : nat) : datetime :=
  let h := Z.of_nat n + 9 in
  mk_datetime (738886 + h / 24) (h mod 24) 0 0 0 false.

(** A table with three open tasks, one of them in a section that is none of
    the four, and one completed task. *)
Definition stamp (n : nat) : str := iso (hourly n).

Definition demo_misc : Task :=
  mk_task 3 7 (lit "misc") (lit "sort mail") (stamp 2) false None.

Definition demo_tasks : list Task :=
  [ mk_task 1 7 GENERAL (lit "buy milk") (stamp 0) false None;
    mk_task 2 7 URGENT (lit "call <bank>") (stamp 1) false None;
    demo_misc;
    mk_task 4 7 TODAY (lit "pay rent") (stamp 3) true (Some (stamp 4)) ].

Definition demo_world : World := mk_world demo_tasks 4 hourly 5.

(** The same table after one more urgent task. *)
Definition demo_body : str := lit "feed <the> cat".

Definition demo_world_added : World :=
  snd (@add_task runtime 7 URGENT demo_body demo_world).

End FixedOffset.

(* ================================================================== *)
(** * The vocabulary of the specification *)
(* ================================================================== *)

(** The open-task set of a conversation, as [get_open_tasks] reads it. *)
Definition open_tasks (chat : Z) (w : World) : list Task :=
  filter (fun t => (chat_id t =? chat) && negb (done t)) (tasks w).

Definition open_row_of (t : Task) : open_row :=
  (task_id t, section t, text t, created_at t).

Definition open_rows (chat : Z) (w : World) : list open_row :=
  List.map open_row_of (open_tasks chat w).

Definition row_id (r : open_row) : Z := let '(i, _, _, _) := r in i.
Definition row_section (r : open_row) : str := let '(_, s, _, _) := r in s.
Definition row_text (r : open_row) : str := let '(_, _, b, _) := r in b.
Definition row_created (r : open_row) : str := let '(_, _, _, c) := r in c.

Definition row_of_numbered (x : numbered_row) : open_row :=
  let '(_, i, s, b, c) := x in (i, s, b, c).

(** The fixed rank of a section: Urgent 0, Today 1, Tomorrow 2, General 3,
    every other section after them. *)
Definition section_rank (s : str) : Z :=
  if str_eqb s URGENT then 0
  else if str_eqb s TODAY then 1
  else if str_eqb s TOMORROW then 2
  else if str_eqb s GENERAL then 3
  else 999.

(** [a] is not after [b] in the order (section priority, created_at
    ascending, id ascending). *)
Definition precedes (a b : open_row) : Prop :=
  section_rank (row_section a) < section_rank (row_section b)
  \/ (section_rank (row_section a) = section_rank (row_section b)
      /\ (str_compare (row_created a) (row_created b) = Lt
          \/ (row_created a = row_created b /\ row_id a <= row_id b))).

(** [a] may stand before [b] in the output of [sorted]: [b < a] does not
    hold. *)
Definition may_precede {K} (ltb : K -> K -> bool) (a b : K) : Prop :=
  ltb b a = false.

(** The world after one reading of the clock. *)
Definition tick (w : World) : World :=
  mk_world (tasks w) (sqlite_seq w) (clock w) (S (ticks w)).

(** The start of a day, and a firing time within the first second of a
    day. *)
Definition midnight_of (ord : Z) : datetime := mk_datetime ord 0 0 0 0 false.

Definition fires_at_midnight (t : datetime) : Prop :=
  2 <= ordinal t <= MAXORDINAL /\ hour t = 0 /\ minute t = 0 /\ second t = 0
  /\ 0 <= microsecond t < US_PER_SECOND.

(** The texts the pattern of [parse_done_command] matches: a verb, at least
    one whitespace, at least one decimal digit, and whitespace up to the
    end. *)
Definition done_pattern (text digits : str) : Prop :=
  exists verb ws trail,
    In verb DONE_VERBS
    /\ text = verb ++ ws ++ digits ++ trail
    /\ ws <> [] /\ forallb is_space ws = true
    /\ digits <> [] /\ forallb is_decimal digits = true
    /\ forallb is_space trail = true.

(** A token of [str.split]: not empty, without whitespace. *)
Definition is_token (t : str) : Prop :=
  t <> [] /\ forallb (fun c => negb (is_space c)) t = true.

(** A token matches a section keyword without regard to case, for a case
    folding [casefold]. *)
Definition matches_keyword (casefold : str -> str) (token : str) : Prop :=
  exists k, In k SECTION_ORDER /\ casefold token = casefold k.

(** Case folding of the ASCII letters only. *)
Definition ascii_lower (s : str) : str :=
  List.map (fun c => if (65 <=? c) && (c <=? 90) then c + 32 else c)%N s.

(** The world after [n] readings of the clock. *)
Definition advance (w : World) (n : nat) : World :=
  mk_world (tasks w) (sqlite_seq w) (clock w) (ticks w + n).

Definition numbered_section (x : numbered_row) : str :=
  let '(_, _, s, _, _) := x in s.
Definition numbered_text (x : numbered_row) : str :=
  let '(_, _, _, b, _) := x in b.
Definition numbered_created (x : numbered_row) : str :=
  let '(_, _, _, _, c) := x in c.

Definition known_section (s : str) : bool := existsb (str_eqb s) SECTION_ORDER.

Section Digests.
Context `{RT : Runtime}.

(** A task is aging at the reading [now_] of the clock when
    [now_ - created_at >= 7 days]. *)
Definition aging (now_ : datetime) (created : str) : bool :=
  match fromisoformat_tz created with
  | Some dt => timedelta_of 7 0 <=? datetime_diff now_ dt
  | None => false
  end.

(** The rows of a listing with the position of the clock at which each is
    rendered. *)
Definition indexed_rows (k0 : nat) (numbered : list numbered_row)
  : list (nat * numbered_row) :=
  combine (List.seq k0 (length numbered)) numbered.

(** The item of a row: the aging marker, the display number, the escaped
    body. *)
Definition row_item (clk : nat -> datetime) (p : nat * numbered_row) : str :=
  item_text (if aging (clk (fst p)) (numbered_created (snd p)) then RED else [])
    (display_no_of (snd p)) (numbered_text (snd p)).

(** The items of a section: those of its member rows, in the order of the
    listing. *)
Definition section_items (clk : nat -> datetime) (sec : str)
    (rows : list (nat * numbered_row)) : list str :=
  List.map (row_item clk)
    (filter (fun p => str_eqb (numbered_section (snd p)) sec) rows).

(** The block of a section: its header, then its items or the placeholder. *)
Definition section_block (clk : nat -> datetime)
    (rows : list (nat * numbered_row)) (sec : str) : list str :=
  section_title sec
  :: match section_items clk sec rows with
     | [] => [EMPTY_SECTION]
     | items => List.map (fun it => BULLET ++ it) items
     end.

Definition open_digest (clk : nat -> datetime)
    (rows : list (nat * numbered_row)) : str :=
  join [NEWLINE]
    (header OPEN_TITLE :: flat_map (section_block clk rows) SECTION_ORDER).

(** Every open task of the conversation has a creation time that
    [fromisoformat] reads. *)
Definition created_readable (chat : Z) (w : World) : Prop :=
  forall t, In t (open_tasks chat w) -> fromisoformat_tz (created_at t) <> None.

End Digests.


Section Summaries.
Context `{RT : Runtime}.



End Summaries.

(** The invariant of a task record: [done_at] is set exactly when [done]
    is. *)
Definition done_at_iff_done (t : Task) : Prop :=
  done_at t <> None <-> done t = true.

Definition store_invariant (w : World) : Prop :=
  Forall done_at_iff_done (tasks w).

(** [c] keeps a property of the task table. *)
Definition preserves {A} (P : list Task -> Prop) (c : M A) : Prop :=
  forall w, P (tasks w) -> P (tasks (snd (c w))).

Section Operations.
Context `{RT : Runtime}.

(** The entry points of the module that touch the task table. *)
Inductive operation :=
| AddTask (chat : Z) (sec body : str)
| GetOpenTasks (chat : Z)
| OrderedOpenTasks (chat : Z)
| MarkDoneByDisplayNumber (chat display_no : Z)
| GetTasksDoneInRange (chat : Z) (start_ end_ : datetime)
| FormatOpenTasks (chat : Z)
| FormatDoneSummary (chat : Z) (start_ end_ : datetime)
| SendOpenTasks (chat : Z)
| SendMidnightDoneSummary (chat : Z)
| OnText (chat : Z) (message_text : str).

Definition run (o : operation) (w : World) : World :=
  match o with
  | AddTask chat sec body => snd (add_task chat sec body w)
  | GetOpenTasks chat => snd (get_open_tasks chat w)
  | OrderedOpenTasks chat => snd (ordered_open_tasks_with_numbers chat w)
  | MarkDoneByDisplayNumber chat n => snd (mark_done_by_display_number chat n w)
  | GetTasksDoneInRange chat s e => snd (get_tasks_done_in_range chat s e w)
  | FormatOpenTasks chat => snd (format_open_tasks_message chat w)
  | FormatDoneSummary chat s e => snd (format_done_summary_for_range chat s e w)
  | SendOpenTasks chat => snd (send_open_tasks chat w)
  | SendMidnightDoneSummary chat => snd (send_midnight_done_summary chat w)
  | OnText chat message_text => snd (on_text chat message_text w)
  end.

Definition run_all (os : list operation) (w : World) : World :=
  fold_left (fun w o => run o w) os w.

End Operations.

(* ================================================================== *)
(** * The job queue and the first-message handler *)
(* ================================================================== *)

(** The callbacks the module registers, and a job of the queue as the
    module uses it: [run_daily(callback, time=time(h, m, tzinfo=TZ),
    chat_id=..., name=...)]. *)
Inductive callback := SendOpenTasksJob | SendMidnightDoneSummaryJob.

Record Job := mk_job {
  job_callback : callback;
  job_hour : Z;
  job_minute : Z;
  job_chat_id : Z;
  job_name : str
}.

(** The jobs of [context.job_queue], in the order they were added. *)
Definition JobQueue := list Job.

Definition get_jobs_by_name (name : str) (q : JobQueue) : list Job :=
  filter (fun j => str_eqb (job_name j) name) q.

(** [for j in job_queue.get_jobs_by_name(name): j.schedule_removal()]. *)
Definition remove_jobs_by_name (name : str) (q : JobQueue) : JobQueue :=
  filter (fun j => negb (str_eqb (job_name j) name)) q.

Definition run_daily (cb : callback) (h m chat : Z) (name : str)
    (q : JobQueue) : JobQueue :=
  q ++ [mk_job cb h m chat name].

(** The f-strings [f"rem-0900-{chat_id}"], [f"rem-1815-{chat_id}"] and
    [f"sum-0000-{chat_id}"]. *)
Definition REM_0900 : str := lit "rem-0900-".
Definition REM_1815 : str := lit "rem-1815-".
Definition SUM_0000 : str := lit "sum-0000-".

Definition name_for (prefix : str) (chat : Z) : str :=
  prefix ++ str_of_int chat.

Definition start_jobs_for_chat (chat : Z) (q : JobQueue) : JobQueue :=
  let q := remove_jobs_by_name (name_for REM_0900 chat) q in
  let q := remove_jobs_by_name (name_for REM_1815 chat) q in
  let q := remove_jobs_by_name (name_for SUM_0000 chat) q in
  let q := run_daily SendOpenTasksJob 9 0 chat (name_for REM_0900 chat) q in
  let q := run_daily SendOpenTasksJob 18 15 chat (name_for REM_1815 chat) q in
  run_daily SendMidnightDoneSummaryJob 0 0 chat (name_for SUM_0000 chat) q.

Definition READY : str :=
  header (lit "🤖 הבוט מוכן")
  ++ [NEWLINE; NEWLINE] ++ lit "כל הודעה = משימה חדשה." ++ [NEWLINE]
  ++ lit "כדי לשים בסקשן, תוסיף בסוף: <b>דחוף</b> / <b>היום</b> / <b>מחר</b>"
  ++ [NEWLINE; NEWLINE]
  ++ lit "<b>רשימה</b> — מציג משימות פתוחות" ++ [NEWLINE]
  ++ lit "<b>סיים 7</b> — מסיים לפי מספר תצוגה" ++ [NEWLINE].

(** Returns the queue and the reply, if one is sent. *)
Definition on_first_message (chat : Z) (q : JobQueue) : JobQueue * option str :=
  match get_jobs_by_name (name_for REM_0900 chat) q with
  | [] => (start_jobs_for_chat chat q, Some READY)
  | _ => (q, None)
  end.

(** The three daily jobs of a chat, in the order [start_jobs_for_chat] adds
    them, and the jobs the queue holds for a chat. *)
Definition chat_jobs (chat : Z) : list Job :=
  [ mk_job SendOpenTasksJob 9 0 chat (name_for REM_0900 chat);
    mk_job SendOpenTasksJob 18 15 chat (name_for REM_1815 chat);
    mk_job SendMidnightDoneSummaryJob 0 0 chat (name_for SUM_0000 chat) ].

Definition jobs_of_chat (chat : Z) (q : JobQueue) : list Job :=
  filter (fun j => job_chat_id j =? chat) q.

Definition JOB_PREFIXES : list str := [REM_0900; REM_1815; SUM_0000].

(** The queue after [on_first_message] handled one text message from each
    chat of [chats], in this order. *)
Definition first_messages (chats : list Z) (q : JobQueue) : JobQueue :=
  fold_left (fun q chat => fst (on_first_message chat q)) chats q.

(* ================================================================== *)
(** * The schema of the database file *)
(* ================================================================== *)

(** A value of a column, and the table [tasks] of a database file: the
    names of its columns and, for each row, the value of each column. *)
Inductive sql_value := SqlInteger (z : Z) | SqlText (s : str) | SqlNull.

Record Table := mk_table {
  columns : list str;
  records : list (list (str * sql_value))
}.

(** The file holds the table or not yet. *)
Definition Database := option Table.

(** [CREATE_TABLE_SQL] on a file without the table. *)
Definition CREATED_TABLE : Table :=
  mk_table
    [lit "id"; lit "chat_id"; lit "section"; lit "text"; lit "created_at";
     lit "done"; lit "done_at"] [].


(** [ALTER TABLE tasks ADD COLUMN section TEXT NOT NULL DEFAULT ...] with
    the default of General: every row has the default in the new column. *)
Definition add_section_column (t : Table) : Table :=
  mk_table (columns t ++ [lit "section"])
    (List.map (fun r => r ++ [(lit "section", SqlText GENERAL)]) (records t)).

(** SQLite takes two names for the same column when they differ in the case
    of ASCII letters only, and refuses to add a column under a name the
    table has: [sqlite3.OperationalError], duplicate column name. *)
Definition same_column (a b : str) : bool :=
  str_eqb (ascii_lower a) (ascii_lower b).

Inductive migration := Migrated (d : Database) | OperationalError.

(** [cols] holds the names as [PRAGMA table_info] spells them, and
    ["section" not in cols] compares them exactly. *)
Definition ensure_schema_migration (d : Database) : migration :=
  match d with
  | None => Migrated (Some CREATED_TABLE)
  | Some t =>
      let cols := columns t in
      if existsb (str_eqb (lit "section")) cols then Migrated (Some t)
      else if existsb (same_column (lit "section")) cols then OperationalError
      else Migrated (Some (add_section_column t))
  end.

(** The value a row has in a column. *)
Definition column_value (r : list (str * sql_value)) (col : str) : sql_value :=
  dict_get r col SqlNull.

(** Every row of the table has a value for each column of the table, in the
    order of the columns. *)
Definition well_formed (t : Table) : Prop :=
  Forall (fun r => List.map fst r = columns t) (records t).

(** A code point that is none of [<], [>], the double and the single
    quote. *)
Definition markup_free (c : char) : Prop :=
  c <> 60%N /\ c <> 62%N /\ c <> 34%N /\ c <> 39%N.

(* ================================================================== *)
(** * Relations between the worlds before and after an operation *)
(* ================================================================== *)

(** Every world [c] leads to is related to the one it started from. *)
Definition keeps {A} (R : World -> World -> Prop) (c : M A) : Prop :=
  forall w, R w (snd (c w)).

(** The conversation an operation is run for. *)
Definition operation_chat (o : operation) : Z :=
  match o with
  | AddTask chat _ _ | GetOpenTasks chat | OrderedOpenTasks chat
  | MarkDoneByDisplayNumber chat _ | GetTasksDoneInRange chat _ _
  | FormatOpenTasks chat | FormatDoneSummary chat _ _ | SendOpenTasks chat
  | SendMidnightDoneSummary chat | OnText chat _ => chat
  end.

(** The operations a message or a job can start: all but a direct call of
    [add_task]. *)
Definition is_handler (o : operation) : bool :=
  match o with AddTask _ _ _ => false | _ => true end.

Definition unique_ids (w : World) : Prop := NoDup (List.map task_id (tasks w)).

(** What may become of a task: it keeps its identity, conversation, section,
    body and creation time, and once done it stays as it is. *)
Definition evolves (t t' : Task) : Prop :=
  task_id t' = task_id t /\ chat_id t' = chat_id t /\ section t' = section t
  /\ text t' = text t /\ created_at t' = created_at t
  /\ (done t = true -> t' = t).

(** Every row of [w] is still at its place in [w']. *)
Definition history (w w' : World) : Prop :=
  forall i t, nth_error (tasks w) i = Some t ->
    exists t', nth_error (tasks w') i = Some t' /\ evolves t t'.

(** The rows of all conversations but [chat] are the same in [w']. *)
Definition other_conversations (chat : Z) (w w' : World) : Prop :=
  forall c, c <> chat ->
    filter (fun t => chat_id t =? c) (tasks w')
    = filter (fun t => chat_id t =? c) (tasks w).

(** A task as the message handler stores it. *)
Definition stored_by_handler (t : Task) : Prop :=
  In (section t) SECTION_ORDER /\ text t <> [] /\ strip (text t) = text t.

(** The completion of the task [tid] of [chat] with the stamp [stamp]. *)
Definition complete (stamp : str) (chat tid : Z) (t : Task) : Task :=
  if update_matches chat tid t
  then mk_task (task_id t) (chat_id t) (section t) (text t) (created_at t)
         true (Some stamp)
  else t.

(* ================================================================== *)
(** * Properties of the text helpers *)
(* ================================================================== *)

Lemma str_compare_refl (a : str) : str_compare a a = Eq.
Proof.
  induction a as [|x a IH]; simpl; [reflexivity|].
  now rewrite N.compare_refl.
Qed.

Lemma str_compare_eq (a b : str) : str_compare a b = Eq -> a = b.
Proof.
  revert b; induction a as [|x a IH]; intros [|y b]; simpl; try discriminate.
  - reflexivity.
  - destruct (N.compare x y) eqn:E; try discriminate.
    apply N.compare_eq_iff in E. intros H. f_equal; auto.
Qed.

Lemma str_compare_antisym (a b : str) :
  str_compare b a = CompOpp (str_compare a b).
Proof.
  revert b; induction a as [|x a IH]; intros [|y b]; simpl; try reflexivity.
  rewrite (N.compare_antisym x y).
  destruct (N.compare x y); simpl; auto.
Qed.

Lemma str_compare_trans (a b c : str) :
  str_compare a b = Lt -> str_compare b c = Lt -> str_compare a c = Lt.
Proof.
  revert b c; induction a as [|x a IH]; intros [|y b] [|z c]; simpl;
    try discriminate; try reflexivity.
  destruct (N.compare x y) eqn:Exy; try discriminate;
    destruct (N.compare y z) eqn:Eyz; try discriminate; intros H1 H2.
  - apply N.compare_eq_iff in Exy, Eyz. subst.
    rewrite N.compare_refl. eauto.
  - apply N.compare_eq_iff in Exy. subst. now rewrite Eyz.
  - apply N.compare_eq_iff in Eyz. subst. now rewrite Exy.
  - assert (E : N.compare x z = Lt).
    { apply N.compare_lt_iff. apply N.compare_lt_iff in Exy.
      apply N.compare_lt_iff in Eyz. eapply N.lt_trans; eauto. }
    now rewrite E.
Qed.

Lemma str_eqb_eq (a b : str) : str_eqb a b = true <-> a = b.
Proof.
  unfold str_eqb. split.
  - destruct (str_compare a b) eqn:E; try discriminate.
    intros _. now apply str_compare_eq.
  - intros ->. now rewrite str_compare_refl.
Qed.

Lemma str_eqb_refl (a : str) : str_eqb a a = true.
Proof. now apply str_eqb_eq. Qed.

Lemma str_eqb_neq (a b : str) : str_eqb a b = false <-> a <> b.
Proof.
  split.
  - intros H E. apply str_eqb_eq in E. congruence.
  - intros H. destruct (str_eqb a b) eqn:E; [|reflexivity].
    apply str_eqb_eq in E. contradiction.
Qed.

(* ================================================================== *)
(** * Properties of [sorted] *)
(* ================================================================== *)

Section Sorting.
Context {A K : Type}.
Variable ltb : K -> K -> bool.
Variable key_of : A -> K.

Hypothesis ltb_asym : forall a b, ltb a b = true -> ltb b a = false.
Hypothesis may_precede_trans :
  forall a b c,
    may_precede ltb a b -> may_precede ltb b c -> may_precede ltb a c.

Lemma insert_sorted_perm (x : A) (l : list A) :
  Permutation (insert_sorted ltb key_of x l) (x :: l).
Proof.
  induction l as [|y l IH]; simpl; [reflexivity|].
  destruct (ltb (key_of y) (key_of x)); [|reflexivity].
  rewrite IH. apply perm_swap.
Qed.

Lemma sorted_perm (l : list A) : Permutation (sorted ltb key_of l) l.
Proof.
  induction l as [|x l IH]; simpl; [reflexivity|].
  rewrite insert_sorted_perm. now constructor.
Qed.

Lemma sorted_length (l : list A) : length (sorted ltb key_of l) = length l.
Proof. apply Permutation_length, sorted_perm. Qed.

Let ord (x y : A) : Prop := may_precede ltb (key_of x) (key_of y).

Lemma insert_sorted_ordered (x : A) (l : list A) :
  StronglySorted ord l -> StronglySorted ord (insert_sorted ltb key_of x l).
Proof.
  induction 1 as [|y l Hl IH Hy]; simpl.
  - constructor; constructor.
  - destruct (ltb (key_of y) (key_of x)) eqn:E.
    + constructor; [assumption|].
      eapply Permutation_Forall; [symmetry; apply insert_sorted_perm|].
      constructor; [|assumption].
      unfold ord, may_precede. now apply ltb_asym.
    + constructor; [now constructor|].
      constructor; [exact E|].
      eapply Forall_impl; [|exact Hy].
      intros z Hz. unfold ord in *. eapply may_precede_trans; eauto.
Qed.

Lemma sorted_ordered (l : list A) : StronglySorted ord (sorted ltb key_of l).
Proof.
  induction l as [|x l IH]; simpl; [constructor|].
  now apply insert_sorted_ordered.
Qed.

(** Two ordered lists with the same elements are equal when no two
    different elements may precede each other. *)
Lemma ordered_perm_unique (l1 l2 : list A) :
  (forall x y, In x l1 -> In y l1 -> ord x y -> ord y x -> x = y) ->
  StronglySorted ord l1 -> StronglySorted ord l2 -> Permutation l1 l2 ->
  l1 = l2.
Proof.
  revert l2; induction l1 as [|a l1 IH]; intros l2 Hanti S1 S2 P.
  - apply Permutation_nil in P. now subst.
  - destruct l2 as [|b l2]; [apply Permutation_sym, Permutation_nil in P; discriminate|].
    inversion S1 as [|? ? S1' F1]; inversion S2 as [|? ? S2' F2]; subst.
    assert (Eab : a = b).
    { assert (Hb : In b (a :: l1))
        by (eapply Permutation_in; [symmetry; exact P|left; reflexivity]).
      assert (Ha : In a (b :: l2))
        by (eapply Permutation_in; [exact P|left; reflexivity]).
      destruct Hb as [Hb|Hb]; [now subst|].
      destruct Ha as [Ha|Ha]; [now subst|].
      apply Hanti; [left; reflexivity|right; assumption| |].
      - rewrite Forall_forall in F1. now apply F1.
      - rewrite Forall_forall in F2. now apply F2. }
    subst b. f_equal. apply IH; auto.
    + intros x y Hx Hy. apply Hanti; now right.
    + now apply Permutation_cons_inv in P.
Qed.

End Sorting.

(* ================================================================== *)
(** * The ordering engine *)
(* ================================================================== *)

Lemma key_compare_antisym (a b : sort_key) :
  key_compare b a = CompOpp (key_compare a b).
Proof.
  destruct a as [[pa ca] ia], b as [[pb cb] ib]; simpl.
  rewrite (Z.compare_antisym pa pb), (str_compare_antisym ca cb),
    (Z.compare_antisym ia ib).
  destruct (pa ?= pb); simpl; auto.
  destruct (str_compare ca cb); simpl; auto.
Qed.

Lemma key_compare_eq (a b : sort_key) : key_compare a b = Eq -> a = b.
Proof.
  destruct a as [[pa ca] ia], b as [[pb cb] ib]; simpl.
  destruct (pa ?= pb) eqn:Ep; try discriminate.
  destruct (str_compare ca cb) eqn:Ec; try discriminate.
  intros Ei. apply Z.compare_eq in Ep. apply Z.compare_eq in Ei.
  apply str_compare_eq in Ec.
  congruence.
Qed.

Lemma key_compare_trans (a b c : sort_key) :
  key_compare a b = Lt -> key_compare b c = Lt -> key_compare a c = Lt.
Proof.
  destruct a as [[pa ca] ia], b as [[pb cb] ib], c as [[pc cc] ic]; simpl.
  destruct (pa ?= pb) eqn:E1; try discriminate;
    destruct (pb ?= pc) eqn:E2; try discriminate;
    try (apply Z.compare_eq in E1; subst pb);
    try (apply Z.compare_eq in E2; subst pc);
    rewrite ?E1, ?E2, ?Z.compare_refl; auto.
  - destruct (str_compare ca cb) eqn:F1; try discriminate;
      destruct (str_compare cb cc) eqn:F2; try discriminate;
      try (apply str_compare_eq in F1; subst cb);
      try (apply str_compare_eq in F2; subst cc);
      rewrite ?F1, ?F2, ?str_compare_refl; auto.
    + rewrite !Z.compare_lt_iff. lia.
    + intros _ _. now rewrite (str_compare_trans _ _ _ F1 F2).
  - intros _ _. rewrite Z.compare_lt_iff in E1, E2.
    assert (E : (pa ?= pc) = Lt) by (rewrite Z.compare_lt_iff; lia).
    now rewrite E.
Qed.

Lemma key_ltb_asym (a b : sort_key) : key_ltb a b = true -> key_ltb b a = false.
Proof.
  unfold key_ltb. rewrite (key_compare_antisym a b).
  destruct (key_compare a b); simpl; congruence.
Qed.

Lemma key_may_precede_trans (a b c : sort_key) :
  may_precede key_ltb a b -> may_precede key_ltb b c -> may_precede key_ltb a c.
Proof.
  unfold may_precede, key_ltb. intros Hab Hbc.
  destruct (key_compare c a) eqn:Eca; auto.
  destruct (key_compare b a) eqn:Eba; try discriminate.
  - apply key_compare_eq in Eba. subst b. now rewrite Eca in Hbc.
  - assert (Eab : key_compare a b = Lt)
      by (rewrite (key_compare_antisym b a), Eba; reflexivity).
    now rewrite (key_compare_trans c a b Eca Eab) in Hbc.
Qed.

Lemma section_priority_rank (s : str) :
  dict_get SECTION_PRIORITY s 999 = section_rank s.
Proof.
  unfold section_rank, SECTION_PRIORITY, SECTION_ORDER. simpl.
  repeat match goal with |- context [str_eqb ?a ?b] =>
    destruct (str_eqb a b); try reflexivity end.
Qed.

Lemma key_row (r : open_row) :
  key r = (section_rank (row_section r), row_created r, row_id r).
Proof.
  destruct r as [[[i s] b] c]. unfold key. now rewrite section_priority_rank.
Qed.

(** The tuple comparison of the code is the order of the specification. *)
Lemma may_precede_precedes (a b : open_row) :
  may_precede key_ltb (key a) (key b) <-> precedes a b.
Proof.
  unfold may_precede, key_ltb, precedes. rewrite !key_row. simpl.
  set (ra := section_rank (row_section a)).
  set (rb := section_rank (row_section b)).
  destruct (Z.compare_spec rb ra) as [Ep|Ep|Ep].
  - destruct (str_compare (row_created b) (row_created a)) eqn:Ec.
    + apply str_compare_eq in Ec.
      destruct (Z.compare_spec (row_id b) (row_id a)) as [Ei|Ei|Ei].
      * split; auto. intros _. right. split; [lia|]. right. split; auto. lia.
      * split; [discriminate|].
        intros [H|[_ [H|[_ H]]]]; try lia.
        rewrite Ec, str_compare_refl in H. discriminate.
      * split; auto. intros _. right. split; [lia|]. right. split; auto. lia.
    + split; [discriminate|].
      intros [H|[_ [H|[H _]]]]; try lia.
      * rewrite (str_compare_antisym (row_created b)), Ec in H. discriminate.
      * rewrite H, str_compare_refl in Ec. discriminate.
    + split; auto. intros _. right. split; [lia|]. left.
      rewrite (str_compare_antisym (row_created b)), Ec. reflexivity.
  - split; [discriminate|]. intros [H|[H _]]; lia.
  - split; auto.
Qed.

Lemma sorted_rows_precedes (rows : list open_row) :
  StronglySorted precedes (sorted key_ltb key rows).
Proof.
  pose proof (sorted_ordered key_ltb key key_ltb_asym key_may_precede_trans rows)
    as S.
  induction S as [|a l S IH F]; constructor; auto.
  eapply Forall_impl; [|exact F]. intros b. apply may_precede_precedes.
Qed.

Lemma strongly_sorted_nth {A} (R : A -> A -> Prop) (l : list A) :
  StronglySorted R l ->
  forall i j a b, (i < j)%nat ->
    nth_error l i = Some a -> nth_error l j = Some b -> R a b.
Proof.
  induction 1 as [|x l S IH F]; intros i j a b Hij Hi Hj.
  - destruct i; discriminate.
  - destruct j as [|j]; [lia|]. simpl in Hj.
    destruct i as [|i]; simpl in Hi.
    + injection Hi as <-. rewrite Forall_forall in F. apply F.
      eapply nth_error_In; eauto.
    + apply (IH i j a b); [lia|assumption|assumption].
Qed.

Lemma numbered_rows (start : Z) (rows : list open_row) :
  List.map row_of_numbered (List.map number_row (enumerate_from start rows)) = rows.
Proof.
  revert start; induction rows as [|[[[i s] b] c] rows IH]; intros start; simpl;
    [reflexivity|]. now rewrite IH.
Qed.

Lemma numbered_display_nos (start : Z) (rows : list open_row) :
  List.map display_no_of (List.map number_row (enumerate_from start rows))
  = List.map (fun k => start + Z.of_nat k) (List.seq 0 (length rows)).
Proof.
  revert start; induction rows as [|[[[i s] b] c] rows IH]; intros start;
    [reflexivity|].
  cbn [enumerate_from List.map length List.seq number_row display_no_of].
  rewrite IH, <- seq_shift, map_map. f_equal; [lia|].
  apply map_ext. intros k. lia.
Qed.

Lemma ordered_open_tasks_eq (chat : Z) (w : World) :
  ordered_open_tasks_with_numbers chat w
  = (Ok (List.map number_row
           (enumerate_from 1 (sorted key_ltb key (open_rows chat w)))), w).
Proof. reflexivity. Qed.

Lemma nodup_map_inj {A B} (f : A -> B) (l : list A) (x y : A) :
  NoDup (List.map f l) -> In x l -> In y l -> f x = f y -> x = y.
Proof.
  induction l as [|a l IH]; simpl; [contradiction|].
  intros ND Hx Hy E. inversion ND as [|? ? Hn ND']; subst.
  destruct Hx as [<-|Hx], Hy as [<-|Hy]; auto.
  - exfalso. apply Hn. rewrite E. now apply in_map.
  - exfalso. apply Hn. rewrite <- E. now apply in_map.
Qed.

Lemma section_rank_known (k : str) :
  In k SECTION_ORDER -> 0 <= section_rank k <= 3.
Proof.
  unfold SECTION_ORDER. simpl.
  intros [<-|[<-|[<-|[<-|[]]]]]; vm_compute; split; discriminate.
Qed.

Lemma section_rank_unknown (s : str) :
  ~ In s SECTION_ORDER -> section_rank s = 999.
Proof.
  unfold SECTION_ORDER, section_rank. simpl. intros H.
  repeat match goal with |- context [str_eqb ?a ?b] =>
    let E := fresh in destruct (str_eqb a b) eqn:E;
    [apply str_eqb_eq in E; exfalso; apply H; auto 6|] end.
  reflexivity.
Qed.


(* ================================================================== *)
(** * Completion *)
(* ================================================================== *)

Lemma ordered_display_nos (chat : Z) (w : World) :
  List.map display_no_of
    (List.map number_row
       (enumerate_from 1 (sorted key_ltb key (open_rows chat w))))
  = List.map Z.of_nat (List.seq 1 (length (open_tasks chat w))).
Proof.
  rewrite numbered_display_nos, sorted_length. unfold open_rows.
  rewrite length_map, <- seq_shift, map_map. apply map_ext. intros k. lia.
Qed.

Lemma find_display_no (n start : Z) (rows : list open_row) :
  find (fun x => display_no_of x =? n)
    (List.map number_row (enumerate_from start rows))
  = if (start <=? n) && (n <? start + Z.of_nat (length rows))
    then option_map (fun r => number_row (n, r))
           (nth_error rows (Z.to_nat (n - start)))
    else None.
Proof.
  revert start; induction rows as [|[[[i s] b] c] rows IH]; intros start.
  - simpl. destruct (Z.leb_spec start n), (Z.ltb_spec n (start + 0));
      simpl; auto; lia.
  - cbn [enumerate_from List.map find number_row display_no_of].
    rewrite IH. change (length ((i, s, b, c) :: rows)) with (S (length rows)).
    rewrite Nat2Z.inj_succ.
    destruct (Z.eqb_spec start n) as [E|E].
    + subst n. replace (start - start) with 0 by lia.
      destruct (Z.leb_spec start start),
        (Z.ltb_spec start (start + Z.succ (Z.of_nat (length rows))));
        simpl; auto; lia.
    + destruct (Z.leb_spec start n), (Z.leb_spec (start + 1) n),
        (Z.ltb_spec n (start + Z.succ (Z.of_nat (length rows)))),
        (Z.ltb_spec n (start + 1 + Z.of_nat (length rows)));
        simpl; auto; try lia.
      replace (Z.to_nat (n - start)) with (S (Z.to_nat (n - (start + 1))))
        by lia.
      reflexivity.
Qed.

Lemma world_eta (w : World) :
  mk_world (tasks w) (sqlite_seq w) (clock w) (ticks w) = w.
Proof. now destruct w. Qed.

Lemma filter_none {A} (f : A -> bool) (l : list A) :
  (forall x, In x l -> f x = false) -> filter f l = [].
Proof.
  induction l as [|x l IH]; simpl; intros H; [reflexivity|].
  rewrite (H x) by (now left). apply IH. intros y Hy. apply H. now right.
Qed.

Lemma map_unchanged {A} (f : A -> A) (l : list A) :
  (forall x, In x l -> f x = x) -> List.map f l = l.
Proof.
  induction l as [|x l IH]; simpl; intros H; [reflexivity|].
  rewrite (H x) by (now left). f_equal. apply IH. intros y Hy. apply H.
  now right.
Qed.

Lemma sql_update_done_none (stamp : str) (chat tid : Z) (w : World) :
  (forall t, In t (tasks w) -> update_matches chat tid t = false) ->
  sql_update_done stamp chat tid w = (Ok 0, w).
Proof.
  intros H. unfold sql_update_done.
  rewrite (filter_none _ _ H), map_unchanged, world_eta; [reflexivity|].
  intros t Ht. now rewrite (H t Ht).
Qed.

Lemma sql_update_done_after (stamp : str) (chat tid : Z) (w : World) (t : Task) :
  In t (tasks (snd (sql_update_done stamp chat tid w))) ->
  update_matches chat tid t = false.
Proof.
  simpl. rewrite in_map_iff. intros (u & <- & _).
  destruct (update_matches chat tid u) eqn:E; [|exact E].
  unfold update_matches. simpl. now rewrite andb_false_r.
Qed.

Lemma sql_update_done_count (stamp : str) (chat tid : Z) (w : World) (t : Task) :
  In t (tasks w) -> update_matches chat tid t = true ->
  exists k, fst (sql_update_done stamp chat tid w) = Ok k /\ 0 < k.
Proof.
  intros Hin Hm. simpl. eexists. split; [reflexivity|].
  assert (Hf : In t (filter (update_matches chat tid) (tasks w)))
    by (apply filter_In; auto).
  destruct (filter (update_matches chat tid) (tasks w)); [contradiction|].
  simpl. lia.
Qed.

Section Completion.
Context `{RT : Runtime}.

Lemma mark_done_eq (chat tid : Z) (w : World) :
  mark_done chat tid w
  = let r := sql_update_done (isoformat (clock w (ticks w))) chat tid (tick w) in
    (Ok (0 <? Z.of_nat (length (filter (update_matches chat tid) (tasks w)))),
     snd r).
Proof. reflexivity. Qed.

(** The conditional update on a task that is not open (completed, absent or
    of another conversation) changes no row and reports failure. *)
Lemma mark_done_not_open (chat tid : Z) (w : World) :
  (forall t, In t (tasks w) -> update_matches chat tid t = false) ->
  mark_done chat tid w = (Ok false, tick w).
Proof.
  intros H. unfold mark_done, bind, now. fold (tick w).
  rewrite sql_update_done_none by exact H. reflexivity.
Qed.

Lemma mark_done_open (chat tid : Z) (w : World) (t : Task) :
  In t (tasks w) -> update_matches chat tid t = true ->
  fst (mark_done chat tid w) = Ok true.
Proof.
  intros Hin Hm. rewrite mark_done_eq. simpl. f_equal.
  assert (Hf : In t (filter (update_matches chat tid) (tasks w)))
    by (apply filter_In; auto).
  destruct (filter (update_matches chat tid) (tasks w)); [contradiction|].
  reflexivity.
Qed.

Lemma mark_done_after (chat tid : Z) (w : World) (t : Task) :
  In t (tasks (snd (mark_done chat tid w))) ->
  update_matches chat tid t = false.
Proof.
  rewrite mark_done_eq. simpl. rewrite in_map_iff. intros (u & <- & _).
  destruct (update_matches chat tid u) eqn:E; [|exact E].
  unfold update_matches. simpl. now rewrite andb_false_r.
Qed.

Lemma mark_done_by_display_number_out_of_range (chat n : Z) (w : World) :
  ~ (1 <= n <= Z.of_nat (length (open_tasks chat w))) ->
  mark_done_by_display_number chat n w = (Ok false, w).
Proof.
  intros Hn. unfold mark_done_by_display_number, bind.
  rewrite ordered_open_tasks_eq, find_display_no, sorted_length.
  unfold open_rows. rewrite length_map.
  destruct (Z.leb_spec 1 n), (Z.ltb_spec n (1 + Z.of_nat (length (open_tasks chat w))));
    simpl; auto; lia.
Qed.

(** Inside the range the number resolves to the task at that place of the
    order, and that task is completed. *)
Lemma mark_done_by_display_number_in_range (chat n : Z) (w : World) :
  1 <= n <= Z.of_nat (length (open_tasks chat w)) ->
  exists r,
    nth_error (sorted key_ltb key (open_rows chat w)) (Z.to_nat (n - 1)) = Some r
    /\ mark_done_by_display_number chat n w = mark_done chat (row_id r) w
    /\ fst (mark_done chat (row_id r) w) = Ok true.
Proof.
  intros Hn.
  destruct (nth_error (sorted key_ltb key (open_rows chat w)) (Z.to_nat (n - 1)))
    as [r|] eqn:E.
  - exists r. split; [reflexivity|].
    assert (Hr : In r (open_rows chat w)).
    { eapply Permutation_in; [apply (sorted_perm key_ltb key)|].
      eapply nth_error_In; eauto. }
    split.
    + unfold mark_done_by_display_number, bind.
      rewrite ordered_open_tasks_eq, find_display_no, sorted_length, E.
      unfold open_rows at 1. rewrite length_map.
      destruct (Z.leb_spec 1 n), (Z.ltb_spec n (1 + Z.of_nat (length (open_tasks chat w))));
        try lia. simpl.
      destruct r as [[[i s] b] c]. reflexivity.
    + unfold open_rows in Hr. apply in_map_iff in Hr.
      destruct Hr as (t & <- & Ht). unfold open_tasks in Ht.
      apply filter_In in Ht. destruct Ht as [Hin Hc].
      apply (mark_done_open chat _ w t Hin).
      unfold update_matches. simpl.
      apply andb_true_iff in Hc. destruct Hc as [Hc Hd].
      now rewrite Hc, Hd, Z.eqb_refl.
  - exfalso. apply nth_error_None in E. rewrite sorted_length in E.
    unfold open_rows in E. rewrite length_map in E. lia.
Qed.

(** C3: a display number outside [1, N] makes
    [mark_done_by_display_number] return false and leave the world as it
    was; the conditional update on a task that is not open any more changes
    no task and returns false; of two completions of the same resolved id
    the second returns false and changes no task, the first returns true
    when the task was open; and every call returns a boolean. *)
Theorem mark_done_failure_modes (chat : Z) (w : World) :
  (forall n, ~ (1 <= n <= Z.of_nat (length (open_tasks chat w))) ->
     mark_done_by_display_number chat n w = (Ok false, w))
  /\ (forall tid,
        (forall t, In t (tasks w) -> chat_id t = chat -> task_id t = tid ->
                   done t = true) ->
        mark_done chat tid w = (Ok false, tick w)
        /\ tasks (tick w) = tasks w)
  /\ (forall tid,
        let w1 := snd (mark_done chat tid w) in
        mark_done chat tid w1 = (Ok false, tick w1)
        /\ tasks (tick w1) = tasks w1
        /\ ((exists t, In t (tasks w) /\ chat_id t = chat /\ task_id t = tid
                       /\ done t = false) ->
            fst (mark_done chat tid w) = Ok true))
  /\ (forall n, exists b w',
        mark_done_by_display_number chat n w = (Ok b, w')).
Proof.
  split; [|split; [|split]].
  - intros n. apply mark_done_by_display_number_out_of_range.
  - intros tid H. split; [|reflexivity]. apply mark_done_not_open.
    intros t Hin. unfold update_matches.
    destruct (Z.eqb_spec (chat_id t) chat); simpl; auto.
    destruct (Z.eqb_spec (task_id t) tid); simpl; auto.
    now rewrite (H t Hin).
  - intros tid w1. split; [|split; [reflexivity|]].
    + apply mark_done_not_open. intros t. apply mark_done_after.
    + intros (t & Hin & Hc & Hi & Hd). apply (mark_done_open chat tid w t Hin).
      unfold update_matches. now rewrite Hc, Hi, Hd, !Z.eqb_refl.
  - intros n.
    destruct (Z_le_dec 1 n) as [H1|H1];
      [destruct (Z_le_dec n (Z.of_nat (length (open_tasks chat w)))) as [H2|H2]|].
    + destruct (mark_done_by_display_number_in_range chat n w (conj H1 H2))
        as (r & _ & E & _).
      rewrite E, mark_done_eq. eauto.
    + rewrite mark_done_by_display_number_out_of_range by lia. eauto.
    + rewrite mark_done_by_display_number_out_of_range by lia. eauto.
Qed.

End Completion.

(* ================================================================== *)
(** * What the operations keep of the task table *)
(* ================================================================== *)

Section Preservation.
Context `{RT : Runtime}.
Variable P : list Task -> Prop.

Lemma preserves_ret {A} (a : A) : preserves P (ret a).
Proof. intros w H. exact H. Qed.

Lemma preserves_raise {A} (e : exn) : preserves P (@raise A e).
Proof. intros w H. exact H. Qed.

Lemma preserves_bind {A B} (c : M A) (k : A -> M B) :
  preserves P c -> (forall a, preserves P (k a)) -> preserves P (bind c k).
Proof.
  intros Hc Hk w H. unfold bind. specialize (Hc w H).
  destruct (c w) as [[a|e] w']; simpl in *; auto. now apply Hk.
Qed.

Lemma preserves_lift_result {A} (r : result A) : preserves P (lift_result r).
Proof. destruct r; [apply preserves_ret|apply preserves_raise]. Qed.

Lemma preserves_now : preserves P now.
Proof. intros w H. exact H. Qed.

Lemma preserves_select_open (chat : Z) : preserves P (sql_select_open chat).
Proof. intros w H. exact H. Qed.

Lemma preserves_select_done (chat : Z) (a b : str) :
  preserves P (sql_select_done_in_range chat a b).
Proof. intros w H. exact H. Qed.

Lemma preserves_ordered (chat : Z) :
  preserves P (ordered_open_tasks_with_numbers chat).
Proof. intros w H. exact H. Qed.

Lemma preserves_is_older_than_week (created : str) :
  preserves P (is_older_than_week created).
Proof.
  unfold is_older_than_week. destruct (fromisoformat_tz created).
  - apply preserves_bind; [apply preserves_now|]. intros t. apply preserves_ret.
  - apply preserves_raise.
Qed.

Lemma preserves_group_items (numbered : list numbered_row) :
  forall groups, preserves P (group_items numbered groups).
Proof.
  induction numbered as [|[[[[n i] s] b] c] numbered IH]; intros groups; simpl.
  - apply preserves_ret.
  - apply preserves_bind; [apply preserves_is_older_than_week|].
    intros old. apply IH.
Qed.

Lemma preserves_format_open_tasks_message (chat : Z) :
  preserves P (format_open_tasks_message chat).
Proof.
  unfold format_open_tasks_message.
  apply preserves_bind; [apply preserves_ordered|]. intros [|x numbered].
  - apply preserves_ret.
  - apply preserves_bind; [apply preserves_group_items|]. intros groups.
    apply preserves_ret.
Qed.

Lemma preserves_format_done_summary_for_range (chat : Z) (a b : datetime) :
  preserves P (format_done_summary_for_range chat a b).
Proof.
  unfold format_done_summary_for_range.
  apply preserves_bind; [apply preserves_select_done|]. intros rows.
  destruct (Z.of_nat (length rows) =? 0); apply preserves_ret.
Qed.

Lemma preserves_send_midnight_done_summary (chat : Z) :
  preserves P (send_midnight_done_summary chat).
Proof.
  unfold send_midnight_done_summary.
  apply preserves_bind; [apply preserves_now|]. intros t.
  apply preserves_bind; [apply preserves_lift_result|]. intros ref.
  apply preserves_bind; [apply preserves_lift_result|]. intros day_end.
  apply preserves_format_done_summary_for_range.
Qed.

Hypothesis P_insert :
  forall l t, P l -> done t = false -> done_at t = None -> P (l ++ [t]).
Hypothesis P_update :
  forall l chat tid stamp, P l ->
    P (List.map (fun t =>
          if update_matches chat tid t
          then mk_task (task_id t) (chat_id t) (section t) (text t)
                 (created_at t) true (Some stamp)
          else t) l).

Lemma preserves_add_task (chat : Z) (sec body : str) :
  preserves P (add_task chat sec body).
Proof.
  unfold add_task. apply preserves_bind; [apply preserves_now|]. intros t w H.
  simpl. now apply P_insert.
Qed.

Lemma preserves_mark_done (chat tid : Z) : preserves P (mark_done chat tid).
Proof.
  unfold mark_done. apply preserves_bind; [apply preserves_now|]. intros t.
  apply preserves_bind; [|intros k; apply preserves_ret].
  intros w H. simpl. now apply P_update.
Qed.

Lemma preserves_mark_done_by_display_number (chat n : Z) :
  preserves P (mark_done_by_display_number chat n).
Proof.
  unfold mark_done_by_display_number.
  apply preserves_bind; [apply preserves_ordered|]. intros numbered.
  destruct (find _ numbered) as [[[[[d i] s] b] c]|].
  - apply preserves_mark_done.
  - apply preserves_ret.
Qed.

Lemma preserves_on_text (chat : Z) (message_text : str) :
  preserves P (on_text chat message_text).
Proof.
  unfold on_text. destruct (is_list_command _).
  - apply preserves_format_open_tasks_message.
  - destruct (parse_done_command _) as [n|].
    + apply preserves_bind; [apply preserves_mark_done_by_display_number|].
      intros ok. apply preserves_ret.
    + destruct (parse_section_from_text _) as [sec [|c body]].
      * apply preserves_ret.
      * apply preserves_bind; [apply preserves_add_task|]. intros i.
        apply preserves_ret.
Qed.

Lemma preserves_run (o : operation) (w : World) :
  P (tasks w) -> P (tasks (run o w)).
Proof.
  destruct o; simpl.
  - exact (preserves_add_task chat sec body w).
  - exact (preserves_select_open chat w).
  - exact (preserves_ordered chat w).
  - exact (preserves_mark_done_by_display_number chat display_no w).
  - exact (preserves_select_done chat (isoformat start_) (isoformat end_) w).
  - exact (preserves_format_open_tasks_message chat w).
  - exact (preserves_format_done_summary_for_range chat start_ end_ w).
  - exact (preserves_format_open_tasks_message chat w).
  - exact (preserves_send_midnight_done_summary chat w).
  - exact (preserves_on_text chat message_text w).
Qed.

End Preservation.

(** C2: the display numbers are 1..N in this order, without gap or
    duplicate; computing them leaves the world as it was, a listing leaves
    the task table as it was, and every later call on a world with the same
    open tasks returns the same order and numbers. *)
Theorem display_numbers_contiguous (chat : Z) (w : World) :
  exists numbered : list numbered_row,
    ordered_open_tasks_with_numbers chat w = (Ok numbered, w)
    /\ length numbered = length (open_tasks chat w)
    /\ List.map display_no_of numbered
       = List.map Z.of_nat (List.seq 1 (length (open_tasks chat w)))
    /\ NoDup (List.map display_no_of numbered)
    /\ (forall n, In n (List.map display_no_of numbered)
                  <-> 1 <= n <= Z.of_nat (length (open_tasks chat w)))
    /\ (forall w', open_rows chat w' = open_rows chat w ->
          ordered_open_tasks_with_numbers chat w' = (Ok numbered, w'))
    /\ (n1 <- ordered_open_tasks_with_numbers chat ;;
        n2 <- ordered_open_tasks_with_numbers chat ;;
        ret (n1, n2)) w = (Ok (numbered, numbered), w)
    /\ (forall RT : Runtime,
          let w' := snd (@format_open_tasks_message RT chat w) in
          tasks w' = tasks w
          /\ ordered_open_tasks_with_numbers chat w' = (Ok numbered, w')).
Proof.
  eexists. split; [apply ordered_open_tasks_eq|].
  pose proof (ordered_display_nos chat w) as E.
  split; [|split; [exact E|split; [|split; [|split; [|split]]]]].
  - rewrite <- (length_map display_no_of), E, length_map, length_seq.
    reflexivity.
  - rewrite E. apply Finite.Injective_map_NoDup; [|apply seq_NoDup].
    intros a b. apply Nat2Z.inj.
  - intros n. rewrite E, in_map_iff. split.
    + intros (k & <- & Hk). apply in_seq in Hk. lia.
    + intros Hn. exists (Z.to_nat n). split; [lia|]. apply in_seq. lia.
  - intros w' Hw. rewrite ordered_open_tasks_eq, Hw. reflexivity.
  - reflexivity.
  - intros RT w'.
    assert (Ht : tasks w' = tasks w)
      by (apply (preserves_format_open_tasks_message
                   (fun l => l = tasks w) chat w); reflexivity).
    split; [exact Ht|]. rewrite ordered_open_tasks_eq.
    unfold open_rows, open_tasks. now rewrite Ht.
Qed.

Lemma invariant_insert (l : list Task) (t : Task) :
  Forall done_at_iff_done l -> done t = false -> done_at t = None ->
  Forall done_at_iff_done (l ++ [t]).
Proof.
  intros H Hd Ha. apply Forall_app. split; [exact H|].
  constructor; [|constructor]. unfold done_at_iff_done. rewrite Hd, Ha.
  split; [congruence|discriminate].
Qed.

Lemma invariant_update (l : list Task) (chat tid : Z) (stamp : str) :
  Forall done_at_iff_done l ->
  Forall done_at_iff_done
    (List.map (fun t =>
       if update_matches chat tid t
       then mk_task (task_id t) (chat_id t) (section t) (text t)
              (created_at t) true (Some stamp)
       else t) l).
Proof.
  intros H. apply Forall_map. eapply Forall_impl; [|exact H].
  intros t Ht. destruct (update_matches chat tid t); [|exact Ht].
  unfold done_at_iff_done. simpl. split; [reflexivity|discriminate].
Qed.

(** C9: every operation of the module keeps [done_at] set exactly on the
    done tasks, so every table the operations build from the empty one
    satisfies it; [add_task] appends a task with [done] false and [done_at]
    null; the completing update turns each task it matches into one with
    [done] true and a non-null [done_at] and leaves the others as they
    were. *)
Theorem done_at_invariant `{RT : Runtime} :
  (forall (o : operation) (w : World),
     store_invariant w -> store_invariant (run o w))
  /\ (forall (os : list operation) (clk : nat -> datetime) (n : nat),
        store_invariant (run_all os (mk_world [] 0 clk n)))
  /\ (forall chat sec body w,
        exists t, tasks (snd (add_task chat sec body w)) = tasks w ++ [t]
                  /\ done t = false /\ done_at t = None
                  /\ chat_id t = chat /\ section t = sec)
  /\ (forall chat tid w,
        Forall2 (fun t t' =>
                   if update_matches chat tid t
                   then done t = false /\ done t' = true /\ done_at t' <> None
                        /\ task_id t' = task_id t /\ text t' = text t
                   else t' = t)
          (tasks w) (tasks (snd (mark_done chat tid w)))).
Proof.
  assert (Hrun : forall (o : operation) (w : World),
            store_invariant w -> store_invariant (run o w)).
  { intros o w. apply (preserves_run (Forall done_at_iff_done)).
    - apply invariant_insert.
    - intros l chat tid stamp. apply invariant_update. }
  split; [exact Hrun|split; [|split]].
  - intros os clk n. unfold run_all.
    assert (H0 : store_invariant (mk_world [] 0 clk n)) by constructor.
    revert H0. generalize (mk_world [] 0 clk n).
    induction os as [|o os IH]; intros w Hw; simpl; auto.
  - intros chat sec body w. eexists. split; [reflexivity|]. simpl. auto.
  - intros chat tid w. rewrite mark_done_eq. simpl.
    induction (tasks w) as [|t l IH]; simpl; constructor; auto.
    destruct (update_matches chat tid t) eqn:E; [|reflexivity]. simpl.
    unfold update_matches in E. apply andb_true_iff in E. destruct E as [_ E].
    apply negb_true_iff in E. repeat split; auto. discriminate.
Qed.

(* ================================================================== *)
(** * The window of the midnight summary *)
(* ================================================================== *)

Lemma datetime_add_minus_second (t : datetime) :
  fires_at_midnight t ->
  datetime_add t (- timedelta_of 0 1)
  = Ok (mk_datetime (ordinal t - 1) 23 59 59 (microsecond t) false).
Proof.
  intros (Ho & Hh & Hm & Hs & Hu).
  unfold datetime_add, wall_us, timedelta_of, US_PER_DAY, US_PER_SECOND,
    MAXORDINAL in *.
  rewrite Hh, Hm, Hs.
  set (total := ordinal t * (86400 * 1000000) + (0 * 3600 + 0 * 60 + 0) * 1000000
                + microsecond t + - (0 * (86400 * 1000000) + 1 * 1000000)).
  assert (Ed : total / (86400 * 1000000) = ordinal t - 1)
    by (symmetry; apply (Z.div_unique _ _ _ (86399000000 + microsecond t));
        unfold total; lia).
  assert (Em : total mod (86400 * 1000000) = 86399000000 + microsecond t)
    by (symmetry; apply (Z.mod_unique _ _ (ordinal t - 1));
        unfold total; lia).
  rewrite Ed, Em.
  assert (Es : (86399000000 + microsecond t) / 1000000 = 86399)
    by (symmetry; apply (Z.div_unique _ _ _ (microsecond t)); lia).
  assert (Eu : (86399000000 + microsecond t) mod 1000000 = microsecond t)
    by (symmetry; apply (Z.mod_unique _ _ 86399); lia).
  rewrite Es, Eu.
  destruct (Z.ltb_spec 0 (ordinal t - 1)), (Z.leb_spec (ordinal t - 1) 3652059);
    try lia.
  reflexivity.
Qed.

Lemma datetime_add_day (ord : Z) :
  0 <= ord < MAXORDINAL ->
  datetime_add (midnight_of ord) (timedelta_of 1 0) = Ok (midnight_of (ord + 1)).
Proof.
  intros Ho.
  unfold datetime_add, wall_us, timedelta_of, US_PER_DAY, US_PER_SECOND,
    MAXORDINAL, midnight_of in *. simpl ordinal. simpl hour. simpl minute.
  simpl second. simpl microsecond.
  set (total := ord * (86400 * 1000000) + (0 * 3600 + 0 * 60 + 0) * 1000000 + 0
                + (1 * (86400 * 1000000) + 0 * 1000000)).
  assert (Ed : total / (86400 * 1000000) = ord + 1)
    by (symmetry; apply (Z.div_unique _ _ _ 0); unfold total; lia).
  assert (Em : total mod (86400 * 1000000) = 0)
    by (symmetry; apply (Z.mod_unique _ _ (ord + 1)); unfold total; lia).
  rewrite Ed, Em.
  destruct (Z.ltb_spec 0 (ord + 1)), (Z.leb_spec (ord + 1) 3652059); try lia.
  reflexivity.
Qed.

Section Midnight.
Context `{RT : Runtime}.

(** C4: the midnight job reads the clock, takes one second off, truncates
    to midnight for the start and adds one day for the end; when it fires
    within the first second of a day, at any microsecond, the summary it
    sends is the one of the window from the start of the day before to the
    start of that day. *)
Theorem midnight_window (chat : Z) (w : World) :
  fires_at_midnight (clock w (ticks w)) ->
  exists ref day_start day_end,
    datetime_add (clock w (ticks w)) (- timedelta_of 0 1) = Ok ref
    /\ day_start = replace_midnight ref
    /\ datetime_add day_start (timedelta_of 1 0) = Ok day_end
    /\ send_midnight_done_summary chat w
       = format_done_summary_for_range chat day_start day_end (tick w)
    /\ day_start = midnight_of (ordinal (clock w (ticks w)) - 1)
    /\ day_end = midnight_of (ordinal (clock w (ticks w))).
Proof.
  intros Hf. pose proof (datetime_add_minus_second _ Hf) as E1.
  destruct Hf as (Ho & _).
  assert (E2 : datetime_add (midnight_of (ordinal (clock w (ticks w)) - 1))
                 (timedelta_of 1 0)
               = Ok (midnight_of (ordinal (clock w (ticks w))))).
  { rewrite datetime_add_day by lia. do 2 f_equal. lia. }
  eexists _, _, _. split; [exact E1|]. split; [reflexivity|].
  split; [exact E2|]. split; [|split; reflexivity].
  unfold send_midnight_done_summary, bind, now. fold (tick w).
  rewrite E1. simpl. unfold replace_midnight. simpl.
  fold (midnight_of (ordinal (clock w (ticks w)) - 1)). rewrite E2.
  reflexivity.
Qed.

End Midnight.

(** The job firing a quarter of a second after midnight of 2024-01-02. *)
Lemma midnight_window_witness :
  let w := mk_world [] 0 (fun _ => mk_datetime 738887 0 0 0 250000 false) 0 in
  fires_at_midnight (clock w (ticks w))
  /\ exists ref day_start day_end,
       datetime_add (clock w (ticks w)) (- timedelta_of 0 1) = Ok ref
       /\ day_start = replace_midnight ref
       /\ datetime_add day_start (timedelta_of 1 0) = Ok day_end
       /\ @send_midnight_done_summary FixedOffset.runtime 7 w
          = @format_done_summary_for_range FixedOffset.runtime 7
              day_start day_end (tick w)
       /\ day_start = midnight_of (ordinal (clock w (ticks w)) - 1)
       /\ day_end = midnight_of (ordinal (clock w (ticks w))).
Proof.
  intros w.
  assert (H : fires_at_midnight (clock w (ticks w)))
    by (unfold fires_at_midnight, MAXORDINAL, US_PER_SECOND; simpl; lia).
  split; [exact H|].
  exact (@midnight_window FixedOffset.runtime 7 w H).
Defined.


(* ================================================================== *)
(** * The complete command *)
(* ================================================================== *)

Lemma decimal_value_range (c : char) (d : Z) :
  decimal_value c = Some d ->
  exists z, In z decimal_zeros /\ (z <= c < z + 10)%N /\ d = Z.of_N (c - z).
Proof.
  unfold decimal_value.
  destruct (find _ decimal_zeros) as [z|] eqn:E; [|discriminate].
  intros [= <-]. apply find_some in E. destruct E as [Hin Hz].
  apply andb_true_iff in Hz. destruct Hz as [H1 H2].
  apply N.leb_le in H1. apply N.ltb_lt in H2. eauto.
Qed.

Lemma decimal_value_bound (c : char) (d : Z) :
  decimal_value c = Some d -> 0 <= d < 10.
Proof.
  intros H. apply decimal_value_range in H. destruct H as (z & _ & Hz & ->).
  lia.
Qed.

Ltac decide_comparisons :=
  repeat match goal with
  | |- context [(?a <=? ?b)%N] => destruct (N.leb_spec a b); try lia
  | |- context [(?a =? ?b)%N] => destruct (N.eqb_spec a b); try lia
  end.

(** No decimal digit is whitespace. *)
Lemma decimal_not_space (c : char) : is_decimal c = true -> is_space c = false.
Proof.
  unfold is_decimal. destruct (decimal_value c) as [d|] eqn:E; [|discriminate].
  intros _. apply decimal_value_range in E. destruct E as (z & Hin & Hz & _).
  unfold decimal_zeros in Hin. unfold is_space.
  repeat (destruct Hin as [<-|Hin]; [decide_comparisons; reflexivity|]).
  destruct Hin.
Qed.

Lemma space_not_decimal (c : char) : is_space c = true -> is_decimal c = false.
Proof.
  intros H. destruct (is_decimal c) eqn:E; [|reflexivity].
  apply decimal_not_space in E. congruence.
Qed.

Lemma int_of_digits_nonneg (ds : str) : 0 <= int_of_digits ds.
Proof.
  unfold int_of_digits.
  assert (H : forall acc, 0 <= acc ->
            0 <= fold_left
                   (fun acc c => acc * 10
                      + match decimal_value c with Some d => d | None => 0 end)
                   ds acc).
  { induction ds as [|c ds IH]; intros acc Hacc; simpl; [exact Hacc|].
    apply IH. destruct (decimal_value c) as [d|] eqn:E; [|lia].
    apply decimal_value_bound in E. lia. }
  apply H. lia.
Qed.

Lemma strip_prefix_app (p r : str) : strip_prefix p (p ++ r) = Some r.
Proof.
  induction p as [|x p IH]; simpl; [now destruct r|].
  now rewrite N.eqb_refl.
Qed.

Lemma strip_prefix_some (p s r : str) : strip_prefix p s = Some r -> s = p ++ r.
Proof.
  revert s; induction p as [|x p IH]; intros [|y s]; simpl; try congruence.
  destruct (N.eqb_spec x y); [|discriminate]. subst y. intros H.
  now rewrite (IH s H).
Qed.

Lemma span_app (cls : char -> bool) (s : str) :
  fst (span cls s) ++ snd (span cls s) = s
  /\ forallb cls (fst (span cls s)) = true.
Proof.
  induction s as [|c s [IH1 IH2]]; simpl; [auto|].
  destruct (cls c) eqn:E; [|auto].
  destruct (span cls s) as [a b]. simpl in *. rewrite IH1, E, IH2. auto.
Qed.

(** A run that is followed by nothing of its class is what [span] cuts
    off. *)
Lemma span_run (cls : char -> bool) (a b : str) :
  forallb cls a = true ->
  match b with [] => True | c :: _ => cls c = false end ->
  span cls (a ++ b) = (a, b).
Proof.
  intros Ha Hb. induction a as [|x a IH]; simpl in *.
  - destruct b as [|c b]; [reflexivity|]. simpl. now rewrite Hb.
  - apply andb_true_iff in Ha. destruct Ha as [Hx Ha].
    now rewrite Hx, (IH Ha).
Qed.

Lemma match_done_tail_some (s g : str) :
  match_done_tail s = Some g <->
  exists ws trail,
    s = ws ++ g ++ trail
    /\ ws <> [] /\ forallb is_space ws = true
    /\ g <> [] /\ forallb is_decimal g = true
    /\ forallb is_space trail = true.
Proof.
  unfold match_done_tail. split.
  - destruct (span_app is_space s) as [A1 A2].
    destruct (span is_space s) as [ws s1]. simpl in A1, A2.
    destruct ws as [|w ws]; [discriminate|].
    destruct (span_app is_decimal s1) as [B1 B2].
    destruct (span is_decimal s1) as [ds s2]. simpl in B1, B2.
    destruct ds as [|d ds]; [discriminate|].
    destruct (span_app is_space s2) as [C1 C2].
    destruct (span is_space s2) as [tr s3]. simpl in C1, C2.
    destruct s3 as [|x s3]; [|discriminate]. intros [= <-].
    rewrite app_nil_r in C1. subst tr.
    exists (w :: ws), s2. subst s1 s. repeat split; auto; discriminate.
  - intros (ws & trail & -> & Hws & Sws & Hg & Sg & Str).
    destruct g as [|d g]; [contradiction|].
    assert (Hd : is_decimal d = true)
      by (simpl in Sg; now apply andb_true_iff in Sg).
    rewrite (span_run is_space ws ((d :: g) ++ trail) Sws)
      by (simpl; now apply decimal_not_space).
    destruct ws as [|w ws]; [contradiction|].
    rewrite (span_run is_decimal (d :: g) trail Sg).
    + rewrite <- (app_nil_r trail) at 1.
      rewrite (span_run is_space trail [] Str I). reflexivity.
    + destruct trail as [|c trail]; [exact I|]. simpl in Str.
      apply andb_true_iff in Str. destruct Str as [Hc _].
      now apply space_not_decimal.
Qed.

Lemma match_done_some (verbs : list str) (text g : str) :
  match_done verbs text = Some g ->
  exists verb rest,
    In verb verbs /\ text = verb ++ rest /\ match_done_tail rest = Some g.
Proof.
  induction verbs as [|v vs IH]; simpl; [discriminate|].
  destruct (strip_prefix v text) as [rest|] eqn:E.
  - destruct (match_done_tail rest) as [g'|] eqn:T.
    + intros [= <-]. apply strip_prefix_some in E.
      exists v, rest. split; [now left|split; auto].
    + intros H. destruct (IH H) as (verb & r & Hin & Ht & Hm).
      exists verb, r. split; [now right|split; auto].
  - intros H. destruct (IH H) as (verb & r & Hin & Ht & Hm).
    exists verb, r. split; [now right|split; auto].
Qed.

Lemma match_done_verbs (verb rest g : str) :
  In verb DONE_VERBS -> match_done_tail rest = Some g ->
  match_done DONE_VERBS (verb ++ rest) = Some g.
Proof.
  unfold DONE_VERBS. intros [<-|[<-|[]]] T.
  - cbn [match_done]. rewrite strip_prefix_app, T. reflexivity.
  - cbn [match_done].
    replace (strip_prefix [1505; 1497; 1497; 1501]%N
               ([1505; 1497; 1497; 1502; 1514; 1497]%N ++ rest))
      with (@None str) by reflexivity.
    rewrite strip_prefix_app, T. reflexivity.
Qed.

Lemma parse_done_command_some (text : str) (n : Z) :
  parse_done_command text = Some n <->
  exists digits, done_pattern text digits /\ n = int_of_digits digits.
Proof.
  unfold parse_done_command, done_pattern. split.
  - destruct (match_done DONE_VERBS text) as [g|] eqn:E; [|discriminate].
    intros [= <-]. apply match_done_some in E.
    destruct E as (verb & rest & Hin & -> & T).
    apply match_done_tail_some in T.
    destruct T as (ws & trail & -> & H). exists g. split; [|reflexivity].
    exists verb, ws, trail. auto.
  - intros (digits & (verb & ws & trail & Hin & -> & H) & ->).
    rewrite (match_done_verbs verb (ws ++ digits ++ trail) digits Hin);
      [reflexivity|].
    apply match_done_tail_some. exists ws, trail. auto.
Qed.

(** C6, as the code has it: a text is a complete command exactly when it is
    one of the two verbs, then whitespace, then one or more decimal digits,
    then nothing but whitespace; the command carries the value of the
    digits, which is never negative and may be zero, and [on_text] hands it
    to [mark_done_by_display_number] as a display number; every other text is
    not a complete command. *)
Theorem parse_done_command_pattern `{RT : Runtime} (text : str) :
  (forall n,
     parse_done_command text = Some n <->
     exists digits, done_pattern text digits /\ n = int_of_digits digits)
  /\ (parse_done_command text = None <->
      ~ exists digits, done_pattern text digits)
  /\ (forall n, parse_done_command text = Some n -> 0 <= n)
  /\ (forall n chat message w,
        normalize_text message = text -> is_list_command text = false ->
        parse_done_command text = Some n ->
        on_text chat message w
        = (ok <- mark_done_by_display_number chat n ;;
           ret (if ok : bool then MARKED_DONE else NOT_FOUND)) w).
Proof.
  split; [|split; [|split]].
  - intros n. apply parse_done_command_some.
  - split.
    + intros E (digits & H).
      assert (E' : parse_done_command text = Some (int_of_digits digits))
        by (apply parse_done_command_some; eauto).
      congruence.
    + intros H. destruct (parse_done_command text) as [n|] eqn:E; [|reflexivity].
      exfalso. apply H. apply parse_done_command_some in E.
      destruct E as (digits & Hp & _). eauto.
  - intros n E. apply parse_done_command_some in E.
    destruct E as (digits & _ & ->). apply int_of_digits_nonneg.
  - intros n chat message w <- Hl E. unfold on_text. now rewrite Hl, E.
Qed.

(** The verb followed by the digit zero is a complete command, and the
    number it carries is not positive. *)
Lemma parse_done_command_zero :
  parse_done_command (lit "סיים 0") = Some 0
  /\ ~ (exists n, 0 < n /\ parse_done_command (lit "סיים 0") = Some n).
Proof.
  assert (E : parse_done_command (lit "סיים 0") = Some 0)
    by (vm_compute; reflexivity).
  split; [exact E|]. intros (n & Hn & E'). rewrite E in E'.
  injection E' as <-. lia.
Qed.

(* ================================================================== *)
(** * Tokens, [strip], [split] and [normalize_text] *)
(* ================================================================== *)

Lemma lstrip_app (a b : str) :
  lstrip (a ++ b) = match lstrip a with [] => lstrip b | _ => lstrip a ++ b end.
Proof.
  induction a as [|c a IH]; simpl; [reflexivity|].
  destruct (is_space c); [exact IH|reflexivity].
Qed.

(** [rstrip] by recursion on the string. *)
Lemma rstrip_cons (c : char) (r : str) :
  rstrip (c :: r)
  = match rstrip r with
    | [] => if is_space c then [] else [c]
    | _ => c :: rstrip r
    end.
Proof.
  unfold rstrip. simpl. rewrite lstrip_app.
  destruct (lstrip (rev r)) as [|x l] eqn:E; simpl.
  - destruct (is_space c); reflexivity.
  - rewrite rev_app_distr. simpl.
    destruct (rev l ++ [x]) eqn:E'; [now destruct (rev l)|reflexivity].
Qed.

Lemma rstrip_nil_spaces (r : str) :
  rstrip r = [] <-> forallb is_space r = true.
Proof.
  induction r as [|c r IH]; simpl; [now split|].
  rewrite rstrip_cons, andb_true_iff, <- IH.
  destruct (rstrip r) as [|x l], (is_space c); split; try discriminate; auto;
    intros [? ?]; discriminate.
Qed.

Lemma split_from_nonempty (cur r : str) : cur <> [] -> split_from cur r <> [].
Proof.
  revert cur; induction r as [|c r IH]; intros cur H; simpl.
  - destruct cur; [contradiction|discriminate].
  - destruct (is_space c).
    + destruct cur; [contradiction|discriminate].
    + apply IH. discriminate.
Qed.

Lemma split_from_nil_spaces (r : str) :
  split_from [] r = [] <-> forallb is_space r = true.
Proof.
  induction r as [|c r IH]; simpl; [now split|].
  destruct (is_space c) eqn:E; simpl; [exact IH|].
  split; [|discriminate]. intros H. exfalso.
  apply (split_from_nonempty [c] r); [discriminate|exact H].
Qed.

Lemma join_cons (sep p : str) (rest : list str) :
  join sep (p :: rest)
  = match rest with [] => p | _ => p ++ sep ++ join sep rest end.
Proof. reflexivity. Qed.

(** [split] and [rstrip] read the same tokens: inside a token that has
    begun ([cur]), and between tokens. *)
Lemma join_split_from (u : str) :
  (forall cur, cur <> [] ->
     join [SPACE] (split_from cur u) = rev cur ++ sub_spaces false (rstrip u))
  /\ (rstrip u <> [] ->
      join [SPACE] (split_from [] u) = sub_spaces true (rstrip u)).
Proof.
  induction u as [|c r [IHS IHT]].
  - split.
    + intros cur H. simpl. destruct cur; [contradiction|].
      now rewrite app_nil_r.
    + intros H. contradiction.
  - split.
    + intros cur H. rewrite rstrip_cons. simpl.
      destruct (is_space c) eqn:E.
      * destruct cur as [|x cur]; [contradiction|]. rewrite join_cons.
        destruct (rstrip r) as [|y l] eqn:R.
        -- assert (S0 : split_from [] r = [])
             by (apply split_from_nil_spaces, rstrip_nil_spaces; exact R).
           rewrite S0. simpl. now rewrite app_nil_r.
        -- destruct (split_from [] r) as [|p ps] eqn:S0.
           ++ apply split_from_nil_spaces, rstrip_nil_spaces in S0.
              congruence.
           ++ rewrite IHT by discriminate. simpl. rewrite E. reflexivity.
      * rewrite IHS by discriminate. simpl. rewrite <- app_assoc. simpl.
        destruct (rstrip r); simpl; now rewrite E.
    + intros H. rewrite rstrip_cons in *. simpl.
      destruct (is_space c) eqn:E.
      * destruct (rstrip r) as [|y l] eqn:R; [contradiction|].
        rewrite IHT by discriminate. simpl. now rewrite E.
      * rewrite IHS by discriminate. simpl.
        destruct (rstrip r); simpl; now rewrite E.
Qed.

Lemma split_lstrip (s : str) : split (lstrip s) = split s.
Proof.
  unfold split. induction s as [|c r IH]; simpl; [reflexivity|].
  destruct (is_space c) eqn:E; [exact IH|]. simpl. now rewrite E.
Qed.

(** The normalized text is its tokens joined by single spaces. *)
Lemma normalize_text_join (s : str) :
  normalize_text s = join [SPACE] (split s).
Proof.
  unfold normalize_text, strip. rewrite <- split_lstrip.
  destruct (lstrip s) as [|c r] eqn:L; [reflexivity|].
  assert (E : is_space c = false).
  { destruct s as [|x s]; [discriminate|]. revert L.
    induction (x :: s) as [|y l IH]; simpl; [discriminate|].
    destruct (is_space y) eqn:Ey; [exact IH|]. intros [= <- _]. exact Ey. }
  unfold split. simpl. rewrite E.
  destruct (join_split_from r) as [HS _]. rewrite (HS [c]) by discriminate.
  rewrite rstrip_cons, E. destruct (rstrip r); simpl; now rewrite E.
Qed.

Lemma rev_token (cur : str) :
  cur <> [] -> forallb (fun c => negb (is_space c)) cur = true ->
  is_token (rev cur).
Proof.
  intros H F. split.
  - intros E. apply H. rewrite <- (rev_involutive cur), E. reflexivity.
  - rewrite forallb_forall in *. intros c Hc. apply F. now apply in_rev.
Qed.

Lemma split_from_tokens (s cur : str) :
  forallb (fun c => negb (is_space c)) cur = true ->
  Forall is_token (split_from cur s).
Proof.
  revert cur; induction s as [|c r IH]; intros cur F; simpl.
  - destruct cur as [|x cur]; constructor; [|constructor].
    apply rev_token; [discriminate|exact F].
  - destruct (is_space c) eqn:E.
    + destruct cur as [|x cur]; [now apply IH|].
      constructor; [|now apply IH].
      apply rev_token; [discriminate|exact F].
    + apply IH. simpl. now rewrite E.
Qed.

Lemma split_tokens (s : str) : Forall is_token (split s).
Proof. now apply split_from_tokens. Qed.

Lemma token_head (t : str) :
  is_token t -> exists c b, t = c :: b /\ is_space c = false.
Proof.
  intros [H F]. destruct t as [|c b]; [contradiction|]. exists c, b.
  simpl in F. apply andb_true_iff in F. destruct F as [F _].
  now apply negb_true_iff in F.
Qed.

Lemma token_last (t : str) :
  is_token t -> exists a d, t = a ++ [d] /\ is_space d = false.
Proof.
  intros [H F]. destruct (exists_last H) as (a & d & ->). exists a, d.
  rewrite forallb_app in F. apply andb_true_iff in F. destruct F as [_ F].
  simpl in F. rewrite andb_true_r in F. now apply negb_true_iff in F.
Qed.

Lemma strip_ends (z b a : str) (c d : char) :
  z = c :: b -> z = a ++ [d] -> is_space c = false -> is_space d = false ->
  strip z = z.
Proof.
  intros Hc Hd Ec Ed. unfold strip.
  assert (L : lstrip z = z) by (rewrite Hc; simpl; now rewrite Ec).
  rewrite L. unfold rstrip. rewrite Hd at 1. rewrite rev_app_distr. simpl.
  rewrite Ed. change (d :: rev a) with (rev [d] ++ rev a).
  now rewrite <- rev_app_distr, rev_involutive.
Qed.

Lemma join_tokens_ends (ws : list str) :
  ws <> [] -> Forall is_token ws ->
  (exists c b, join [SPACE] ws = c :: b /\ is_space c = false)
  /\ (exists a d, join [SPACE] ws = a ++ [d] /\ is_space d = false).
Proof.
  induction ws as [|t rest IH]; [contradiction|]. intros _ F.
  inversion F as [|? ? Ht Frest]; subst. rewrite join_cons.
  destruct rest as [|t' rest'].
  - split; [now apply token_head|now apply token_last].
  - destruct (IH ltac:(discriminate) Frest) as [_ (a & d & Ea & Ed)].
    destruct (token_head t Ht) as (c & b & -> & Ec). split.
    + exists c, (b ++ [SPACE] ++ join [SPACE] (t' :: rest')). auto.
    + exists ((c :: b) ++ [SPACE] ++ a), d. rewrite Ea.
      rewrite <- !app_assoc. auto.
Qed.

Lemma strip_join_tokens (ws : list str) :
  Forall is_token ws -> strip (join [SPACE] ws) = join [SPACE] ws.
Proof.
  intros F. destruct ws as [|t rest]; [reflexivity|].
  destruct (join_tokens_ends (t :: rest) ltac:(discriminate) F)
    as [(c & b & Ec & Hc) (a & d & Ed & Hd)].
  eapply strip_ends; eauto.
Qed.

Lemma strip_token (t : str) : is_token t -> strip t = t.
Proof.
  intros H. apply (strip_join_tokens [t]). constructor; [exact H|constructor].
Qed.

Lemma dict_mem_section (k : str) :
  dict_mem SECTION_PRIORITY k = true <-> In k SECTION_ORDER.
Proof.
  unfold dict_mem, SECTION_PRIORITY, SECTION_ORDER. simpl.
  rewrite !orb_true_iff, !str_eqb_eq. intuition congruence.
Qed.

Lemma last_word_app (ws : list str) (k : str) : last_word (ws ++ [k]) = k.
Proof. unfold last_word. apply last_last. Qed.

Lemma but_last_app (ws : list str) (k : str) : but_last (ws ++ [k]) = ws.
Proof. unfold but_last. apply removelast_last. Qed.

Lemma join_nil_tokens (ws : list str) :
  Forall is_token ws -> join [SPACE] ws = [] -> ws = [].
Proof.
  intros F E. destruct ws as [|t rest]; [reflexivity|].
  destruct (join_tokens_ends (t :: rest) ltac:(discriminate) F)
    as [(c & b & Ec & _) _].
  congruence.
Qed.

(** [parse_section_from_text] on a text that is its tokens joined by single
    spaces. *)
Lemma parse_section_last_keyword (ws : list str) (k : str) :
  Forall is_token (ws ++ [k]) -> In k SECTION_ORDER ->
  split (join [SPACE] (ws ++ [k])) = ws ++ [k] ->
  parse_section_from_text (join [SPACE] (ws ++ [k])) = (k, join [SPACE] ws).
Proof.
  intros F Hk Hs. unfold parse_section_from_text.
  rewrite (strip_join_tokens _ F).
  destruct (join [SPACE] (ws ++ [k])) as [|c b] eqn:J.
  - apply join_nil_tokens in J; [|exact F]. now destruct ws.
  - cbv beta iota zeta. rewrite Hs, last_word_app, but_last_app.
    apply Forall_app in F. destruct F as [Fw Fk].
    inversion Fk as [|? ? Hkt _]; subst.
    rewrite (strip_token k Hkt).
    assert (M : dict_mem SECTION_PRIORITY k = true)
      by now apply dict_mem_section.
    rewrite M, (strip_join_tokens ws Fw).
    now destruct (join [SPACE] ws).
Qed.

Lemma parse_section_no_keyword (words : list str) :
  Forall is_token words ->
  split (join [SPACE] words) = words ->
  (forall ws k, words = ws ++ [k] -> ~ In k SECTION_ORDER) ->
  parse_section_from_text (join [SPACE] words)
  = (GENERAL, join [SPACE] words).
Proof.
  intros F Hs Hn. unfold parse_section_from_text.
  rewrite (strip_join_tokens _ F).
  destruct (join [SPACE] words) as [|c b] eqn:J; [reflexivity|].
  cbv beta iota zeta. rewrite Hs.
  destruct words as [|t rest _] using rev_ind; [discriminate|].
  rewrite last_word_app.
  apply Forall_app in F. destruct F as [_ Ft].
  inversion Ft as [|? ? Htt _]; subst. rewrite (strip_token t Htt).
  destruct (dict_mem SECTION_PRIORITY t) eqn:M; [|reflexivity].
  apply dict_mem_section in M. exfalso. eapply Hn; eauto.
Qed.

Lemma split_from_token_app (a b cur : str) :
  forallb (fun c => negb (is_space c)) a = true ->
  split_from cur (a ++ b) = split_from (rev a ++ cur) b.
Proof.
  revert cur; induction a as [|x a IH]; intros cur F; [reflexivity|].
  simpl in F. apply andb_true_iff in F. destruct F as [Fx Fa].
  apply negb_true_iff in Fx. simpl. rewrite Fx, (IH _ Fa), <- app_assoc.
  reflexivity.
Qed.

(** Splitting what was joined by single spaces gives the tokens back. *)
Lemma split_join_tokens (ws : list str) :
  Forall is_token ws -> split (join [SPACE] ws) = ws.
Proof.
  unfold split. induction ws as [|t rest IH]; intros F; [reflexivity|].
  inversion F as [|? ? [Hne Ft] Frest]; subst. rewrite join_cons.
  assert (R : rev t <> []).
  { intros E. apply Hne. rewrite <- (rev_involutive t), E. reflexivity. }
  destruct rest as [|t' rest'].
  - rewrite <- (app_nil_r t) at 1. rewrite (split_from_token_app _ _ _ Ft).
    rewrite app_nil_r. simpl. destruct (rev t) eqn:E; [contradiction|].
    now rewrite <- E, rev_involutive.
  - rewrite (split_from_token_app _ _ _ Ft), app_nil_r.
    change (split_from (rev t) ([SPACE] ++ join [SPACE] (t' :: rest')))
      with (match rev t with
            | [] => split_from [] (join [SPACE] (t' :: rest'))
            | _ => rev (rev t) :: split_from [] (join [SPACE] (t' :: rest'))
            end).
    destruct (rev t) eqn:E; [contradiction|].
    now rewrite <- E, rev_involutive, (IH Frest).
Qed.

Lemma split_normalize_text (s : str) : split (normalize_text s) = split s.
Proof. rewrite normalize_text_join. apply split_join_tokens, split_tokens. Qed.

(* ================================================================== *)
(** * Classification of a new task *)
(* ================================================================== *)

Section NewTask.
Context `{RT : Runtime}.

(** The case folding, and what is used of it: the section keywords have no
    other spelling in another case. *)
Variable casefold : str -> str.
Hypothesis keywords_caseless :
  forall s k, In k SECTION_ORDER -> casefold s = casefold k -> s = k.

Lemma matches_keyword_section (token : str) :
  matches_keyword casefold token <-> In token SECTION_ORDER.
Proof.
  split.
  - intros (k & Hk & E). now rewrite (keywords_caseless token k Hk E).
  - intros H. exists token. auto.
Qed.

(** C5: the normalized text of a message that is a new task is its
    whitespace-delimited tokens joined by single spaces; when the last token
    matches a section keyword without regard to case, the section is that
    token and the body is the text without it; otherwise the section is
    General and the body is the whole text; an empty body makes [on_text]
    answer with the usage text and create no task, and a body that is not
    empty is stored with [add_task]. *)
Theorem new_task_classification (chat : Z) (message : str) (w : World) :
  is_list_command (normalize_text message) = false ->
  parse_done_command (normalize_text message) = None ->
  let text := normalize_text message in
  let words := split text in
  text = join [SPACE] words /\ Forall is_token words /\ strip text = text
  /\ (forall ws k, words = ws ++ [k] -> matches_keyword casefold k ->
        In k SECTION_ORDER
        /\ parse_section_from_text text = (k, join [SPACE] ws))
  /\ ((forall ws k, words = ws ++ [k] -> ~ matches_keyword casefold k) ->
      parse_section_from_text text = (GENERAL, text))
  /\ (snd (parse_section_from_text text) = [] ->
      on_text chat message w = (Ok USAGE, w))
  /\ (snd (parse_section_from_text text) <> [] ->
      on_text chat message w
      = (_ <- add_task chat (fst (parse_section_from_text text))
                (snd (parse_section_from_text text)) ;;
         ret (lit "נוסף ✅ <b>"
              ++ html_escape (fst (parse_section_from_text text))
              ++ lit "</b>")) w).
Proof.
  intros Hl Hd text words.
  assert (Ew : words = split message) by apply split_normalize_text.
  assert (Et : text = join [SPACE] words)
    by (rewrite Ew; apply normalize_text_join).
  assert (F : Forall is_token words) by apply split_tokens.
  assert (Hs : split (join [SPACE] words) = words)
    by now apply split_join_tokens.
  split; [exact Et|]. split; [exact F|].
  split; [rewrite Et; now apply strip_join_tokens|].
  split; [|split; [|split]].
  - intros ws k E M. apply matches_keyword_section in M.
    split; [exact M|]. rewrite Et, E. rewrite E in F, Hs.
    now apply parse_section_last_keyword.
  - intros H. rewrite Et. apply parse_section_no_keyword; auto.
    intros ws k E M. apply (H ws k E). now apply matches_keyword_section.
  - unfold text. intros E. unfold on_text. rewrite Hl, Hd.
    destruct (parse_section_from_text (normalize_text message)) as [sec body].
    simpl in E. now subst body.
  - unfold text. intros E. unfold on_text. rewrite Hl, Hd.
    destruct (parse_section_from_text (normalize_text message)) as [sec body].
    simpl in *. destruct body; [contradiction|reflexivity].
Qed.

End NewTask.

Lemma ascii_lower_keywords (s k : str) :
  In k SECTION_ORDER -> ascii_lower s = ascii_lower k -> s = k.
Proof.
  assert (G : forall c d : N,
            (1488 <= d)%N ->
            (if (65 <=? c) && (c <=? 90) then c + 32 else c)%N = d -> c = d).
  { intros c d Hd. destruct (N.leb_spec 65 c), (N.leb_spec c 90); simpl; lia. }
  unfold SECTION_ORDER. intros [<-|[<-|[<-|[<-|[]]]]]; simpl;
    repeat (destruct s as [|? s]; try discriminate); simpl; intros E;
    injection E; intros;
    repeat match goal with
    | H : (if _ then _ else _) = _ |- _ => apply G in H; [subst|lia]
    end; reflexivity.
Qed.

(** The message "call bank" followed by the keyword of the urgent
    section. *)
Lemma new_task_classification_witness :
  let message := lit "call  bank דחוף" in
  let w := mk_world [] 0 FixedOffset.hourly 0 in
  let text := normalize_text message in
  let words := split text in
  is_list_command text = false /\ parse_done_command text = None
  /\ text = join [SPACE] words /\ Forall is_token words /\ strip text = text
  /\ (forall ws k, words = ws ++ [k] -> matches_keyword ascii_lower k ->
        In k SECTION_ORDER
        /\ parse_section_from_text text = (k, join [SPACE] ws))
  /\ ((forall ws k, words = ws ++ [k] -> ~ matches_keyword ascii_lower k) ->
      parse_section_from_text text = (GENERAL, text))
  /\ (snd (parse_section_from_text text) = [] ->
      @on_text FixedOffset.runtime 7 message w = (Ok USAGE, w))
  /\ (snd (parse_section_from_text text) <> [] ->
      @on_text FixedOffset.runtime 7 message w
      = (_ <- @add_task FixedOffset.runtime 7
                (fst (parse_section_from_text text))
                (snd (parse_section_from_text text)) ;;
         ret (lit "נוסף ✅ <b>"
              ++ html_escape (fst (parse_section_from_text text))
              ++ lit "</b>")) w).
Proof.
  intros message w text words.
  assert (Hl : is_list_command (normalize_text message) = false)
    by (vm_compute; reflexivity).
  assert (Hd : parse_done_command (normalize_text message) = None)
    by (vm_compute; reflexivity).
  split; [exact Hl|]. split; [exact Hd|].
  exact (@new_task_classification FixedOffset.runtime ascii_lower
           ascii_lower_keywords 7 message w Hl Hd).
Defined.

(* ================================================================== *)
(** * The open-list digest *)
(* ================================================================== *)

Lemma dict_get_dict_append (d : list (str * list str)) (k s item : str) :
  dict_get (dict_append d k item) s []
  = if str_eqb s k then dict_get d s [] ++ [item] else dict_get d s [].
Proof.
  induction d as [|[k' items] r IH]; simpl.
  - destruct (str_eqb s k); reflexivity.
  - destruct (str_eqb k k') eqn:Ek; simpl.
    + apply str_eqb_eq in Ek. subst k'.
      destruct (str_eqb s k); reflexivity.
    + destruct (str_eqb s k') eqn:Es; [|exact IH].
      apply str_eqb_eq in Es. subst k'.
      assert (E : str_eqb s k = false).
      { apply str_eqb_neq. apply str_eqb_neq in Ek. congruence. }
      now rewrite E.
Qed.


Lemma enumerate_from_length {A} (start : Z) (l : list A) :
  length (enumerate_from start l) = length l.
Proof.
  revert start; induction l as [|x l IH]; intros start; simpl; auto.
Qed.

Lemma numbered_length (chat : Z) (w : World) :
  length (List.map number_row
            (enumerate_from 1 (sorted key_ltb key (open_rows chat w))))
  = length (open_tasks chat w).
Proof.
  rewrite length_map, enumerate_from_length, sorted_length.
  unfold open_rows. apply length_map.
Qed.

Lemma advance_tick (w : World) (n : nat) :
  advance (tick w) n = advance w (S n).
Proof. unfold advance, tick. simpl. f_equal. lia. Qed.

Lemma advance_0 (w : World) : advance w 0 = w.
Proof. unfold advance. rewrite Nat.add_0_r. apply world_eta. Qed.

Section OpenDigest.
Context `{RT : Runtime}.

Lemma is_older_than_week_readable (created : str) (w : World) :
  fromisoformat_tz created <> None ->
  is_older_than_week created w
  = (Ok (aging (clock w (ticks w)) created), tick w).
Proof.
  intros H. unfold is_older_than_week, aging.
  destruct (fromisoformat_tz created); [reflexivity|contradiction].
Qed.

(** The first loop appends to the group of each row its item. *)
Lemma group_items_readable (numbered : list numbered_row) :
  forall groups w,
    Forall (fun x => fromisoformat_tz (numbered_created x) <> None) numbered ->
    group_items numbered groups w
    = (Ok (fold_left
             (fun g p => dict_append g (numbered_section (snd p))
                           (row_item (clock w) p))
             (indexed_rows (ticks w) numbered) groups),
       advance w (length numbered)).
Proof.
  induction numbered as [|[[[[n i] s] b] c] rest IH]; intros groups w F.
  - simpl. now rewrite advance_0.
  - inversion F as [|? ? Hx Frest]; subst. simpl in Hx.
    cbn [group_items]. unfold bind.
    rewrite (is_older_than_week_readable c w Hx).
    rewrite (IH _ (tick w) Frest), advance_tick. reflexivity.
Qed.

Lemma grouped_items (clk : nat -> datetime) (sec : str)
    (rows : list (nat * numbered_row)) :
  forall groups,
    dict_get
      (fold_left
         (fun g p => dict_append g (numbered_section (snd p)) (row_item clk p))
         rows groups) sec []
    = dict_get groups sec [] ++ section_items clk sec rows.
Proof.
  unfold section_items.
  induction rows as [|p rows IH]; intros groups; simpl.
  - now rewrite app_nil_r.
  - rewrite IH, dict_get_dict_append.
    destruct (str_eqb sec (numbered_section (snd p))) eqn:E.
    + apply str_eqb_eq in E. rewrite <- E, str_eqb_refl. simpl.
      now rewrite <- app_assoc.
    + assert (E' : str_eqb (numbered_section (snd p)) sec = false).
      { apply str_eqb_neq. apply str_eqb_neq in E. congruence. }
      now rewrite E'.
Qed.

Lemma empty_groups (sec : str) :
  dict_get (List.map (fun s => (s, @nil str)) SECTION_ORDER) sec [] = [].
Proof.
  unfold SECTION_ORDER. simpl.
  repeat match goal with |- context [str_eqb ?a ?b] =>
    destruct (str_eqb a b); try reflexivity end.
Qed.

Lemma section_lines_block (clk : nat -> datetime)
    (rows : list (nat * numbered_row)) (groups : list (str * list str))
    (lines : list str) (sec : str) :
  dict_get groups sec [] = section_items clk sec rows ->
  section_lines groups lines sec = lines ++ section_block clk rows sec.
Proof.
  intros E. unfold section_lines, section_block. rewrite E.
  destruct (section_items clk sec rows); rewrite <- app_assoc; reflexivity.
Qed.

Lemma ordered_readable (chat : Z) (w : World) :
  created_readable chat w ->
  Forall (fun x => fromisoformat_tz (numbered_created x) <> None)
    (List.map number_row
       (enumerate_from 1 (sorted key_ltb key (open_rows chat w)))).
Proof.
  intros H. apply Forall_forall. intros x Hx.
  assert (Hr : In (row_of_numbered x) (open_rows chat w)).
  { eapply Permutation_in; [apply (sorted_perm key_ltb key)|].
    rewrite <- (numbered_rows 1). now apply in_map. }
  unfold open_rows in Hr. apply in_map_iff in Hr.
  destruct Hr as (t & E & Ht). destruct x as [[[[n i] s] b] c].
  simpl in *. injection E as _ _ _ <-. now apply H.
Qed.

(** What [format_open_tasks_message] returns when there is an open task. *)
Lemma format_open_tasks_message_digest (chat : Z) (w : World) :
  open_tasks chat w <> [] -> created_readable chat w ->
  let numbered :=
    List.map number_row
      (enumerate_from 1 (sorted key_ltb key (open_rows chat w))) in
  format_open_tasks_message chat w
  = (Ok (open_digest (clock w) (indexed_rows (ticks w) numbered)),
     advance w (length numbered)).
Proof.
  intros Hne Hr numbered. unfold format_open_tasks_message, bind.
  rewrite ordered_open_tasks_eq. fold numbered.
  destruct numbered as [|x rest] eqn:En.
  - exfalso. apply Hne. apply (f_equal (@length _)) in En.
    unfold numbered in En.
    rewrite numbered_length in En. now destruct (open_tasks chat w).
  - rewrite <- En.
    rewrite group_items_readable by (unfold numbered; now apply ordered_readable).
    unfold ret, open_digest. do 3 f_equal.
    set (rows := indexed_rows (ticks w) numbered).
    set (groups := fold_left _ rows _).
    assert (G : forall sec, dict_get groups sec [] = section_items (clock w) sec rows).
    { intros sec. unfold groups. now rewrite grouped_items, empty_groups. }
    unfold SECTION_ORDER. cbn [fold_left flat_map].
    rewrite !(section_lines_block (clock w) rows) by apply G.
    rewrite app_nil_r, <- !app_assoc. reflexivity.
Qed.

End OpenDigest.

Lemma in_numbered (r : open_row) (rows : list open_row) (start : Z) :
  In r rows ->
  exists n, In (number_row (n, r))
              (List.map number_row (enumerate_from start rows)).
Proof.
  revert start; induction rows as [|x rows IH]; intros start; [contradiction|].
  intros [<-|H].
  - exists start. now left.
  - destruct (IH (start + 1) H) as (n & Hn). exists n. now right.
Qed.

Section OpenDigestClaims.
Context `{RT : Runtime}.

Lemma in_indexed_rows (x : numbered_row) (numbered : list numbered_row)
    (k0 : nat) :
  In x numbered -> exists k, In (k, x) (indexed_rows k0 numbered).
Proof.
  unfold indexed_rows.
  revert k0; induction numbered as [|y l IH]; intros k0; [contradiction|].
  intros [<-|H].
  - exists k0. now left.
  - destruct (IH (S k0) H) as (k & Hk). exists k. now right.
Qed.



End OpenDigestClaims.

(* ================================================================== *)
(** * Tasks of a section that is none of the four *)
(* ================================================================== *)

Lemma filter_filter_implied {A} (f g : A -> bool) (l : list A) :
  (forall x, f x = true -> g x = true) ->
  filter f (filter g l) = filter f l.
Proof.
  intros H. induction l as [|x l IH]; simpl; [reflexivity|].
  destruct (g x) eqn:G; simpl.
  - destruct (f x); now rewrite IH.
  - destruct (f x) eqn:F; [|exact IH]. rewrite (H x F) in G. discriminate.
Qed.

Lemma known_section_In (s : str) :
  known_section s = true <-> In s SECTION_ORDER.
Proof.
  unfold known_section. rewrite existsb_exists. split.
  - intros (k & Hk & E). apply str_eqb_eq in E. now subst.
  - intros H. exists s. split; [exact H|apply str_eqb_refl].
Qed.

Lemma nth_error_numbered (rows : list open_row) (start : Z) (i : nat) :
  nth_error (List.map number_row (enumerate_from start rows)) i
  = option_map (fun r => number_row (start + Z.of_nat i, r)) (nth_error rows i).
Proof.
  revert start i; induction rows as [|x rows IH]; intros start [|i];
    cbn [enumerate_from List.map nth_error option_map]; try reflexivity.
  - now rewrite Z.add_0_r.
  - rewrite IH, Nat2Z.inj_succ.
    replace (start + 1 + Z.of_nat i) with (start + Z.succ (Z.of_nat i)) by lia.
    reflexivity.
Qed.

Section UnknownSection.
Context `{RT : Runtime}.

Lemma section_block_known (clk : nat -> datetime)
    (rows : list (nat * numbered_row)) (sec : str) :
  In sec SECTION_ORDER ->
  section_block clk rows sec
  = section_block clk
      (filter (fun p => known_section (numbered_section (snd p))) rows) sec.
Proof.
  intros Hsec. unfold section_block, section_items.
  rewrite filter_filter_implied; [reflexivity|].
  intros p E. apply str_eqb_eq in E. rewrite E.
  now apply known_section_In.
Qed.

(** Rows of other sections have no part in the digest. *)
Lemma open_digest_known (clk : nat -> datetime)
    (rows : list (nat * numbered_row)) :
  open_digest clk rows
  = open_digest clk
      (filter (fun p => known_section (numbered_section (snd p))) rows).
Proof.
  unfold open_digest, SECTION_ORDER. cbn [flat_map].
  rewrite (section_block_known clk rows URGENT),
    (section_block_known clk rows TODAY),
    (section_block_known clk rows TOMORROW),
    (section_block_known clk rows GENERAL);
    try reflexivity; unfold SECTION_ORDER; simpl; auto.
Qed.

(** C10: an open task whose section is none of the four has a display
    number, larger than the number of every task of the four sections; the
    listing is the digest of the other rows alone, so that no item of it
    carries that number. *)
Theorem unknown_section_omitted (chat : Z) (w : World) (t : Task) :
  created_readable chat w ->
  In t (open_tasks chat w) -> known_section (section t) = false ->
  exists numbered out k n,
    ordered_open_tasks_with_numbers chat w = (Ok numbered, w)
    /\ format_open_tasks_message chat w
       = (Ok out, advance w (length numbered))
    /\ In (k, (n, task_id t, section t, text t, created_at t))
         (indexed_rows (ticks w) numbered)
    /\ 1 <= n <= Z.of_nat (length (open_tasks chat w))
    /\ (forall x, In x numbered ->
          known_section (numbered_section x) = true -> display_no_of x < n)
    /\ out = open_digest (clock w)
               (filter (fun p => known_section (numbered_section (snd p)))
                  (indexed_rows (ticks w) numbered))
    /\ (forall p,
          In p (filter (fun p => known_section (numbered_section (snd p)))
                  (indexed_rows (ticks w) numbered)) ->
          display_no_of (snd p) <> n).
Proof.
  intros Hr Ht Hu.
  set (rows := sorted key_ltb key (open_rows chat w)).
  set (numbered := List.map number_row (enumerate_from 1 rows)).
  assert (Hin : In (open_row_of t) rows).
  { eapply Permutation_in; [symmetry; apply (sorted_perm key_ltb key)|].
    now apply in_map. }
  destruct (In_nth_error _ _ Hin) as (j & Hj).
  pose (n := 1 + Z.of_nat j).
  assert (Hx : nth_error numbered j
               = Some (n, task_id t, section t, text t, created_at t)).
  { unfold numbered. rewrite nth_error_numbered, Hj. reflexivity. }
  assert (Hlen : (j < length (open_tasks chat w))%nat).
  { rewrite <- (numbered_length chat w). fold rows. fold numbered.
    apply nth_error_Some. rewrite Hx. discriminate. }
  destruct (in_indexed_rows _ _ (ticks w) (nth_error_In _ _ Hx)) as (k & Hk).
  assert (Hbefore : forall x, In x numbered ->
            known_section (numbered_section x) = true -> display_no_of x < n).
  { intros x Hxin Hknown. destruct (In_nth_error _ _ Hxin) as (i & Hi).
    unfold numbered in Hi. rewrite nth_error_numbered in Hi.
    destruct (nth_error rows i) as [r|] eqn:Er; [|discriminate].
    assert (Ex : x = number_row (1 + Z.of_nat i, r))
      by (cbn [option_map] in Hi; congruence).
    clear Hi. subst x. destruct r as [[[ri rs] rb] rc].
    cbn [number_row display_no_of numbered_section] in *.
    assert (Hrank : section_rank rs < section_rank (section t)).
    { apply known_section_In in Hknown.
      pose proof (section_rank_known rs Hknown).
      rewrite (section_rank_unknown (section t)); [lia|].
      intros Hk'. apply known_section_In in Hk'. congruence. }
    destruct (Nat.lt_trichotomy i j) as [H|[H|H]]; [unfold n; lia| |].
    - subst i. rewrite Hj in Er. injection Er as _ E _ _.
      rewrite E in Hrank. lia.
    - pose proof (strongly_sorted_nth _ _ (sorted_rows_precedes _)
                    j i _ _ H Hj Er) as P.
      unfold precedes in P.
      cbn [open_row_of row_section row_created row_id] in P. lia. }
  exists numbered, (open_digest (clock w) (indexed_rows (ticks w) numbered)), k, n.
  split; [apply ordered_open_tasks_eq|].
  split; [apply format_open_tasks_message_digest; auto;
          intros E; rewrite E in Ht; contradiction|].
  split; [exact Hk|]. split; [unfold n; lia|]. split; [exact Hbefore|].
  split; [apply open_digest_known|].
  intros p Hp E. apply filter_In in Hp. destruct Hp as [Hp Hknown].
  assert (Hsnd : In (snd p) numbered).
  { unfold indexed_rows in Hp. destruct p as [kp xp].
    now apply in_combine_r in Hp. }
  specialize (Hbefore (snd p) Hsnd Hknown). lia.
Qed.

End UnknownSection.

(* ================================================================== *)
(** * The completed-range digest *)
(* ================================================================== *)






Lemma count_line_zero : 
  count_line 0
  = [NEWLINE] ++ lit "😅 <b>סיימת היום 0 משימות יא אפס</b>" ++ [NEWLINE].
Proof. reflexivity. Qed.


Section DoneDigest.
Context `{RT : Runtime}.



End DoneDigest.

Example strftime_leap_day : strftime_dmy (midnight_of 738945) = lit "29/02/2024".
Proof. vm_compute. reflexivity. Qed.

(* ================================================================== *)
(** * The digests on a table of four tasks *)
(* ================================================================== *)

Section OnDemoWorld.
#[local] Existing Instance FixedOffset.runtime.

Lemma created_readable_forallb (chat : Z) (w : World) :
  forallb (fun t => match fromisoformat_tz (created_at t) with
                    | Some _ => true
                    | None => false
                    end) (open_tasks chat w) = true ->
  created_readable chat w.
Proof.
  intros H t Ht. rewrite forallb_forall in H. specialize (H t Ht).
  destruct (fromisoformat_tz (created_at t)); [discriminate|discriminate H].
Qed.

Lemma demo_created_readable : created_readable 7 FixedOffset.demo_world.
Proof. apply created_readable_forallb. vm_compute. reflexivity. Qed.


Lemma demo_misc_open : In FixedOffset.demo_misc (open_tasks 7 FixedOffset.demo_world).
Proof.
  unfold open_tasks. apply filter_In. split; [|reflexivity].
  cbv [FixedOffset.demo_world FixedOffset.demo_tasks tasks In]. auto.
Qed.


(** The task of the section "misc" in the table of four tasks. *)
Lemma unknown_section_omitted_witness :
  let chat := 7 in
  let w := FixedOffset.demo_world in
  let t := FixedOffset.demo_misc in
  created_readable chat w /\ In t (open_tasks chat w)
  /\ known_section (section t) = false
  /\ exists numbered out k n,
       ordered_open_tasks_with_numbers chat w = (Ok numbered, w)
       /\ format_open_tasks_message chat w
          = (Ok out, advance w (length numbered))
       /\ In (k, (n, task_id t, section t, text t, created_at t))
            (indexed_rows (ticks w) numbered)
       /\ 1 <= n <= Z.of_nat (length (open_tasks chat w))
       /\ (forall x, In x numbered ->
             known_section (numbered_section x) = true -> display_no_of x < n)
       /\ out = open_digest (clock w)
                  (filter (fun p => known_section (numbered_section (snd p)))
                     (indexed_rows (ticks w) numbered))
       /\ (forall p,
             In p (filter (fun p => known_section (numbered_section (snd p)))
                     (indexed_rows (ticks w) numbered)) ->
             display_no_of (snd p) <> n).
Proof.
  intros chat w t.
  assert (Hu : known_section (section t) = false) by reflexivity.
  split; [exact demo_created_readable|]. split; [exact demo_misc_open|].
  split; [exact Hu|].
  exact (unknown_section_omitted chat w t demo_created_readable
           demo_misc_open Hu).
Defined.

(** The listing of the table of four tasks, read five hours after the
    first task was created: the task of the section "misc" has the number 3
    and no line. *)
Example demo_listing :
  fst (format_open_tasks_message 7 FixedOffset.demo_world)
  = Ok (header OPEN_TITLE ++ [NEWLINE]
        ++ section_title URGENT ++ [NEWLINE]
        ++ lit "• <b>1</b> — call &lt;bank&gt;" ++ [NEWLINE]
        ++ section_title TODAY ++ [NEWLINE] ++ EMPTY_SECTION ++ [NEWLINE]
        ++ section_title TOMORROW ++ [NEWLINE] ++ EMPTY_SECTION ++ [NEWLINE]
        ++ section_title GENERAL ++ [NEWLINE]
        ++ lit "• <b>2</b> — buy milk").
Proof. vm_compute. reflexivity. Qed.

(** After one more urgent task the listing has its escaped body in the
    urgent section, behind the older urgent task. *)
Example demo_round_trip :
  strip FixedOffset.demo_body = FixedOffset.demo_body
  /\ fst (format_open_tasks_message 7 FixedOffset.demo_world_added)
     = Ok (header OPEN_TITLE ++ [NEWLINE]
           ++ section_title URGENT ++ [NEWLINE]
           ++ lit "• <b>1</b> — call &lt;bank&gt;" ++ [NEWLINE]
           ++ lit "• <b>2</b> — feed &lt;the&gt; cat" ++ [NEWLINE]
           ++ section_title TODAY ++ [NEWLINE] ++ EMPTY_SECTION ++ [NEWLINE]
           ++ section_title TOMORROW ++ [NEWLINE] ++ EMPTY_SECTION ++ [NEWLINE]
           ++ section_title GENERAL ++ [NEWLINE]
           ++ lit "• <b>3</b> — buy milk").
Proof. vm_compute. split; reflexivity. Qed.

(** The summary of 2024-01-01 on the same table. *)
Example demo_summary :
  fst (format_done_summary_for_range 7
         (midnight_of 738886) (midnight_of 738887) FixedOffset.demo_world)
  = Ok (header (lit "📅 סיכום משימות — 01/01/2024") ++ [NEWLINE]
        ++ [NEWLINE] ++ lit "🔥 <b>סיימת היום 1 משימות</b>" ++ [NEWLINE]
        ++ [NEWLINE] ++ lit "• pay rent").
Proof. vm_compute. reflexivity. Qed.

End OnDemoWorld.

(* ================================================================== *)
(** * The scenarios of the specification, run on the model *)
(* ================================================================== *)

Section Scenarios.
#[local] Existing Instance FixedOffset.runtime.

Let empty_world : World := mk_world [] 0 FixedOffset.hourly 0.

Let three_tasks : World :=
  run_all [OnText 7 (lit "buy milk"); OnText 7 (lit "call bank דחוף");
           OnText 7 (lit "pay  rent היום")] empty_world.

Example utf8_urgent : URGENT = [0x5d3; 0x5d7; 0x5d5; 0x5e3]%N.
Proof. reflexivity. Qed.

Example parse_section_demo :
  parse_section_from_text (lit "call bank דחוף") = (URGENT, lit "call bank")
  /\ parse_section_from_text (lit "דחוף") = (URGENT, [])
  /\ parse_section_from_text (lit "call bank now") = (GENERAL, lit "call bank now").
Proof. vm_compute. repeat split. Qed.

Example parse_done_demo :
  parse_done_command (lit "סיימתי 12") = Some 12
  /\ parse_done_command (lit "סיים 7") = Some 7
  /\ parse_done_command (lit "סיים 007") = Some 7
  /\ parse_done_command (lit "סיים ٣") = Some 3
  /\ parse_done_command (lit "סיים 7 x") = None
  /\ parse_done_command (lit "סיים") = None.
Proof. vm_compute. repeat split. Qed.

(** Three tasks created as General, Urgent and Today are listed as Urgent,
    Today, General. *)
Example scenario_order :
  List.map (fun x => (display_no_of x, numbered_text x))
    match fst (ordered_open_tasks_with_numbers 7 three_tasks) with
    | Ok numbered => numbered
    | Raise _ => []
    end
  = [(1, lit "call bank"); (2, lit "pay rent"); (3, lit "buy milk")].
Proof. vm_compute. reflexivity. Qed.

(** Completing number 2 removes "pay rent" and renumbers the rest. *)
Example scenario_complete :
  let w := run (OnText 7 (lit "סיים 2")) three_tasks in
  fst (on_text 7 (lit "סיים 2") three_tasks) = Ok MARKED_DONE
  /\ List.map (fun x => (display_no_of x, numbered_text x))
       match fst (ordered_open_tasks_with_numbers 7 w) with
       | Ok numbered => numbered
       | Raise _ => []
       end
     = [(1, lit "call bank"); (2, lit "buy milk")]
  /\ fst (on_text 7 (lit "סיים 3") w) = Ok NOT_FOUND
  /\ fst (on_text 7 (lit "סיים 0") w) = Ok NOT_FOUND.
Proof. vm_compute. repeat split. Qed.

(** A task is aging eight days after its creation and not six days
    after. *)
Example scenario_aging :
  aging (FixedOffset.hourly (8 * 24)) (FixedOffset.stamp 0) = true
  /\ aging (FixedOffset.hourly (6 * 24)) (FixedOffset.stamp 0) = false
  /\ aging (FixedOffset.hourly (7 * 24)) (FixedOffset.stamp 0) = true.
Proof. vm_compute. repeat split. Qed.

(** A message that is only a section keyword creates no task. *)
Example scenario_keyword_only :
  on_text 7 (lit " מחר ") empty_world = (Ok USAGE, empty_world).
Proof. reflexivity. Qed.

End Scenarios.

(* ================================================================== *)
(** * What relates the world after an operation to the world before *)
(* ================================================================== *)

Section Keeps.
Context `{RT : Runtime}.
Variable R : World -> World -> Prop.
Variable chat : Z.

Hypothesis R_refl : forall w, R w w.
Hypothesis R_trans : forall w1 w2 w3, R w1 w2 -> R w2 w3 -> R w1 w3.
Hypothesis R_tick : forall w, R w (tick w).
Hypothesis R_insert :
  forall sec body created w, R w (snd (sql_insert chat sec body created w)).
Hypothesis R_update :
  forall stamp tid w, R w (snd (sql_update_done stamp chat tid w)).

Lemma keeps_ret {A} (a : A) : keeps R (ret a).
Proof. intros w. apply R_refl. Qed.

Lemma keeps_raise {A} (e : exn) : keeps R (@raise A e).
Proof. intros w. apply R_refl. Qed.

Lemma keeps_bind {A B} (c : M A) (k : A -> M B) :
  keeps R c -> (forall a, keeps R (k a)) -> keeps R (bind c k).
Proof.
  intros Hc Hk w. unfold bind. specialize (Hc w).
  destruct (c w) as [[a|e] w']; simpl in *; [|exact Hc].
  eapply R_trans; [exact Hc|apply Hk].
Qed.

Lemma keeps_lift_result {A} (r : result A) : keeps R (lift_result r).
Proof. destruct r; [apply keeps_ret|apply keeps_raise]. Qed.

Lemma keeps_now : keeps R now.
Proof. intros w. apply R_tick. Qed.

Lemma keeps_ordered (c : Z) : keeps R (ordered_open_tasks_with_numbers c).
Proof. intros w. apply R_refl. Qed.

Lemma keeps_is_older_than_week (created : str) :
  keeps R (is_older_than_week created).
Proof.
  unfold is_older_than_week. destruct (fromisoformat_tz created).
  - apply keeps_bind; [apply keeps_now|]. intros t. apply keeps_ret.
  - apply keeps_raise.
Qed.

Lemma keeps_group_items (numbered : list numbered_row) :
  forall groups, keeps R (group_items numbered groups).
Proof.
  induction numbered as [|[[[[n i] s] b] c] numbered IH]; intros groups; simpl.
  - apply keeps_ret.
  - apply keeps_bind; [apply keeps_is_older_than_week|]. intros old. apply IH.
Qed.

Lemma keeps_format_open_tasks_message (c : Z) :
  keeps R (format_open_tasks_message c).
Proof.
  unfold format_open_tasks_message.
  apply keeps_bind; [apply keeps_ordered|]. intros [|x numbered].
  - apply keeps_ret.
  - apply keeps_bind; [apply keeps_group_items|]. intros groups.
    apply keeps_ret.
Qed.

Lemma keeps_format_done_summary_for_range (c : Z) (a b : datetime) :
  keeps R (format_done_summary_for_range c a b).
Proof.
  unfold format_done_summary_for_range.
  apply keeps_bind; [intros w; apply R_refl|]. intros rows.
  destruct (Z.of_nat (length rows) =? 0); apply keeps_ret.
Qed.

Lemma keeps_send_midnight_done_summary (c : Z) :
  keeps R (send_midnight_done_summary c).
Proof.
  unfold send_midnight_done_summary.
  apply keeps_bind; [apply keeps_now|]. intros t.
  apply keeps_bind; [apply keeps_lift_result|]. intros ref.
  apply keeps_bind; [apply keeps_lift_result|]. intros day_end.
  apply keeps_format_done_summary_for_range.
Qed.

Lemma keeps_add_task (sec body : str) : keeps R (add_task chat sec body).
Proof.
  unfold add_task. apply keeps_bind; [apply keeps_now|]. intros t w.
  apply R_insert.
Qed.

Lemma keeps_mark_done (tid : Z) : keeps R (mark_done chat tid).
Proof.
  unfold mark_done. apply keeps_bind; [apply keeps_now|]. intros t.
  apply keeps_bind; [|intros k; apply keeps_ret]. intros w. apply R_update.
Qed.

Lemma keeps_mark_done_by_display_number (n : Z) :
  keeps R (mark_done_by_display_number chat n).
Proof.
  unfold mark_done_by_display_number.
  apply keeps_bind; [apply keeps_ordered|]. intros numbered.
  destruct (find _ numbered) as [[[[[d i] s] b] c]|].
  - apply keeps_mark_done.
  - apply keeps_ret.
Qed.

Lemma keeps_on_text (message_text : str) : keeps R (on_text chat message_text).
Proof.
  unfold on_text. destruct (is_list_command _).
  - apply keeps_format_open_tasks_message.
  - destruct (parse_done_command _) as [n|].
    + apply keeps_bind; [apply keeps_mark_done_by_display_number|].
      intros ok. apply keeps_ret.
    + destruct (parse_section_from_text _) as [sec [|c body]].
      * apply keeps_ret.
      * apply keeps_bind; [apply keeps_add_task|]. intros i. apply keeps_ret.
Qed.

Lemma keeps_run (o : operation) (w : World) :
  operation_chat o = chat -> R w (run o w).
Proof.
  destruct o; simpl; intros E; try rewrite E.
  - apply keeps_add_task.
  - apply R_refl.
  - apply R_refl.
  - apply keeps_mark_done_by_display_number.
  - apply R_refl.
  - apply keeps_format_open_tasks_message.
  - apply keeps_format_done_summary_for_range.
  - apply keeps_format_open_tasks_message.
  - apply keeps_send_midnight_done_summary.
  - apply keeps_on_text.
Qed.

End Keeps.

(* ================================================================== *)
(** * Identities, history and the separation of conversations *)
(* ================================================================== *)

Lemma fold_max_bounds (s : Z) (l : list Z) :
  s <= fold_right Z.max s l /\ forall x, In x l -> x <= fold_right Z.max s l.
Proof.
  induction l as [|y l [IH1 IH2]]; simpl.
  - split; [lia|contradiction].
  - split; [lia|]. intros x [<-|Hx]; [lia|]. specialize (IH2 x Hx). lia.
Qed.

Lemma sql_insert_fresh (chat : Z) (sec body created : str) (w : World) :
  exists i,
    sql_insert chat sec body created w
    = (Ok i, mk_world (tasks w ++ [mk_task i chat sec body created false None])
               i (clock w) (ticks w))
    /\ sqlite_seq w < i
    /\ forall t, In t (tasks w) -> task_id t < i.
Proof.
  eexists. split; [reflexivity|].
  destruct (fold_max_bounds (sqlite_seq w) (List.map task_id (tasks w)))
    as [H1 H2].
  split; [lia|]. intros t Ht. specialize (H2 (task_id t) (in_map _ _ _ Ht)).
  lia.
Qed.

Lemma unique_ids_insert (chat : Z) (sec body created : str) (w : World) :
  unique_ids w -> unique_ids (snd (sql_insert chat sec body created w)).
Proof.
  intros H. destruct (sql_insert_fresh chat sec body created w)
    as (i & E & _ & Hi).
  rewrite E. unfold unique_ids in *. simpl. rewrite map_app. simpl.
  apply NoDup_app; [exact H|repeat constructor; intros []|].
  intros x Hx [<-|[]]. apply in_map_iff in Hx. destruct Hx as (t & E' & Ht).
  specialize (Hi t Ht). lia.
Qed.

Lemma update_ids (stamp : str) (chat tid : Z) (l : list Task) :
  List.map task_id (List.map (complete stamp chat tid) l) = List.map task_id l.
Proof.
  rewrite map_map. apply map_ext. intros t. unfold complete.
  now destruct (update_matches chat tid t).
Qed.

Lemma unique_ids_update (stamp : str) (chat tid : Z) (w : World) :
  unique_ids w -> unique_ids (snd (sql_update_done stamp chat tid w)).
Proof.
  unfold unique_ids. simpl.
  change (NoDup (List.map task_id (tasks w)) ->
          NoDup (List.map task_id (List.map (complete stamp chat tid) (tasks w)))).
  now rewrite update_ids.
Qed.

Lemma evolves_refl (t : Task) : evolves t t.
Proof. unfold evolves. auto 10. Qed.

Lemma evolves_trans (a b c : Task) : evolves a b -> evolves b c -> evolves a c.
Proof.
  unfold evolves. intros (A1 & A2 & A3 & A4 & A5 & A6) (B1 & B2 & B3 & B4 & B5 & B6).
  repeat split; try congruence.
  intros Hd. specialize (A6 Hd). subst b. auto.
Qed.

Lemma evolves_complete (stamp : str) (chat tid : Z) (t : Task) :
  evolves t (complete stamp chat tid t).
Proof.
  unfold complete. destruct (update_matches chat tid t) eqn:E;
    [|apply evolves_refl].
  unfold evolves. simpl. repeat split. intros Hd.
  unfold update_matches in E. rewrite Hd, andb_false_r in E. discriminate.
Qed.

Lemma history_refl (w : World) : history w w.
Proof. intros i t H. exists t. split; [exact H|apply evolves_refl]. Qed.

Lemma history_trans (w1 w2 w3 : World) :
  history w1 w2 -> history w2 w3 -> history w1 w3.
Proof.
  intros H12 H23 i t H. destruct (H12 i t H) as (t2 & H2 & E2).
  destruct (H23 i t2 H2) as (t3 & H3 & E3). exists t3.
  split; [exact H3|eapply evolves_trans; eauto].
Qed.

Lemma history_insert (chat : Z) (sec body created : str) (w : World) :
  history w (snd (sql_insert chat sec body created w)).
Proof.
  intros i t H. exists t. split; [|apply evolves_refl]. simpl.
  rewrite nth_error_app1; [exact H|]. apply nth_error_Some. congruence.
Qed.

Lemma history_update (stamp : str) (chat tid : Z) (w : World) :
  history w (snd (sql_update_done stamp chat tid w)).
Proof.
  intros i t H. exists (complete stamp chat tid t).
  split; [|apply evolves_complete]. simpl.
  change (nth_error (List.map (complete stamp chat tid) (tasks w)) i
          = Some (complete stamp chat tid t)).
  now rewrite nth_error_map, H.
Qed.

Lemma filter_andb {A} (f g : A -> bool) (l : list A) :
  filter (fun x => f x && g x) l = filter g (filter f l).
Proof.
  induction l as [|x l IH]; simpl; [reflexivity|].
  destruct (f x); simpl; [|exact IH]. destruct (g x); now rewrite IH.
Qed.

Lemma other_conversations_update (stamp : str) (chat tid c : Z) (l : list Task) :
  c <> chat ->
  filter (fun t => chat_id t =? c) (List.map (complete stamp chat tid) l)
  = filter (fun t => chat_id t =? c) l.
Proof.
  intros Hc. induction l as [|t l IH]; simpl; [reflexivity|].
  rewrite IH. unfold complete at 1 2.
  destruct (update_matches chat tid t) eqn:E; [|reflexivity]. simpl.
  unfold update_matches in E. apply andb_true_iff in E. destruct E as [E _].
  apply andb_true_iff in E. destruct E as [E _]. apply Z.eqb_eq in E.
  rewrite E. destruct (Z.eqb_spec chat c); [congruence|reflexivity].
Qed.

Lemma open_rows_of_conversation (c : Z) (w w' : World) :
  filter (fun t => chat_id t =? c) (tasks w')
  = filter (fun t => chat_id t =? c) (tasks w) ->
  open_rows c w' = open_rows c w.
Proof.
  intros H. unfold open_rows, open_tasks.
  rewrite !(filter_andb (fun t => chat_id t =? c) (fun t => negb (done t))).
  now rewrite H.
Qed.

Section StateInvariants.
Context `{RT : Runtime}.

Lemma unique_ids_run (o : operation) (w : World) :
  unique_ids w -> unique_ids (run o w).
Proof.
  apply (keeps_run (fun w w' => unique_ids w -> unique_ids w')
           (operation_chat o)); auto.
  - intros sec body created w0. apply unique_ids_insert.
  - intros stamp tid w0. apply unique_ids_update.
Qed.

(** X1: every operation keeps the identities of the task table distinct, so
    they are distinct in every table built from the empty one; and the
    identity [add_task] returns is larger than every identity of the table
    and than the counter of the table. *)
Theorem identities_unique_and_fresh :
  (forall o w, unique_ids w -> unique_ids (run o w))
  /\ (forall os clk n, unique_ids (run_all os (mk_world [] 0 clk n)))
  /\ (forall chat sec body w,
        exists i, fst (add_task chat sec body w) = Ok i
                  /\ sqlite_seq w < i
                  /\ (forall t, In t (tasks w) -> task_id t < i)
                  /\ sqlite_seq (snd (add_task chat sec body w)) = i).
Proof.
  split; [exact unique_ids_run|]. split.
  - intros os clk n. unfold run_all.
    assert (H0 : unique_ids (mk_world [] 0 clk n)) by constructor.
    revert H0. generalize (mk_world [] 0 clk n).
    induction os as [|o os IH]; intros w Hw; simpl; [exact Hw|].
    apply IH. now apply unique_ids_run.
  - intros chat sec body w. unfold add_task, bind, now.
    destruct (sql_insert_fresh chat sec (strip body)
                (isoformat (clock w (ticks w))) (tick w))
      as (i & E & H1 & H2).
    exists i. fold (tick w). rewrite E. simpl. auto.
Qed.

(** X2: whatever operations run, every task stays at its place in the
    table with its identity, conversation, section, body and creation time;
    a task that is done is never changed again, so no task is deleted,
    edited or reopened. *)
Theorem tasks_never_deleted_or_edited (os : list operation) (w : World) :
  history w (run_all os w)
  /\ (length (tasks w) <= length (tasks (run_all os w)))%nat.
Proof.
  assert (H : history w (run_all os w)).
  { unfold run_all. revert w. induction os as [|o os IH]; intros w; simpl.
    - apply history_refl.
    - eapply history_trans; [|apply IH].
      apply (keeps_run history (operation_chat o)); auto.
      + apply history_refl.
      + apply history_trans.
      + intros w0. exact (history_refl w0).
      + intros sec body created w0. apply history_insert.
      + intros stamp tid w0. apply history_update. }
  split; [exact H|].
  destruct (Nat.le_gt_cases (length (tasks w)) (length (tasks (run_all os w))))
    as [L|L]; [exact L|].
  exfalso. destruct (nth_error (tasks w) (length (tasks (run_all os w))))
    as [t|] eqn:E.
  - destruct (H _ _ E) as (t' & E' & _).
    assert (N : nth_error (tasks (run_all os w))
                  (length (tasks (run_all os w))) = None)
      by (apply nth_error_None; lia).
    congruence.
  - apply nth_error_None in E. lia.
Qed.

(** X3: an operation run for one conversation leaves the rows of every
    other conversation as they were, and with them its open tasks and its
    numbered listing. *)
Theorem other_conversations_untouched (o : operation) (w : World) (c : Z) :
  c <> operation_chat o ->
  filter (fun t => chat_id t =? c) (tasks (run o w))
  = filter (fun t => chat_id t =? c) (tasks w)
  /\ open_rows c (run o w) = open_rows c w
  /\ fst (ordered_open_tasks_with_numbers c (run o w))
     = fst (ordered_open_tasks_with_numbers c w).
Proof.
  intros Hc.
  assert (H : other_conversations (operation_chat o) w (run o w)).
  { apply (keeps_run (other_conversations (operation_chat o))
             (operation_chat o)); auto.
    - intros w0 c0 _. reflexivity.
    - intros w1 w2 w3 H12 H23 c0 H0. now rewrite (H23 c0 H0), (H12 c0 H0).
    - intros w0 c0 _. reflexivity.
    - intros sec body created w0 c0 H0. simpl. rewrite filter_app. simpl.
      destruct (Z.eqb_spec (operation_chat o) c0); [congruence|].
      apply app_nil_r.
    - intros stamp tid w0 c0 H0. simpl.
      now apply (other_conversations_update stamp (operation_chat o) tid c0). }
  specialize (H c Hc). split; [exact H|].
  pose proof (open_rows_of_conversation c w (run o w) H) as Ho.
  split; [exact Ho|]. rewrite !ordered_open_tasks_eq. simpl. now rewrite Ho.
Qed.

End StateInvariants.

(* ================================================================== *)
(** * A completion that succeeds, and a task that was added *)
(* ================================================================== *)

Lemma permutation_filter {A} (f : A -> bool) (l l' : list A) :
  Permutation l l' -> Permutation (filter f l) (filter f l').
Proof.
  induction 1 as [|x l l' P IH|x y l|l1 l2 l3 P1 IH1 P2 IH2]; simpl.
  - constructor.
  - destruct (f x); [now constructor|exact IH].
  - destruct (f x), (f y); try reflexivity. apply perm_swap.
  - now transitivity (filter f l2).
Qed.

Lemma strongly_sorted_filter {A} (R : A -> A -> Prop) (f : A -> bool)
    (l : list A) :
  StronglySorted R l -> StronglySorted R (filter f l).
Proof.
  induction 1 as [|x l S IH F]; simpl; [constructor|].
  destruct (f x); [|exact IH]. constructor; [exact IH|].
  rewrite Forall_forall in *. intros y Hy. apply filter_In in Hy.
  now apply F.
Qed.

Lemma nodup_map_filter {A B} (g : A -> B) (f : A -> bool) (l : list A) :
  NoDup (List.map g l) -> NoDup (List.map g (filter f l)).
Proof.
  induction l as [|x l IH]; simpl; intros H; [constructor|].
  inversion H as [|? ? Hn H']; subst.
  destruct (f x); simpl; [|now apply IH]. constructor; [|now apply IH].
  intros Hin. apply Hn. apply in_map_iff in Hin.
  destruct Hin as (y & E & Hy). apply filter_In in Hy. rewrite <- E.
  now apply in_map.
Qed.

Lemma filter_all {A} (f : A -> bool) (l : list A) :
  (forall x, In x l -> f x = true) -> filter f l = l.
Proof.
  induction l as [|x l IH]; simpl; intros H; [reflexivity|].
  rewrite (H x) by (now left). f_equal. apply IH. intros y Hy. apply H.
  now right.
Qed.

(** Removing the rows with one identity from a list without repeated
    identities removes the row at its place. *)
Lemma filter_out_nth (rows : list open_row) (k : nat) (r : open_row) :
  NoDup (List.map row_id rows) -> nth_error rows k = Some r ->
  filter (fun x => negb (row_id x =? row_id r)) rows
  = firstn k rows ++ skipn (S k) rows.
Proof.
  revert k; induction rows as [|x rows IH]; intros k ND Hk;
    [destruct k; discriminate|].
  inversion ND as [|? ? Hn ND']; subst. destruct k as [|k]; simpl in *.
  - injection Hk as ->. rewrite Z.eqb_refl. simpl.
    apply filter_all. intros y Hy.
    destruct (Z.eqb_spec (row_id y) (row_id r)) as [E|E]; [|reflexivity].
    exfalso. apply Hn. rewrite <- E. now apply in_map.
  - destruct (Z.eqb_spec (row_id x) (row_id r)) as [E|E]; simpl.
    + exfalso. apply Hn. rewrite E. apply in_map.
      eapply nth_error_In; eauto.
    + f_equal. now apply IH.
Qed.

Lemma unique_row_ids (chat : Z) (w : World) :
  unique_ids w -> NoDup (List.map row_id (open_rows chat w)).
Proof.
  intros H. unfold open_rows, open_tasks. rewrite map_map.
  change (NoDup (List.map task_id
                   (filter (fun t => (chat_id t =? chat) && negb (done t))
                      (tasks w)))).
  now apply nodup_map_filter.
Qed.

Lemma sorted_rows_filter (f : open_row -> bool) (rows : list open_row) :
  NoDup (List.map row_id rows) ->
  sorted key_ltb key (filter f rows) = filter f (sorted key_ltb key rows).
Proof.
  intros ND. apply (ordered_perm_unique key_ltb key).
  - intros x y Hx Hy Hxy Hyx.
    apply (nodup_map_inj row_id rows); auto.
    + eapply Permutation_in in Hx; [|apply (sorted_perm key_ltb key)].
      now apply filter_In in Hx.
    + eapply Permutation_in in Hy; [|apply (sorted_perm key_ltb key)].
      now apply filter_In in Hy.
    + unfold may_precede, key_ltb in Hxy, Hyx.
      rewrite (key_compare_antisym (key y) (key x)) in Hyx.
      destruct (key_compare (key y) (key x)) eqn:E; try discriminate.
      apply key_compare_eq in E. rewrite !key_row in E. congruence.
  - apply sorted_ordered; [apply key_ltb_asym|apply key_may_precede_trans].
  - apply strongly_sorted_filter.
    apply sorted_ordered; [apply key_ltb_asym|apply key_may_precede_trans].
  - rewrite (sorted_perm key_ltb key). apply permutation_filter.
    symmetry. apply sorted_perm.
Qed.

(** The open rows of a conversation after the completing update. *)
Lemma open_rows_completed (stamp : str) (chat tid : Z) (l : list Task) :
  List.map open_row_of
    (filter (fun t => (chat_id t =? chat) && negb (done t))
       (List.map (complete stamp chat tid) l))
  = filter (fun x => negb (row_id x =? tid))
      (List.map open_row_of
         (filter (fun t => (chat_id t =? chat) && negb (done t)) l)).
Proof.
  induction l as [|t l IH]; [reflexivity|].
  cbn [List.map filter].
  destruct (update_matches chat tid t) eqn:E.
  - assert (Ec : complete stamp chat tid t
                 = mk_task (task_id t) (chat_id t) (section t) (text t)
                     (created_at t) true (Some stamp))
      by (unfold complete; now rewrite E).
    rewrite Ec. cbn [chat_id done negb]. rewrite andb_false_r.
    unfold update_matches in E. apply andb_true_iff in E.
    destruct E as [E Ed]. apply andb_true_iff in E. destruct E as [Ech Ei].
    rewrite Ech, Ed.
    cbn [andb List.map filter open_row_of row_id]. rewrite Ei.
    cbn [negb]. exact IH.
  - assert (Ec : complete stamp chat tid t = t)
      by (unfold complete; now rewrite E).
    rewrite Ec.
    destruct ((chat_id t =? chat) && negb (done t)) eqn:P; [|exact IH].
    cbn [List.map filter open_row_of row_id].
    assert (Ei : (task_id t =? tid) = false).
    { unfold update_matches in E. apply andb_true_iff in P.
      destruct P as [P1 P2]. rewrite P1, P2 in E.
      now destruct (task_id t =? tid). }
    rewrite Ei. cbn [negb]. now rewrite IH.
Qed.

Section CompletionAndInsertion.
Context `{RT : Runtime}.

(** X4: in a table with distinct identities, completing the display number
    [n] of a conversation with [N >= n >= 1] open tasks returns true, changes
    the task at place [n] of the order and no other, and the order after it
    is the order before without that row, so that the later rows move up by
    one number. *)
Theorem completion_removes_the_numbered_task (chat n : Z) (w : World) :
  unique_ids w ->
  1 <= n <= Z.of_nat (length (open_tasks chat w)) ->
  exists (rows : list open_row) (r : open_row),
    fst (ordered_open_tasks_with_numbers chat w)
    = Ok (List.map number_row (enumerate_from 1 rows))
    /\ nth_error rows (Z.to_nat (n - 1)) = Some r
    /\ fst (mark_done_by_display_number chat n w) = Ok true
    /\ tasks (snd (mark_done_by_display_number chat n w))
       = List.map (complete (isoformat (clock w (ticks w))) chat (row_id r))
           (tasks w)
    /\ (forall t, In t (tasks w) -> task_id t <> row_id r ->
          complete (isoformat (clock w (ticks w))) chat (row_id r) t = t)
    /\ fst (ordered_open_tasks_with_numbers chat
              (snd (mark_done_by_display_number chat n w)))
       = Ok (List.map number_row
               (enumerate_from 1
                  (firstn (Z.to_nat (n - 1)) rows
                   ++ skipn (S (Z.to_nat (n - 1))) rows))).
Proof.
  intros U Hn.
  destruct (mark_done_by_display_number_in_range chat n w Hn)
    as (r & Hr & E & Ht).
  exists (sorted key_ltb key (open_rows chat w)), r.
  split; [now rewrite ordered_open_tasks_eq|]. split; [exact Hr|].
  rewrite E. split; [exact Ht|].
  assert (Et : tasks (snd (mark_done chat (row_id r) w))
               = List.map (complete (isoformat (clock w (ticks w))) chat (row_id r))
                   (tasks w)) by reflexivity.
  split; [exact Et|]. split.
  - intros t _ Hid. unfold complete, update_matches.
    destruct (Z.eqb_spec (task_id t) (row_id r)); [contradiction|].
    now rewrite andb_false_r.
  - rewrite ordered_open_tasks_eq. cbn [fst]. do 3 f_equal.
    pose proof (unique_row_ids chat w U) as ND.
    assert (ND' : NoDup (List.map row_id (sorted key_ltb key (open_rows chat w)))).
    { eapply Permutation_NoDup; [|exact ND]. apply Permutation_map.
      symmetry. apply sorted_perm. }
    rewrite <- (filter_out_nth _ _ _ ND' Hr).
    rewrite <- sorted_rows_filter by exact ND. f_equal.
    unfold open_rows, open_tasks. rewrite Et. apply open_rows_completed.
Qed.

(** X5: after [add_task] the open tasks of the conversation, as
    [get_open_tasks] reads them, are those of before followed by the new
    one, which has the identity returned, the section given, the body
    stripped and the time of the clock as creation time. *)
Theorem add_task_then_get_open_tasks (chat : Z) (sec body : str) (w : World) :
  exists i,
    fst (add_task chat sec body w) = Ok i
    /\ fst (get_open_tasks chat (snd (add_task chat sec body w)))
       = Ok (open_rows chat w
             ++ [(i, sec, strip body, isoformat (clock w (ticks w)))])
    /\ length (open_tasks chat (snd (add_task chat sec body w)))
       = S (length (open_tasks chat w)).
Proof.
  eexists. split; [reflexivity|].
  assert (E : open_tasks chat (snd (add_task chat sec body w))
              = open_tasks chat w
                ++ [mk_task (fold_right Z.max (sqlite_seq w)
                               (List.map task_id (tasks w)) + 1)
                      chat sec (strip body)
                      (isoformat (clock w (ticks w))) false None]).
  { unfold open_tasks. simpl. rewrite filter_app. simpl.
    now rewrite Z.eqb_refl. }
  split.
  - unfold get_open_tasks, sql_select_open. cbn [fst].
    fold (open_tasks chat (snd (add_task chat sec body w))).
    rewrite E, map_app. reflexivity.
  - rewrite E, length_app. simpl. lia.
Qed.

End CompletionAndInsertion.

(* ================================================================== *)
(** * [parse_section_from_text] on any text *)
(* ================================================================== *)

Lemma lstrip_head (s r : str) (c : char) :
  lstrip s = c :: r -> is_space c = false.
Proof.
  induction s as [|x s IH]; simpl; [discriminate|].
  destruct (is_space x) eqn:E; [exact IH|]. intros [= <- _]. exact E.
Qed.

Lemma rstrip_last (s a : str) (d : char) :
  rstrip s = a ++ [d] -> is_space d = false.
Proof.
  unfold rstrip. intros H. apply (f_equal (@rev _)) in H.
  rewrite rev_involutive, rev_app_distr in H. simpl in H.
  eapply lstrip_head; eauto.
Qed.

Lemma strip_idempotent (s : str) : strip (strip s) = strip s.
Proof.
  destruct (strip s) as [|c b] eqn:E; [reflexivity|].
  assert (Hc : is_space c = false).
  { unfold strip in E. destruct (lstrip s) as [|x r] eqn:L; [discriminate|].
    pose proof (lstrip_head _ _ _ L) as Hx. rewrite rstrip_cons in E.
    destruct (rstrip r); [rewrite Hx in E|]; now injection E as <- _. }
  destruct (@exists_last _ (c :: b) ltac:(discriminate)) as (a & d & Ea).
  assert (Hd : is_space d = false).
  { unfold strip in E. apply (rstrip_last (lstrip s) a d). congruence. }
  eapply strip_ends; eauto.
Qed.

Lemma split_from_spaces (cur r : str) :
  forallb is_space r = true ->
  split_from cur r = match cur with [] => [] | _ => [rev cur] end.
Proof.
  revert cur; induction r as [|c r IH]; intros cur H; [reflexivity|].
  simpl in H. apply andb_true_iff in H. destruct H as [Hc Hr]. simpl.
  rewrite Hc, (IH [] Hr). now destruct cur.
Qed.

Lemma split_from_rstrip (r : str) :
  forall cur, split_from cur (rstrip r) = split_from cur r.
Proof.
  induction r as [|c r IH]; intros cur; [reflexivity|].
  rewrite rstrip_cons. destruct (rstrip r) as [|x l] eqn:R in |- *.
  - assert (Hs : forallb is_space r = true) by now apply rstrip_nil_spaces.
    simpl. destruct (is_space c) eqn:E; simpl.
    + rewrite (split_from_spaces [] r Hs). now destruct cur.
    + now rewrite E, (split_from_spaces (c :: cur) r Hs).
  - rewrite <- R. cbn [split_from]. destruct (is_space c); now rewrite !IH.
Qed.

Lemma split_strip (s : str) : split (strip s) = split s.
Proof.
  unfold strip, split. rewrite split_from_rstrip. apply split_lstrip.
Qed.

Lemma strip_nil_split (s : str) : strip s = [] <-> split s = [].
Proof.
  split.
  - intros H. rewrite <- split_strip, H. reflexivity.
  - intros H. unfold strip.
    destruct (lstrip s) as [|c r] eqn:L; [reflexivity|].
    pose proof (lstrip_head _ _ _ L) as Hc.
    rewrite <- split_lstrip, L in H. unfold split in H. simpl in H.
    rewrite Hc in H. exfalso.
    apply (split_from_nonempty [c] r); [discriminate|exact H].
Qed.

(** The three cases of [parse_section_from_text], by the tokens of the
    text. *)
Lemma parse_section_cases (raw : str) :
  (split raw = [] /\ parse_section_from_text raw = (GENERAL, []))
  \/ (exists ws k, split raw = ws ++ [k] /\ In k SECTION_ORDER
                   /\ parse_section_from_text raw = (k, join [SPACE] ws))
  \/ (exists ws k, split raw = ws ++ [k] /\ ~ In k SECTION_ORDER
                   /\ parse_section_from_text raw = (GENERAL, strip raw)).
Proof.
  unfold parse_section_from_text. rewrite split_strip.
  destruct (strip raw) as [|c b] eqn:Es.
  - left. split; [|reflexivity]. apply strip_nil_split. exact Es.
  - right. cbv beta iota zeta.
    destruct (split raw) as [|w0 ws0] eqn:Ew.
    { apply strip_nil_split in Ew. congruence. }
    destruct (@exists_last _ (w0 :: ws0) ltac:(discriminate)) as (ws & k & E).
    rewrite E. pose proof (split_tokens raw) as F. rewrite Ew, E in F.
    apply Forall_app in F. destruct F as [Fw Fk].
    inversion Fk as [|? ? Hk _]; subst.
    rewrite last_word_app, but_last_app, (strip_token k Hk),
      (strip_join_tokens ws Fw).
    destruct (dict_mem SECTION_PRIORITY k) eqn:M.
    + left. exists ws, k. apply dict_mem_section in M.
      split; [reflexivity|]. split; [exact M|].
      now destruct (join [SPACE] ws).
    + right. exists ws, k. split; [reflexivity|]. split; [|reflexivity].
      intros H. apply dict_mem_section in H. congruence.
Qed.

Lemma parse_section_known (raw : str) :
  In (fst (parse_section_from_text raw)) SECTION_ORDER.
Proof.
  assert (G : In GENERAL SECTION_ORDER) by (unfold SECTION_ORDER; simpl; auto).
  destruct (parse_section_cases raw)
    as [[_ E]|[(ws & k & _ & Hk & E)|(ws & k & _ & _ & E)]];
    rewrite E; simpl; auto.
Qed.

Lemma parse_section_stripped (raw : str) :
  strip (snd (parse_section_from_text raw)) = snd (parse_section_from_text raw).
Proof.
  destruct (parse_section_cases raw)
    as [[_ E]|[(ws & k & Hs & _ & E)|(ws & k & _ & _ & E)]];
    rewrite E; simpl.
  - reflexivity.
  - apply strip_join_tokens. pose proof (split_tokens raw) as F.
    rewrite Hs in F. now apply Forall_app in F.
  - apply strip_idempotent.
Qed.

(** X6: on any text [parse_section_from_text] returns one of the four
    sections and a body without whitespace at its ends; a text without token
    gives General and the empty body; when the last token is a section
    keyword the body is the other tokens joined by single spaces, so that
    inner whitespace is collapsed; otherwise the body is the stripped text
    with its inner whitespace kept. *)
Theorem parse_section_from_text_cases (raw : str) :
  In (fst (parse_section_from_text raw)) SECTION_ORDER
  /\ strip (snd (parse_section_from_text raw))
     = snd (parse_section_from_text raw)
  /\ ((split raw = [] /\ parse_section_from_text raw = (GENERAL, []))
      \/ (exists ws k, split raw = ws ++ [k] /\ In k SECTION_ORDER
                       /\ parse_section_from_text raw = (k, join [SPACE] ws))
      \/ (exists ws k, split raw = ws ++ [k] /\ ~ In k SECTION_ORDER
                       /\ parse_section_from_text raw = (GENERAL, strip raw))).
Proof.
  split; [apply parse_section_known|].
  split; [apply parse_section_stripped|apply parse_section_cases].
Qed.

(* ================================================================== *)
(** * What the handlers store *)
(* ================================================================== *)

Lemma stored_by_handler_update (l : list Task) (chat tid : Z) (stamp : str) :
  Forall stored_by_handler l ->
  Forall stored_by_handler
    (List.map (fun t =>
       if update_matches chat tid t
       then mk_task (task_id t) (chat_id t) (section t) (text t)
              (created_at t) true (Some stamp)
       else t) l).
Proof.
  intros H. apply Forall_map. eapply Forall_impl; [|exact H].
  intros t Ht. now destruct (update_matches chat tid t).
Qed.

Section HandlerInvariant.
Context `{RT : Runtime}.

Lemma stored_by_handler_on_text (chat : Z) (message_text : str) (w : World) :
  Forall stored_by_handler (tasks w) ->
  Forall stored_by_handler (tasks (snd (on_text chat message_text w))).
Proof.
  intros H. unfold on_text. destruct (is_list_command _).
  - now apply (preserves_format_open_tasks_message (Forall stored_by_handler)).
  - destruct (parse_done_command _) as [n|].
    + apply (preserves_bind (Forall stored_by_handler)); [| |exact H].
      * apply preserves_mark_done_by_display_number.
        intros l c tid stamp. apply stored_by_handler_update.
      * intros ok. apply preserves_ret.
    + pose proof (parse_section_known (normalize_text message_text)) as Hk.
      pose proof (parse_section_stripped (normalize_text message_text)) as Hs.
      destruct (parse_section_from_text (normalize_text message_text))
        as [sec [|c body]]; [exact H|].
      simpl in Hk, Hs. unfold add_task, bind, now. simpl.
      apply Forall_app. split; [exact H|].
      constructor; [|constructor]. unfold stored_by_handler. simpl.
      rewrite Hs. split; [exact Hk|]. split; [discriminate|exact Hs].
Qed.

Lemma stored_by_handler_run (o : operation) (w : World) :
  is_handler o = true ->
  Forall stored_by_handler (tasks w) ->
  Forall stored_by_handler (tasks (run o w)).
Proof.
  destruct o; simpl; intros Ho H; try discriminate; try exact H.
  - apply (preserves_mark_done_by_display_number (Forall stored_by_handler));
      [|exact H].
    intros l c tid stamp. apply stored_by_handler_update.
  - now apply (preserves_format_open_tasks_message (Forall stored_by_handler)).
  - now apply (preserves_format_done_summary_for_range
                 (Forall stored_by_handler)).
  - now apply (preserves_format_open_tasks_message (Forall stored_by_handler)).
  - now apply (preserves_send_midnight_done_summary (Forall stored_by_handler)).
  - now apply stored_by_handler_on_text.
Qed.

(** X7: when the table is only written through the handlers and jobs of
    the module, starting from the empty table, every task has one of the
    four sections and a body that is not empty and has no whitespace at its
    ends. *)
Theorem handlers_store_known_sections (os : list operation)
    (clk : nat -> datetime) (n : nat) :
  forallb is_handler os = true ->
  Forall stored_by_handler (tasks (run_all os (mk_world [] 0 clk n)))
  /\ forall chat t,
       In t (open_tasks chat (run_all os (mk_world [] 0 clk n))) ->
       known_section (section t) = true.
Proof.
  intros Ho.
  assert (H : Forall stored_by_handler
                (tasks (run_all os (mk_world [] 0 clk n)))).
  { unfold run_all.
    assert (H0 : Forall stored_by_handler (tasks (mk_world [] 0 clk n)))
      by constructor.
    revert H0 Ho. generalize (mk_world [] 0 clk n).
    induction os as [|o os IH]; intros w Hw Hos; simpl; [exact Hw|].
    simpl in Hos. apply andb_true_iff in Hos. destruct Hos as [Ho Hos].
    apply IH; [|exact Hos]. now apply stored_by_handler_run. }
  split; [exact H|]. intros chat t Ht. unfold open_tasks in Ht.
  apply filter_In in Ht. destruct Ht as [Ht _].
  rewrite Forall_forall in H. destruct (H t Ht) as [Hk _].
  now apply known_section_In.
Qed.

End HandlerInvariant.

(* ================================================================== *)
(** * The normal form of a message *)
(* ================================================================== *)

Lemma normalize_text_idempotent (s : str) :
  normalize_text (normalize_text s) = normalize_text s.
Proof.
  rewrite (normalize_text_join (normalize_text s)), split_normalize_text.
  symmetry. apply normalize_text_join.
Qed.

Lemma in_join (sep : str) (ws : list str) (c : char) :
  In c (join sep ws) -> In c sep \/ exists t, In t ws /\ In c t.
Proof.
  induction ws as [|t rest IH]; [contradiction|]. rewrite join_cons.
  destruct rest as [|t' rest'].
  - intros H. right. exists t. split; [now left|exact H].
  - intros H. apply in_app_or in H. destruct H as [H|H].
    + right. exists t. split; [now left|exact H].
    + apply in_app_or in H. destruct H as [H|H]; [now left|].
      destruct (IH H) as [Hs|(u & Hu & Hc)]; [now left|].
      right. exists u. split; [now right|exact Hc].
Qed.

Lemma token_no_space (t : str) (c : char) :
  is_token t -> In c t -> is_space c = false.
Proof.
  intros [_ F] H. rewrite forallb_forall in F. specialize (F c H).
  now apply negb_true_iff in F.
Qed.

Lemma join_no_double_space (ws : list str) :
  Forall is_token ws ->
  forall a b, join [SPACE] ws <> a ++ SPACE :: SPACE :: b.
Proof.
  assert (Sp : is_space SPACE = true) by reflexivity.
  induction ws as [|t rest IH]; intros F a b E.
  - now destruct a.
  - inversion F as [|? ? Ht Frest]; subst. rewrite join_cons in E.
    destruct rest as [|t' rest'].
    + assert (Hin : In SPACE t)
        by (rewrite E; apply in_or_app; right; now left).
      rewrite (token_no_space t SPACE Ht Hin) in Sp. discriminate.
    + destruct (join_tokens_ends (t' :: rest') ltac:(discriminate) Frest)
        as [(c & r & Ej & Hc) _].
      set (j := join [SPACE] (t' :: rest')) in *.
      change (t ++ [SPACE] ++ j) with (t ++ SPACE :: j) in E.
      apply app_eq_app in E.
      destruct E as (l & [[Et El]|[Ea El]]).
      * destruct l as [|x l']; cbn [app] in El.
        -- injection El as El. rewrite Ej in El. injection El as Ec _.
           congruence.
        -- injection El as <- _.
           assert (Hin : In SPACE t)
             by (rewrite Et; apply in_or_app; right; now left).
           rewrite (token_no_space t SPACE Ht Hin) in Sp. discriminate.
      * destruct l as [|x l']; cbn [app] in El.
        -- injection El as El. rewrite Ej in El. injection El as Ec _.
           congruence.
        -- injection El as _ El. exact (IH Frest l' b El).
Qed.

Section NormalForm.
Context `{RT : Runtime}.

(** X8: [normalize_text] is idempotent and keeps nothing of a message but
    its tokens, so [on_text] treats alike the messages that have the same
    tokens, whatever whitespace is around and between them. *)
Theorem normalize_text_idempotent_on_text (s : str) :
  normalize_text (normalize_text s) = normalize_text s
  /\ (forall chat w, on_text chat (normalize_text s) w = on_text chat s w)
  /\ (forall s' chat w, split s' = split s ->
        on_text chat s' w = on_text chat s w).
Proof.
  split; [apply normalize_text_idempotent|]. split.
  - intros chat w. unfold on_text. now rewrite normalize_text_idempotent.
  - intros s' chat w E. unfold on_text.
    now rewrite (normalize_text_join s'), (normalize_text_join s), E.
Qed.

End NormalForm.

(** X9: the text [normalize_text] returns has no whitespace at its ends,
    no whitespace character but the space, and never two spaces in a row; it
    is empty exactly when the input is made of whitespace only. *)
Theorem normalize_text_normal_form (s : str) :
  strip (normalize_text s) = normalize_text s
  /\ (forall c, In c (normalize_text s) -> is_space c = true -> c = SPACE)
  /\ (forall a b, normalize_text s <> a ++ SPACE :: SPACE :: b)
  /\ (normalize_text s = [] <-> forallb is_space s = true).
Proof.
  rewrite normalize_text_join. pose proof (split_tokens s) as F.
  split; [now apply strip_join_tokens|]. split; [|split].
  - intros c Hc Hs. apply in_join in Hc.
    destruct Hc as [[<-|[]]|(t & Ht & Hc)]; [reflexivity|].
    rewrite Forall_forall in F.
    rewrite (token_no_space t c (F t Ht) Hc) in Hs. discriminate.
  - now apply join_no_double_space.
  - rewrite <- split_from_nil_spaces. fold (split s). split.
    + now apply join_nil_tokens.
    + intros ->. reflexivity.
Qed.

(* ================================================================== *)
(** * [html.escape] *)
(* ================================================================== *)

Lemma escape_char_markup_free (c : char) : Forall markup_free (escape_char c).
Proof.
  unfold escape_char.
  repeat match goal with
  | |- context [(?a =? ?b)%N] => destruct (N.eqb_spec a b)
  end;
  try (vm_compute; repeat constructor; discriminate).
  repeat constructor; auto.
Qed.

Lemma escape_char_cancel (x y : char) (a b : str) :
  escape_char x ++ a = escape_char y ++ b -> x = y /\ a = b.
Proof.
  unfold escape_char.
  destruct (N.eqb_spec x 38); [|destruct (N.eqb_spec x 60);
    [|destruct (N.eqb_spec x 62); [|destruct (N.eqb_spec x 34);
      [|destruct (N.eqb_spec x 39)]]]];
  (destruct (N.eqb_spec y 38); [|destruct (N.eqb_spec y 60);
    [|destruct (N.eqb_spec y 62); [|destruct (N.eqb_spec y 34);
      [|destruct (N.eqb_spec y 39)]]]]);
  subst; intros H; vm_compute in H; try discriminate H;
  inversion H; subst; try contradiction; auto.
Qed.

Lemma escape_char_nonempty (c : char) : escape_char c <> [].
Proof.
  unfold escape_char.
  repeat match goal with
  | |- context [(?a =? ?b)%N] => destruct (N.eqb_spec a b)
  end; discriminate.
Qed.

(** X10: the text [html.escape] returns holds none of the characters [<],
    [>], double quote and single quote; a text without these characters and
    without [&] is returned as it is, and only the empty text gives the
    empty text. *)
Theorem html_escape_markup_free (s : str) :
  Forall markup_free (html_escape s)
  /\ ((forall c, In c s -> markup_free c /\ c <> 38%N) -> html_escape s = s)
  /\ (html_escape s = [] <-> s = []).
Proof.
  split; [|split].
  - unfold html_escape. induction s as [|c s IH]; simpl; [constructor|].
    apply Forall_app. split; [apply escape_char_markup_free|exact IH].
  - unfold html_escape. induction s as [|c s IH]; intros H; simpl;
      [reflexivity|].
    rewrite IH by (intros x Hx; apply H; now right).
    destruct (H c (or_introl eq_refl)) as [(H1 & H2 & H3 & H4) H5].
    unfold escape_char.
    destruct (N.eqb_spec c 38); [contradiction|].
    destruct (N.eqb_spec c 60); [contradiction|].
    destruct (N.eqb_spec c 62); [contradiction|].
    destruct (N.eqb_spec c 34); [contradiction|].
    destruct (N.eqb_spec c 39); [contradiction|]. reflexivity.
  - split; [|intros ->; reflexivity].
    destruct s as [|c s]; [reflexivity|]. unfold html_escape. simpl.
    intros H. apply app_eq_nil in H. destruct H as [H _].
    now apply escape_char_nonempty in H.
Qed.

(** X11: [html.escape] is injective: two different texts are never
    rendered alike. *)
Theorem html_escape_injective (a b : str) :
  html_escape a = html_escape b -> a = b.
Proof.
  unfold html_escape. revert b.
  induction a as [|x a IH]; intros [|y b]; simpl; intros H.
  - reflexivity.
  - symmetry in H. apply app_eq_nil in H. destruct H as [H _].
    now apply escape_char_nonempty in H.
  - apply app_eq_nil in H. destruct H as [H _].
    now apply escape_char_nonempty in H.
  - apply escape_char_cancel in H. destruct H as [-> H].
    now rewrite (IH b H).
Qed.

(* ================================================================== *)
(** * A display number sent back *)
(* ================================================================== *)

Lemma int_of_digits_acc (u : Decimal.uint) :
  forall acc : positive,
    fold_left
      (fun acc c => acc * 10
         + match decimal_value c with Some d => d | None => 0 end)
      (uint_chars u) (Zpos acc)
    = Zpos (Pos.of_uint_acc u acc).
Proof.
  induction u as [|u IH|u IH|u IH|u IH|u IH|u IH|u IH|u IH|u IH|u IH];
    intros acc; cbn [uint_chars fold_left Pos.of_uint_acc];
    [reflexivity|..]; rewrite <- IH; f_equal;
    match goal with
    | |- context [decimal_value ?c] =>
        let v := eval vm_compute in (decimal_value c) in
        change (decimal_value c) with v
    end; lia.
Qed.

Lemma int_of_digits_uint (u : Decimal.uint) :
  int_of_digits (uint_chars u) = Z.of_N (Pos.of_uint u).
Proof.
  unfold int_of_digits.
  induction u as [|u IH|u IH|u IH|u IH|u IH|u IH|u IH|u IH|u IH|u IH];
    cbn [uint_chars fold_left Pos.of_uint Z.of_N];
    [reflexivity|exact IH|..]; rewrite <- int_of_digits_acc; reflexivity.
Qed.

Lemma uint_chars_decimal (u : Decimal.uint) :
  forallb is_decimal (uint_chars u) = true.
Proof. induction u; simpl; auto. Qed.

Lemma str_of_int_digits (n : Z) :
  0 <= n ->
  int_of_digits (str_of_int n) = n
  /\ forallb is_decimal (str_of_int n) = true
  /\ str_of_int n <> [].
Proof.
  intros Hn. destruct n as [|p|p]; [repeat split; discriminate| |lia].
  assert (E : int_of_digits (str_of_int (Zpos p)) = Zpos p).
  { unfold str_of_int. rewrite int_of_digits_uint.
    now rewrite DecimalPos.Unsigned.of_to. }
  split; [exact E|]. split; [apply uint_chars_decimal|].
  intros H. rewrite H in E. discriminate.
Qed.

Lemma decimal_token (ds : str) :
  ds <> [] -> forallb is_decimal ds = true -> is_token ds.
Proof.
  intros H F. split; [exact H|]. rewrite forallb_forall in *.
  intros c Hc. now rewrite (decimal_not_space c (F c Hc)).
Qed.

Lemma done_verb_token (verb : str) : In verb DONE_VERBS -> is_token verb.
Proof.
  unfold DONE_VERBS. intros [<-|[<-|[]]]; split; try discriminate; reflexivity.
Qed.

Lemma list_command_not_done (text : str) :
  is_list_command text = true -> parse_done_command text = None.
Proof.
  unfold is_list_command. rewrite existsb_exists. intros (c & Hc & E).
  apply str_eqb_eq in E. subst c. unfold LIST_COMMANDS in Hc.
  destruct Hc as [<-|[<-|[<-|[<-|[]]]]]; vm_compute; reflexivity.
Qed.

Section DisplayNumberRoundTrip.
Context `{RT : Runtime}.

(** X12: a number as a listing prints it, sent back behind either verb, is
    read as the same number: the message is a complete command for it, and
    [on_text] completes the task of that display number. *)
Theorem display_number_round_trip (verb : str) (n chat : Z) (w : World) :
  In verb DONE_VERBS -> 0 <= n ->
  parse_done_command (verb ++ [SPACE] ++ str_of_int n) = Some n
  /\ normalize_text (verb ++ [SPACE] ++ str_of_int n)
     = verb ++ [SPACE] ++ str_of_int n
  /\ on_text chat (verb ++ [SPACE] ++ str_of_int n) w
     = (ok <- mark_done_by_display_number chat n ;;
        ret (if ok : bool then MARKED_DONE else NOT_FOUND)) w.
Proof.
  intros Hv Hn. destruct (str_of_int_digits n Hn) as (Ei & Fd & Hd).
  assert (P : parse_done_command (verb ++ [SPACE] ++ str_of_int n) = Some n).
  { apply parse_done_command_some. exists (str_of_int n).
    split; [|now rewrite Ei].
    exists verb, [SPACE], []. rewrite app_nil_r.
    repeat split; auto; discriminate. }
  assert (N : normalize_text (verb ++ [SPACE] ++ str_of_int n)
              = verb ++ [SPACE] ++ str_of_int n).
  { change (verb ++ [SPACE] ++ str_of_int n)
      with (join [SPACE] [verb; str_of_int n]).
    rewrite normalize_text_join, split_join_tokens; [reflexivity|].
    constructor; [now apply done_verb_token|].
    constructor; [now apply decimal_token|constructor]. }
  split; [exact P|]. split; [exact N|].
  unfold on_text. rewrite N, P.
  destruct (is_list_command (verb ++ [SPACE] ++ str_of_int n)) eqn:L;
    [|reflexivity].
  apply list_command_not_done in L. congruence.
Qed.

End DisplayNumberRoundTrip.

(* ================================================================== *)
(** * The window of the midnight summary at any firing time *)
(* ================================================================== *)

Lemma datetime_add_wall (d : datetime) (delta : timedelta) :
  valid_datetime d ->
  0 < (wall_us d + delta) / US_PER_DAY <= MAXORDINAL ->
  exists r,
    datetime_add d delta = Ok r
    /\ ordinal r = (wall_us d + delta) / US_PER_DAY
    /\ wall_us r = wall_us d + delta
    /\ fold r = false.
Proof.
  intros _ Hd. unfold datetime_add.
  set (total := wall_us d + delta) in *.
  destruct (Z.ltb_spec 0 (total / US_PER_DAY)); [|lia].
  destruct (Z.leb_spec (total / US_PER_DAY) MAXORDINAL); [|lia].
  cbn [andb]. eexists. split; [reflexivity|]. split; [reflexivity|].
  split; [|reflexivity].
  unfold wall_us at 1. cbn [ordinal hour minute second microsecond].
  unfold US_PER_DAY, US_PER_SECOND in *.
  change (86400 * 1000000) with 86400000000 in *.
  generalize dependent total. intros total _ _ _.
  pose proof (Z.div_mod total 86400000000 ltac:(lia)) as E1.
  pose proof (Z.mod_pos_bound total 86400000000 ltac:(lia)) as B1.
  set (us := total mod 86400000000) in *.
  pose proof (Z.div_mod us 1000000 ltac:(lia)) as E2.
  pose proof (Z.mod_pos_bound us 1000000 ltac:(lia)) as B2.
  set (secs := us / 1000000) in *.
  pose proof (Z.div_mod secs 3600 ltac:(lia)) as E3.
  pose proof (Z.mod_pos_bound secs 3600 ltac:(lia)) as B3.
  pose proof (Z.div_mod (secs mod 3600) 60 ltac:(lia)) as E4.
  assert (E5 : secs mod 3600 mod 60 = secs mod 60).
  { apply Z.mod_mod_divide. exists 60. reflexivity. }
  rewrite E5 in E4. lia.
Qed.

Section MidnightAnyTime.
Context `{RT : Runtime}.

(** X13: whenever the midnight job fires, the window it summarizes is the
    calendar day that holds the time one second before: the day before when
    it fires within the first second of a day, and the day of the firing
    itself when it fires one second or more after midnight. *)
Theorem midnight_window_any_time (chat : Z) (w : World) :
  valid_datetime (clock w (ticks w)) ->
  2 <= ordinal (clock w (ticks w)) < MAXORDINAL ->
  exists day,
    send_midnight_done_summary chat w
    = format_done_summary_for_range chat
        (midnight_of day) (midnight_of (day + 1)) (tick w)
    /\ wall_us (midnight_of day)
       <= wall_us (clock w (ticks w)) - US_PER_SECOND
       < wall_us (midnight_of (day + 1))
    /\ (hour (clock w (ticks w)) = 0 /\ minute (clock w (ticks w)) = 0
        /\ second (clock w (ticks w)) = 0 ->
        day = ordinal (clock w (ticks w)) - 1)
    /\ (1 <= hour (clock w (ticks w)) * 3600
             + minute (clock w (ticks w)) * 60 + second (clock w (ticks w)) ->
        day = ordinal (clock w (ticks w))).
Proof.
  set (t := clock w (ticks w)). intros V Ho.
  pose proof V as (_ & Hh & Hm & Hs & Hu).
  set (total := wall_us t + - timedelta_of 0 1).
  assert (Bounds : ordinal t - 1 <= total / US_PER_DAY <= ordinal t
                   /\ (hour t = 0 /\ minute t = 0 /\ second t = 0 ->
                       total / US_PER_DAY = ordinal t - 1)
                   /\ (1 <= hour t * 3600 + minute t * 60 + second t ->
                       total / US_PER_DAY = ordinal t)
                   /\ total / US_PER_DAY * US_PER_DAY <= total
                      < (total / US_PER_DAY + 1) * US_PER_DAY).
  { unfold total, wall_us, timedelta_of, US_PER_DAY, US_PER_SECOND in *.
    change (86400 * 1000000) with 86400000000.
    set (tt := ordinal t * 86400000000
               + (hour t * 3600 + minute t * 60 + second t) * 1000000
               + microsecond t + - (0 * 86400000000 + 1 * 1000000)).
    pose proof (Z.div_mod tt 86400000000 ltac:(lia)) as E1.
    pose proof (Z.mod_pos_bound tt 86400000000 ltac:(lia)) as B1.
    unfold tt in E1 at 1. lia. }
  destruct Bounds as (Bd & B0 & B1 & Bw).
  destruct (datetime_add_wall t (- timedelta_of 0 1) V) as (ref & E1 & Or & Wr & Fr).
  { fold total. unfold MAXORDINAL in *. lia. }
  fold total in Or, Wr.
  exists (total / US_PER_DAY).
  assert (Es : replace_midnight ref = midnight_of (total / US_PER_DAY)).
  { unfold replace_midnight, midnight_of. now rewrite Or, Fr. }
  split; [|split; [|split; [exact B0|exact B1]]].
  - unfold send_midnight_done_summary, bind, now. fold (tick w). fold t.
    rewrite E1. cbn [lift_result ret]. rewrite Es.
    rewrite datetime_add_day by (unfold MAXORDINAL in *; lia). reflexivity.
  - assert (Et : total = wall_us t - US_PER_SECOND)
      by (unfold total, timedelta_of; lia).
    rewrite <- Et. clear - Bw. clearbody total.
    set (day := total / US_PER_DAY) in *. clearbody day.
    unfold midnight_of, wall_us.
    cbn [ordinal hour minute second microsecond]. lia.
Qed.

End MidnightAnyTime.

(* ================================================================== *)
(** * A creation time that cannot be read *)
(* ================================================================== *)

Section UnreadableCreation.
Context `{RT : Runtime}.

Lemma group_items_unreadable (numbered : list numbered_row) :
  forall groups w,
    Exists (fun x => fromisoformat_tz (numbered_created x) = None) numbered ->
    exists w', group_items numbered groups w = (Raise ValueError, w')
               /\ tasks w' = tasks w.
Proof.
  induction numbered as [|[[[[n i] s] b] c] rest IH]; intros groups w E.
  - inversion E.
  - cbn [group_items]. unfold bind, is_older_than_week.
    destruct (fromisoformat_tz c) as [dt|] eqn:Ec.
    + inversion E as [? ? Hx|? ? Hr]; subst.
      * cbn [numbered_created] in Hx. congruence.
      * unfold now, ret.
        destruct (IH (dict_append groups s
                        (item_text
                           (if timedelta_of 7 0
                               <=? datetime_diff (clock w (ticks w)) dt
                            then RED else []) n b))
                    (mk_world (tasks w) (sqlite_seq w) (clock w) (S (ticks w)))
                    Hr) as (w' & Ew & Et).
        exists w'. split; [exact Ew|exact Et].
    + exists w. split; reflexivity.
Qed.

Lemma list_commands_normal (cmd : str) :
  In cmd LIST_COMMANDS ->
  normalize_text cmd = cmd /\ is_list_command cmd = true.
Proof.
  intros [<-|[<-|[<-|[<-|[]]]]]; split; vm_compute; reflexivity.
Qed.

(** X14: when one open task of the conversation has a creation time that
    cannot be read back, the open list is not rendered at all: the formatter,
    the reminder job and every list command raise ValueError, and no task is
    changed. *)
Theorem listing_fails_on_unreadable_created_at (chat : Z) (w : World)
    (t : Task) :
  In t (open_tasks chat w) ->
  fromisoformat_tz (created_at t) = None ->
  exists w',
    format_open_tasks_message chat w = (Raise ValueError, w')
    /\ send_open_tasks chat w = (Raise ValueError, w')
    /\ (forall cmd, In cmd LIST_COMMANDS ->
                    on_text chat cmd w = (Raise ValueError, w'))
    /\ tasks w' = tasks w.
Proof.
  intros Ht Hc.
  assert (Ex : Exists (fun x => fromisoformat_tz (numbered_created x) = None)
                 (List.map number_row
                    (enumerate_from 1 (sorted key_ltb key (open_rows chat w))))).
  { assert (Hr : In (open_row_of t) (sorted key_ltb key (open_rows chat w))).
    { eapply Permutation_in;
        [apply Permutation_sym, (sorted_perm key_ltb key)|].
      unfold open_rows. now apply in_map. }
    destruct (in_numbered _ _ 1 Hr) as (n & Hn).
    apply Exists_exists. eexists. split; [exact Hn|exact Hc]. }
  assert (F : exists w', format_open_tasks_message chat w = (Raise ValueError, w')
                         /\ tasks w' = tasks w).
  { unfold format_open_tasks_message, bind. rewrite ordered_open_tasks_eq.
    destruct (List.map number_row
                (enumerate_from 1 (sorted key_ltb key (open_rows chat w))))
      as [|x rest] eqn:En; [inversion Ex|].
    destruct (group_items_unreadable (x :: rest)
                (List.map (fun s => (s, [])) SECTION_ORDER) w Ex)
      as (w' & Ew & Et).
    exists w'. rewrite Ew. split; [reflexivity|exact Et]. }
  destruct F as (w' & Ef & Et). exists w'.
  split; [exact Ef|]. split; [exact Ef|]. split; [|exact Et].
  intros cmd Hcmd. destruct (list_commands_normal cmd Hcmd) as (En & El).
  unfold on_text. rewrite En, El. exact Ef.
Qed.

End UnreadableCreation.

(* ================================================================== *)
(** * The daily jobs of a chat *)
(* ================================================================== *)

Lemma str_of_int_injective (a b : Z) : str_of_int a = str_of_int b -> a = b.
Proof.
  assert (P : forall p, int_of_digits (uint_chars (Pos.to_uint p)) = Zpos p).
  { intros p. apply (str_of_int_digits (Zpos p)). lia. }
  assert (D : forall p, exists c r, uint_chars (Pos.to_uint p) = c :: r
                                    /\ is_decimal c = true).
  { intros p. pose proof (str_of_int_digits (Zpos p) ltac:(lia)) as (_ & F & N).
    cbn [str_of_int] in F, N.
    destruct (uint_chars (Pos.to_uint p)) as [|c r]; [contradiction|].
    exists c, r. split; [reflexivity|].
    cbn [forallb] in F. now apply andb_prop in F. }
  destruct a as [|p|p], b as [|q|q]; cbn [str_of_int]; intros E;
    try reflexivity.
  - apply (f_equal int_of_digits) in E. rewrite P in E.
    change (int_of_digits [48%N]) with 0 in E. lia.
  - discriminate.
  - apply (f_equal int_of_digits) in E. rewrite P in E.
    change (int_of_digits [48%N]) with 0 in E. lia.
  - apply (f_equal int_of_digits) in E. now rewrite !P in E.
  - destruct (D p) as (c & r & Ec & Hc). rewrite Ec in E.
    injection E as -> _. discriminate.
  - discriminate.
  - destruct (D q) as (c & r & Ec & Hc). rewrite Ec in E.
    injection E as <- _. discriminate.
  - injection E as E. apply (f_equal int_of_digits) in E. rewrite !P in E.
    injection E as ->. reflexivity.
Qed.

Lemma app_same_length {A} (p p' x y : list A) :
  length p = length p' -> p ++ x = p' ++ y -> p = p' /\ x = y.
Proof.
  revert p'; induction p as [|a p IH]; intros [|b p'] L E;
    try discriminate.
  - split; [reflexivity|exact E].
  - injection L as L. injection E as -> E. destruct (IH p' L E) as (-> & ->).
    split; reflexivity.
Qed.

Lemma name_for_injective (p p' : str) (c c' : Z) :
  In p JOB_PREFIXES -> In p' JOB_PREFIXES ->
  name_for p c = name_for p' c' -> p = p' /\ c = c'.
Proof.
  intros Hp Hp' E. unfold name_for in E.
  assert (L : length p = length p').
  { destruct Hp as [<-|[<-|[<-|[]]]]; destruct Hp' as [<-|[<-|[<-|[]]]];
      reflexivity. }
  destruct (app_same_length p p' _ _ L E) as (-> & Ec).
  split; [reflexivity|]. now apply str_of_int_injective.
Qed.

Lemma job_prefixes_distinct :
  REM_0900 <> REM_1815 /\ REM_0900 <> SUM_0000 /\ REM_1815 <> SUM_0000.
Proof. repeat split; intros E; vm_compute in E; discriminate. Qed.

Lemma get_remove_jobs (name name' : str) (q : JobQueue) :
  get_jobs_by_name name (remove_jobs_by_name name' q)
  = if str_eqb name name' then [] else get_jobs_by_name name q.
Proof.
  unfold get_jobs_by_name, remove_jobs_by_name.
  induction q as [|j q IH]; cbn [filter].
  - now destruct (str_eqb name name').
  - destruct (str_eqb (job_name j) name') eqn:E1; cbn [negb filter].
    + apply str_eqb_eq in E1.
      destruct (str_eqb name name') eqn:E2; [exact IH|].
      apply str_eqb_neq in E2.
      destruct (str_eqb (job_name j) name) eqn:E3; [|exact IH].
      apply str_eqb_eq in E3. congruence.
    + destruct (str_eqb name name') eqn:E2.
      * apply str_eqb_eq in E2. subst name'. now rewrite E1.
      * destruct (str_eqb (job_name j) name); [now rewrite IH|exact IH].
Qed.

Lemma get_run_daily (name : str) (cb : callback) (h m c : Z) (name' : str)
    (q : JobQueue) :
  get_jobs_by_name name (run_daily cb h m c name' q)
  = get_jobs_by_name name q
    ++ (if str_eqb name' name then [mk_job cb h m c name'] else []).
Proof.
  unfold get_jobs_by_name, run_daily. rewrite filter_app. reflexivity.
Qed.

Lemma remove_absent (name : str) (q : JobQueue) :
  get_jobs_by_name name q = [] -> remove_jobs_by_name name q = q.
Proof.
  unfold get_jobs_by_name, remove_jobs_by_name.
  induction q as [|j q IH]; cbn [filter]; [reflexivity|].
  destruct (str_eqb (job_name j) name); [discriminate|].
  intros E. cbn [negb]. now rewrite IH.
Qed.

(** The jobs under a name after [start_jobs_for_chat]. *)
Lemma get_start_jobs (chat : Z) (name : str) (q : JobQueue) :
  get_jobs_by_name name (start_jobs_for_chat chat q)
  = if str_eqb name (name_for REM_0900 chat)
    then [mk_job SendOpenTasksJob 9 0 chat (name_for REM_0900 chat)]
    else if str_eqb name (name_for REM_1815 chat)
    then [mk_job SendOpenTasksJob 18 15 chat (name_for REM_1815 chat)]
    else if str_eqb name (name_for SUM_0000 chat)
    then [mk_job SendMidnightDoneSummaryJob 0 0 chat (name_for SUM_0000 chat)]
    else get_jobs_by_name name q.
Proof.
  destruct job_prefixes_distinct as (D12 & D13 & D23).
  assert (N12 : name_for REM_0900 chat <> name_for REM_1815 chat).
  { intros E. apply name_for_injective in E; [tauto|now left|right; now left]. }
  assert (N13 : name_for REM_0900 chat <> name_for SUM_0000 chat).
  { intros E. apply name_for_injective in E;
      [tauto|now left|right; right; now left]. }
  assert (N23 : name_for REM_1815 chat <> name_for SUM_0000 chat).
  { intros E. apply name_for_injective in E;
      [tauto|right; now left|right; right; now left]. }
  unfold start_jobs_for_chat. rewrite !get_run_daily, !get_remove_jobs.
  destruct (str_eqb name (name_for REM_0900 chat)) eqn:E1.
  { apply str_eqb_eq in E1. subst name.
    apply str_eqb_neq in N12, N13.
    rewrite N12, N13, str_eqb_refl.
    assert (F2 : str_eqb (name_for REM_1815 chat) (name_for REM_0900 chat) = false)
      by (apply str_eqb_neq; apply str_eqb_neq in N12; congruence).
    assert (F3 : str_eqb (name_for SUM_0000 chat) (name_for REM_0900 chat) = false)
      by (apply str_eqb_neq; apply str_eqb_neq in N13; congruence).
    rewrite F2, F3. reflexivity. }
  assert (F1 : str_eqb (name_for REM_0900 chat) name = false).
  { apply str_eqb_neq. apply str_eqb_neq in E1. congruence. }
  rewrite F1, app_nil_r.
  destruct (str_eqb name (name_for REM_1815 chat)) eqn:E2.
  { apply str_eqb_eq in E2. subst name.
    apply str_eqb_neq in N23. rewrite N23, str_eqb_refl.
    assert (F3 : str_eqb (name_for SUM_0000 chat) (name_for REM_1815 chat) = false)
      by (apply str_eqb_neq; apply str_eqb_neq in N23; congruence).
    rewrite F3. reflexivity. }
  assert (F2 : str_eqb (name_for REM_1815 chat) name = false).
  { apply str_eqb_neq. apply str_eqb_neq in E2. congruence. }
  rewrite F2, app_nil_r.
  destruct (str_eqb name (name_for SUM_0000 chat)) eqn:E3.
  { apply str_eqb_eq in E3. subst name. now rewrite str_eqb_refl. }
  assert (F3 : str_eqb (name_for SUM_0000 chat) name = false).
  { apply str_eqb_neq. apply str_eqb_neq in E3. congruence. }
  now rewrite F3, app_nil_r.
Qed.

Lemma start_jobs_append (chat : Z) (q : JobQueue) :
  (forall p, In p JOB_PREFIXES -> get_jobs_by_name (name_for p chat) q = []) ->
  start_jobs_for_chat chat q = q ++ chat_jobs chat.
Proof.
  intros H. unfold start_jobs_for_chat, run_daily, chat_jobs.
  rewrite (remove_absent (name_for REM_0900 chat) q) by (apply H; now left).
  rewrite (remove_absent (name_for REM_1815 chat) q)
    by (apply H; right; now left).
  rewrite (remove_absent (name_for SUM_0000 chat) q)
    by (apply H; right; right; now left).
  now rewrite <- !app_assoc.
Qed.

Lemma remove_three (chat : Z) (q : JobQueue) :
  remove_jobs_by_name (name_for SUM_0000 chat)
    (remove_jobs_by_name (name_for REM_1815 chat)
       (remove_jobs_by_name (name_for REM_0900 chat) q))
  = filter (fun j => (negb (str_eqb (job_name j) (name_for REM_0900 chat))
                      && negb (str_eqb (job_name j) (name_for REM_1815 chat)))
                     && negb (str_eqb (job_name j) (name_for SUM_0000 chat))) q.
Proof. unfold remove_jobs_by_name. now rewrite !filter_andb. Qed.

Lemma start_jobs_split (chat : Z) (q : JobQueue) :
  start_jobs_for_chat chat q
  = remove_jobs_by_name (name_for SUM_0000 chat)
      (remove_jobs_by_name (name_for REM_1815 chat)
         (remove_jobs_by_name (name_for REM_0900 chat) q))
    ++ chat_jobs chat.
Proof.
  unfold start_jobs_for_chat, run_daily, chat_jobs. now rewrite <- !app_assoc.
Qed.

(** X15: whatever the queue held, after [start_jobs_for_chat] each of the
    three names of the chat has exactly one job, with its callback, time and
    chat; the jobs under the names of every other chat are the ones that
    were there; and running it again changes nothing. *)
Theorem start_jobs_for_chat_registers_once (chat : Z) (q : JobQueue) :
  get_jobs_by_name (name_for REM_0900 chat) (start_jobs_for_chat chat q)
  = [mk_job SendOpenTasksJob 9 0 chat (name_for REM_0900 chat)]
  /\ get_jobs_by_name (name_for REM_1815 chat) (start_jobs_for_chat chat q)
     = [mk_job SendOpenTasksJob 18 15 chat (name_for REM_1815 chat)]
  /\ get_jobs_by_name (name_for SUM_0000 chat) (start_jobs_for_chat chat q)
     = [mk_job SendMidnightDoneSummaryJob 0 0 chat (name_for SUM_0000 chat)]
  /\ (forall c p, c <> chat -> In p JOB_PREFIXES ->
        get_jobs_by_name (name_for p c) (start_jobs_for_chat chat q)
        = get_jobs_by_name (name_for p c) q)
  /\ start_jobs_for_chat chat (start_jobs_for_chat chat q)
     = start_jobs_for_chat chat q.
Proof.
  assert (N12 : str_eqb (name_for REM_1815 chat) (name_for REM_0900 chat) = false).
  { apply str_eqb_neq. intros E.
    apply name_for_injective in E; [|right; now left|now left].
    destruct job_prefixes_distinct as (D & _). destruct E as (E & _).
    now apply D. }
  assert (N13 : str_eqb (name_for SUM_0000 chat) (name_for REM_0900 chat) = false).
  { apply str_eqb_neq. intros E.
    apply name_for_injective in E; [|right; right; now left|now left].
    destruct job_prefixes_distinct as (_ & D & _). destruct E as (E & _).
    now apply D. }
  assert (N23 : str_eqb (name_for SUM_0000 chat) (name_for REM_1815 chat) = false).
  { apply str_eqb_neq. intros E.
    apply name_for_injective in E; [|right; right; now left|right; now left].
    destruct job_prefixes_distinct as (_ & _ & D). destruct E as (E & _).
    now apply D. }
  split; [|split; [|split; [|split]]].
  - rewrite get_start_jobs. now rewrite str_eqb_refl.
  - rewrite get_start_jobs. now rewrite N12, str_eqb_refl.
  - rewrite get_start_jobs. now rewrite N13, N23, str_eqb_refl.
  - intros c p Hc Hp. rewrite get_start_jobs.
    assert (F : forall p', In p' JOB_PREFIXES ->
                           str_eqb (name_for p c) (name_for p' chat) = false).
    { intros p' Hp'. apply str_eqb_neq. intros E.
      apply name_for_injective in E; [tauto|exact Hp|exact Hp']. }
    rewrite (F REM_0900) by (now left).
    rewrite (F REM_1815) by (right; now left).
    rewrite (F SUM_0000) by (right; right; now left). reflexivity.
  - rewrite (start_jobs_split chat (start_jobs_for_chat chat q)).
    rewrite (start_jobs_split chat q) at 1.
    rewrite (start_jobs_split chat q) at 1. f_equal.
    rewrite !remove_three, filter_app.
    rewrite filter_filter_implied by auto.
    unfold chat_jobs. cbn [filter job_name].
    rewrite !str_eqb_refl, N12. cbn [negb andb]. rewrite ?andb_false_r.
    cbn [negb andb]. rewrite ?andb_false_r. apply app_nil_r.
Qed.

Lemma get_chat_jobs_other (chat c : Z) (p : str) :
  c <> chat -> In p JOB_PREFIXES ->
  get_jobs_by_name (name_for p c) (chat_jobs chat) = [].
Proof.
  intros Hc Hp.
  assert (F : forall p', In p' JOB_PREFIXES ->
                         str_eqb (name_for p' chat) (name_for p c) = false).
  { intros p' Hp'. apply str_eqb_neq. intros E.
    apply name_for_injective in E; [|exact Hp'|exact Hp].
    destruct E as (_ & E). now apply Hc. }
  unfold get_jobs_by_name, chat_jobs. cbn [filter job_name].
  rewrite (F REM_0900) by (now left).
  rewrite (F REM_1815) by (right; now left).
  rewrite (F SUM_0000) by (right; right; now left). reflexivity.
Qed.

Lemma get_registered_other (seen : list Z) (c : Z) (p : str) :
  ~ In c seen -> In p JOB_PREFIXES ->
  get_jobs_by_name (name_for p c) (flat_map chat_jobs seen) = [].
Proof.
  intros Hc Hp. induction seen as [|s seen IH]; [reflexivity|].
  cbn [flat_map]. unfold get_jobs_by_name in *. rewrite filter_app.
  rewrite IH by (intros H; apply Hc; now right).
  rewrite app_nil_r. apply (get_chat_jobs_other s c p); [|exact Hp].
  intros E. apply Hc. now left.
Qed.

Lemma get_registered (seen : list Z) (c : Z) :
  In c seen ->
  get_jobs_by_name (name_for REM_0900 c) (flat_map chat_jobs seen) <> [].
Proof.
  induction seen as [|s seen IH]; [contradiction|].
  intros [->|H]; cbn [flat_map]; unfold get_jobs_by_name; rewrite filter_app.
  - unfold chat_jobs at 1. cbn [filter job_name]. rewrite str_eqb_refl.
    discriminate.
  - intros E. apply app_eq_nil in E. destruct E as (_ & E).
    now apply (IH H).
Qed.

Lemma first_messages_registered (cs : list Z) :
  forall seen0,
    NoDup seen0 ->
    exists seen,
      first_messages cs (flat_map chat_jobs seen0) = flat_map chat_jobs seen
      /\ NoDup seen
      /\ (forall c, In c seen <-> In c seen0 \/ In c cs).
Proof.
  induction cs as [|c cs IH]; intros seen0 ND.
  - exists seen0. split; [reflexivity|]. split; [exact ND|]. intros c.
    cbn [In]. tauto.
  - unfold first_messages. cbn [fold_left]. fold (first_messages cs).
    destruct (in_dec Z.eq_dec c seen0) as [Hin|Hout].
    + assert (E : fst (on_first_message c (flat_map chat_jobs seen0))
                  = flat_map chat_jobs seen0).
      { unfold on_first_message.
        pose proof (get_registered seen0 c Hin) as G.
        destruct (get_jobs_by_name (name_for REM_0900 c)
                    (flat_map chat_jobs seen0)); [contradiction|reflexivity]. }
      rewrite E. destruct (IH seen0 ND) as (seen & Es & NDs & Hs).
      exists seen. split; [exact Es|]. split; [exact NDs|].
      intros x. rewrite Hs. cbn [In]. split; [tauto|].
      intros [H|[Ex|H]]; [now left|left; now rewrite <- Ex|now right].
    + assert (E : fst (on_first_message c (flat_map chat_jobs seen0))
                  = flat_map chat_jobs (seen0 ++ [c])).
      { unfold on_first_message.
        rewrite (get_registered_other seen0 c REM_0900 Hout) by (now left).
        cbn [fst]. rewrite start_jobs_append.
        - rewrite flat_map_app. cbn [flat_map]. now rewrite app_nil_r.
        - intros p Hp. now apply get_registered_other. }
      rewrite E.
      assert (ND' : NoDup (seen0 ++ [c])).
      { apply NoDup_app; [exact ND|repeat constructor; intros []|].
        intros a Ha [<-|[]]. now apply Hout. }
      destruct (IH (seen0 ++ [c]) ND') as (seen & Es & NDs & Hs).
      exists seen. split; [exact Es|]. split; [exact NDs|].
      intros x. rewrite Hs, in_app_iff. cbn [In]. tauto.
Qed.

Lemma jobs_of_chat_registered (seen : list Z) (c : Z) :
  NoDup seen ->
  jobs_of_chat c (flat_map chat_jobs seen)
  = if in_dec Z.eq_dec c seen then chat_jobs c else [].
Proof.
  assert (Own : forall s, jobs_of_chat c (chat_jobs s)
                          = if s =? c then chat_jobs s else []).
  { intros s. unfold jobs_of_chat, chat_jobs. cbn [filter job_chat_id].
    now destruct (s =? c). }
  induction seen as [|s seen IH]; intros ND; [reflexivity|].
  inversion ND as [|? ? Hs ND']; subst.
  cbn [flat_map]. unfold jobs_of_chat in *. rewrite filter_app.
  rewrite Own, (IH ND').
  destruct (Z.eqb_spec s c) as [->|Hne].
  - destruct (in_dec Z.eq_dec c seen) as [H|_]; [contradiction|].
    destruct (in_dec Z.eq_dec c (c :: seen)) as [_|H];
      [apply app_nil_r|exfalso; apply H; now left].
  - destruct (in_dec Z.eq_dec c seen) as [H|H];
      destruct (in_dec Z.eq_dec c (s :: seen)) as [H'|H']; cbn [app];
      try reflexivity.
    + exfalso. apply H'. now right.
    + destruct H' as [E|H']; [congruence|contradiction].
Qed.

(** X16: starting from an empty queue, after any run of first messages the
    queue holds for every chat that wrote exactly its three daily jobs, once
    each however often the chat wrote, and no job for any other chat. *)
Theorem first_messages_register_each_chat_once (cs : list Z) (c : Z) :
  (In c cs -> jobs_of_chat c (first_messages cs []) = chat_jobs c)
  /\ (~ In c cs -> jobs_of_chat c (first_messages cs []) = [])
  /\ length (first_messages cs []) = (3 * length (nodup Z.eq_dec cs))%nat.
Proof.
  destruct (first_messages_registered cs [] (NoDup_nil _))
    as (seen & Es & ND & Hs).
  cbn [flat_map] in Es. rewrite Es.
  rewrite (jobs_of_chat_registered seen c ND).
  split; [|split].
  - intros H. destruct (in_dec Z.eq_dec c seen) as [_|N]; [reflexivity|].
    exfalso. apply N. apply Hs. now right.
  - intros H. destruct (in_dec Z.eq_dec c seen) as [Y|_]; [|reflexivity].
    apply Hs in Y. destruct Y as [[]|Y]. contradiction.
  - assert (L : length (flat_map chat_jobs seen) = (3 * length seen)%nat).
    { clear. induction seen as [|s seen IH]; [reflexivity|].
      cbn [flat_map]. rewrite length_app, IH. cbn [chat_jobs length]. lia. }
    rewrite L. f_equal.
    apply Nat.le_antisymm; apply NoDup_incl_length;
      try exact ND; try apply NoDup_nodup; intros x Hx.
    + apply nodup_In. apply Hs in Hx. destruct Hx as [[]|Hx]. exact Hx.
    + apply Hs. right. eapply nodup_In. exact Hx.
Qed.

(** X17: a second first-message check of the same chat finds its reminder
    job, so it registers nothing and sends no reply; and the check of one
    chat never touches the jobs under the names of another chat. *)
Theorem on_first_message_once (chat : Z) (q : JobQueue) :
  on_first_message chat (fst (on_first_message chat q))
  = (fst (on_first_message chat q), None)
  /\ (forall c p, c <> chat -> In p JOB_PREFIXES ->
        get_jobs_by_name (name_for p c) (fst (on_first_message chat q))
        = get_jobs_by_name (name_for p c) q).
Proof.
  split.
  - unfold on_first_message at 2 3.
    destruct (get_jobs_by_name (name_for REM_0900 chat) q) as [|j l] eqn:E;
      cbn [fst]; unfold on_first_message.
    + rewrite get_start_jobs, str_eqb_refl. reflexivity.
    + rewrite E. reflexivity.
  - intros c p Hc Hp. unfold on_first_message.
    destruct (get_jobs_by_name (name_for REM_0900 chat) q); cbn [fst];
      [|reflexivity].
    rewrite get_start_jobs.
    assert (F : forall p', In p' JOB_PREFIXES ->
                           str_eqb (name_for p c) (name_for p' chat) = false).
    { intros p' Hp'. apply str_eqb_neq. intros E.
      apply name_for_injective in E; [tauto|exact Hp|exact Hp']. }
    rewrite (F REM_0900) by (now left).
    rewrite (F REM_1815) by (right; now left).
    rewrite (F SUM_0000) by (right; right; now left). reflexivity.
Qed.

(* ================================================================== *)
(** * The migration of an old database file *)
(* ================================================================== *)

Lemma dict_get_app_mem {V} (r x : list (str * V)) (k : str) (d : V) :
  In k (List.map fst r) -> dict_get (r ++ x) k d = dict_get r k d.
Proof.
  induction r as [|[k' v] r IH]; cbn [List.map In fst app dict_get];
    [contradiction|].
  intros [E|H].
  - subst k'. now rewrite str_eqb_refl.
  - destruct (str_eqb k k'); [reflexivity|now apply IH].
Qed.

Lemma dict_get_app_new {V} (r : list (str * V)) (k : str) (v d : V) :
  ~ In k (List.map fst r) -> dict_get (r ++ [(k, v)]) k d = v.
Proof.
  induction r as [|[k' v'] r IH]; cbn [List.map In fst app dict_get]; intros H.
  - now rewrite str_eqb_refl.
  - destruct (str_eqb k k') eqn:E.
    + apply str_eqb_eq in E. exfalso. apply H. left. congruence.
    + apply IH. intros G. apply H. now right.
Qed.

Lemma existsb_str_eqb (k : str) (l : list str) :
  existsb (str_eqb k) l = true <-> In k l.
Proof.
  rewrite existsb_exists. split.
  - intros (x & Hx & E). apply str_eqb_eq in E. now subst.
  - intros H. exists k. split; [exact H|apply str_eqb_refl].
Qed.

(** X18: the migration of a database file.  It fails exactly when the table
    has no column spelled section but one that differs from it in letter
    case only.  Otherwise the table it leaves has the section column, every
    row keeps the value of each column it had, every row of a table that
    lacked the column reads General in it, a table that had the column is
    left as it was, and a second migration changes nothing. *)
Theorem ensure_schema_migration_complete (t : Table) :
  well_formed t ->
  (ensure_schema_migration (Some t) = OperationalError
   <-> ~ In (lit "section") (columns t)
       /\ exists c, In c (columns t) /\ ascii_lower c = lit "section")
  /\ (forall d, ensure_schema_migration (Some t) = Migrated d ->
      exists t',
        d = Some t'
        /\ In (lit "section") (columns t')
        /\ well_formed t'
        /\ length (records t') = length (records t)
        /\ (forall i r r' col,
              nth_error (records t) i = Some r ->
              nth_error (records t') i = Some r' ->
              In col (columns t) ->
              column_value r' col = column_value r col)
        /\ (In (lit "section") (columns t) -> t' = t)
        /\ (~ In (lit "section") (columns t) ->
            columns t' = columns t ++ [lit "section"]
            /\ forall r', In r' (records t') ->
                          column_value r' (lit "section") = SqlText GENERAL)
        /\ ensure_schema_migration d = Migrated d).
Proof.
  intros WF. unfold ensure_schema_migration. cbv zeta.
  destruct (existsb (str_eqb (lit "section")) (columns t)) eqn:E1.
  - apply existsb_str_eqb in E1. split.
    + split; [discriminate|]. intros (N & _). contradiction.
    + intros d [= <-]. exists t. split; [reflexivity|].
      split; [exact E1|]. split; [exact WF|]. split; [reflexivity|].
      split; [intros i r r' col H1 H2 _; congruence|].
      split; [reflexivity|]. split; [intros N; contradiction|].
      apply existsb_str_eqb in E1. now rewrite E1.
  - assert (N1 : ~ In (lit "section") (columns t)).
    { intros H. apply existsb_str_eqb in H. congruence. }
    destruct (existsb (same_column (lit "section")) (columns t)) eqn:E2.
    + split.
      * split; [|reflexivity]. intros _. split; [exact N1|].
        apply existsb_exists in E2. destruct E2 as (c & Hc & E).
        exists c. split; [exact Hc|]. unfold same_column in E.
        apply str_eqb_eq in E. rewrite <- E. vm_compute. reflexivity.
      * intros d. discriminate.
    + split.
      * split; [discriminate|]. intros (_ & c & Hc & E). exfalso.
        assert (X : existsb (same_column (lit "section")) (columns t) = true).
        { apply existsb_exists. exists c. split; [exact Hc|].
          unfold same_column. rewrite E. vm_compute. reflexivity. }
        congruence.
      * intros d [= <-]. exists (add_section_column t).
        split; [reflexivity|].
        split; [cbn [add_section_column columns]; apply in_or_app; right;
                now left|].
        split.
        { unfold well_formed, add_section_column. cbn [columns records].
          apply Forall_forall. intros r' Hr'. apply in_map_iff in Hr'.
          destruct Hr' as (r & <- & Hr). rewrite map_app.
          unfold well_formed in WF. rewrite Forall_forall in WF.
          now rewrite (WF r Hr). }
        split; [cbn [add_section_column records]; apply length_map|].
        split.
        { intros i r r' col H1 H2 Hc. cbn [add_section_column records] in H2.
          rewrite nth_error_map, H1 in H2. injection H2 as <-.
          unfold column_value. apply dict_get_app_mem.
          unfold well_formed in WF. rewrite Forall_forall in WF.
          rewrite (WF r) by (eapply nth_error_In; exact H1). exact Hc. }
        split; [intros H; contradiction|].
        split.
        { intros _. split; [reflexivity|]. intros r' Hr'.
          cbn [add_section_column records] in Hr'. apply in_map_iff in Hr'.
          destruct Hr' as (r & <- & Hr). unfold column_value.
          apply dict_get_app_new.
          unfold well_formed in WF. rewrite Forall_forall in WF.
          now rewrite (WF r Hr). }
        cbn [add_section_column columns].
        assert (X : existsb (str_eqb (lit "section"))
                      (columns t ++ [lit "section"]) = true).
        { apply existsb_str_eqb. apply in_or_app. right. now left. }
        now rewrite X.
Qed.


(* ================================================================== *)
(** * The replies of [on_text] *)
(* ================================================================== *)


Section Replies.
Context `{RT : Runtime}.


End Replies.

(* ================================================================== *)
(** * The properties above on concrete tables, queues and files *)
(* ================================================================== *)

Section OnConcreteInputs.
#[local] Existing Instance FixedOffset.runtime.

Lemma demo_unique_ids : unique_ids FixedOffset.demo_world.
Proof.
  unfold unique_ids. cbn.
  repeat (constructor; [cbn; intuition discriminate|]). constructor.
Qed.

(** A message of conversation 8 and the listing of conversation 7. *)
Lemma other_conversations_untouched_witness :
  let o := OnText 8 (lit "water plants") in
  let w := FixedOffset.demo_world in
  7 <> operation_chat o
  /\ open_rows 7 (run o w) = open_rows 7 w.
Proof.
  intros o w.
  assert (H : 7 <> operation_chat o) by (vm_compute; discriminate).
  split; [exact H|].
  exact (proj1 (proj2 (other_conversations_untouched o w 7 H))).
Defined.

(** Completing number 2 of the three open tasks of conversation 7. *)
Lemma completion_removes_the_numbered_task_witness :
  let w := FixedOffset.demo_world in
  unique_ids w
  /\ 1 <= 2 <= Z.of_nat (length (open_tasks 7 w))
  /\ fst (mark_done_by_display_number 7 2 w) = Ok true.
Proof.
  intros w.
  assert (H : 1 <= 2 <= Z.of_nat (length (open_tasks 7 w)))
    by (vm_compute; split; discriminate).
  split; [exact demo_unique_ids|]. split; [exact H|].
  destruct (completion_removes_the_numbered_task 7 2 w demo_unique_ids H)
    as (rows & r & _ & _ & E & _).
  exact E.
Defined.

(** Two messages and a reminder on the empty table. *)
Lemma handlers_store_known_sections_witness :
  let os := [OnText 7 (lit "buy milk דחוף"); SendOpenTasks 7;
             OnText 7 (lit "סיים 1"); OnText 8 (lit "  pay   rent ")] in
  forallb is_handler os = true
  /\ Forall stored_by_handler
       (tasks (run_all os (mk_world [] 0 FixedOffset.hourly 0))).
Proof.
  intros os.
  assert (H : forallb is_handler os = true) by reflexivity.
  split; [exact H|].
  exact (proj1 (handlers_store_known_sections os FixedOffset.hourly 0 H)).
Defined.

Lemma html_escape_injective_witness :
  html_escape (lit "a<b") = html_escape [97; 60; 98]%N
  /\ lit "a<b" = [97; 60; 98]%N.
Proof.
  assert (H : html_escape (lit "a<b") = html_escape [97; 60; 98]%N)
    by reflexivity.
  split; [exact H|].
  exact (html_escape_injective (lit "a<b") [97; 60; 98]%N H).
Defined.

(** The second number of a listing sent back behind the first verb. *)
Lemma display_number_round_trip_witness :
  let verb := lit "סיים" in
  In verb DONE_VERBS /\ 0 <= 2
  /\ parse_done_command (verb ++ [SPACE] ++ str_of_int 2) = Some 2.
Proof.
  intros verb.
  assert (H1 : In verb DONE_VERBS) by (left; reflexivity).
  assert (H2 : 0 <= 2) by lia.
  split; [exact H1|]. split; [exact H2|].
  exact (proj1 (display_number_round_trip verb 2 7 FixedOffset.demo_world
                  H1 H2)).
Defined.

(** The midnight job firing five seconds late, on 2024-01-02. *)
Lemma midnight_window_any_time_witness :
  let w := mk_world [] 0 (fun _ => mk_datetime 738887 0 0 5 0 false) 0 in
  valid_datetime (clock w (ticks w))
  /\ 2 <= ordinal (clock w (ticks w)) < MAXORDINAL
  /\ exists day,
       send_midnight_done_summary 7 w
       = format_done_summary_for_range 7
           (midnight_of day) (midnight_of (day + 1)) (tick w)
       /\ day = 738887.
Proof.
  intros w.
  assert (H1 : valid_datetime (clock w (ticks w)))
    by (unfold valid_datetime, MAXORDINAL, US_PER_SECOND; cbn; lia).
  assert (H2 : 2 <= ordinal (clock w (ticks w)) < MAXORDINAL)
    by (unfold MAXORDINAL; cbn; lia).
  split; [exact H1|]. split; [exact H2|].
  destruct (midnight_window_any_time 7 w H1 H2) as (day & E & _ & _ & Hd).
  exists day. split; [exact E|]. apply Hd. cbn. lia.
Defined.

(** A row whose creation time was written by hand. *)
Lemma listing_fails_on_unreadable_created_at_witness :
  let t := mk_task 1 7 GENERAL (lit "buy milk") (lit "yesterday") false None in
  let w := mk_world [t] 1 FixedOffset.hourly 0 in
  In t (open_tasks 7 w)
  /\ fromisoformat_tz (created_at t) = None
  /\ exists w', format_open_tasks_message 7 w = (Raise ValueError, w').
Proof.
  intros t w.
  assert (H1 : In t (open_tasks 7 w)) by (left; reflexivity).
  assert (H2 : fromisoformat_tz (created_at t) = None) by reflexivity.
  split; [exact H1|]. split; [exact H2|].
  destruct (listing_fails_on_unreadable_created_at 7 w t H1 H2)
    as (w' & E & _).
  exists w'. exact E.
Defined.

End OnConcreteInputs.

(** A table of the time before sections, with one row. *)
Lemma ensure_schema_migration_complete_witness :
  let t := mk_table
             [lit "id"; lit "chat_id"; lit "text"; lit "created_at";
              lit "done"; lit "done_at"]
             [[(lit "id", SqlInteger 1); (lit "chat_id", SqlInteger 7);
               (lit "text", SqlText (lit "buy milk"));
               (lit "created_at", SqlText (lit "2023-12-31T09:00:00+02:00"));
               (lit "done", SqlInteger 0); (lit "done_at", SqlNull)]] in
  well_formed t
  /\ (ensure_schema_migration (Some t) = OperationalError
      <-> ~ In (lit "section") (columns t)
          /\ exists c, In c (columns t) /\ ascii_lower c = lit "section").
Proof.
  intros t.
  assert (H : well_formed t) by (constructor; [reflexivity|constructor]).
  split; [exact H|].
  exact (proj1 (ensure_schema_migration_complete t H)).
Defined.


